(** * logg: a leveled logger with pluggable appenders

    A shallow embedding of the Go package [logg] (logg.go, console.go,
    file_appender.go, logutils.go).  Go values are modelled as follows:
    [int] as [Z] (with the 64-bit wrap-around written out where the code
    does arithmetic), [string] as Rocq strings (byte sequences, so
    [String.length] is Go's [len]), [error] as the text of [Error()], a nil
    pointer as [None].  The operating system is an explicit [World] that the
    code threads through every call of package [os]. *)

From Stdlib Require Import ZArith Lia Bool Ascii String.
From stdpp Require Import base option list gmap strings.

Open Scope Z_scope.

(** ** Go runtime: panics and results *)

Inductive PanicKind :=
  | SendOnClosedChannel
  | CloseOfClosedChannel
  | NegativeWaitGroup
  | IndexOutOfRange
  | NilDereference
  | NegativeChanSize
  | NilAppender
  | DuplicateAppender.

Inductive Res (A : Type) :=
  | Ok (a : A)
  | Panic (p : PanicKind).
Arguments Ok {A} a.
Arguments Panic {A} p.

Definition bindR {A B} (r : Res A) (k : A -> Res B) : Res B :=
  match r with
  | Ok a => k a
  | Panic p => Panic p
  end.

Notation "x <-- r ;; k" := (bindR r (fun x => k))
  (at level 100, r at next level, right associativity).

(** Go's [error]: [None] is [nil], [Some s] an error whose [Error()] is [s]. *)
Definition error := option string.

(** Go's [int] is 64 bits wide on the platforms the package targets. *)
Definition wrap64 (z : Z) : Z := (z + 2 ^ 63) mod 2 ^ 64 - 2 ^ 63.

Definition len (s : string) : Z := Z.of_nat (String.length s).

(** ** Package strings *)
Module strings.

Definition HasPrefix (s pre : string) : bool := String.prefix pre s.

(** [len(s) >= len(suffix) && s[len(s)-len(suffix):] == suffix] *)
Definition HasSuffix (s suffix : string) : bool :=
  (String.length suffix <=? String.length s)%nat
  && String.eqb
       (String.substring (String.length s - String.length suffix)
                  (String.length suffix) s)
       suffix.

Definition TrimSuffix (s suffix : string) : string :=
  if HasSuffix s suffix
  then String.substring 0 (String.length s - String.length suffix) s
  else s.

End strings.

(** ** Package strconv / fmt: decimal rendering *)
Module strconv.

Definition digit (n : nat) : ascii := ascii_of_nat (48 + n mod 10).

Fixpoint utoa_go (fuel n : nat) (acc : string) : string :=
  match fuel with
  | O => acc
  | S fuel' =>
      let acc' := String (digit n) acc in
      if (n / 10 =? 0)%nat then acc' else utoa_go fuel' (n / 10) acc'
  end.

(** Decimal digits of a natural number, most significant first. *)
Definition utoa (n : nat) : string := utoa_go (S n) n "".

Definition FormatInt (z : Z) : string :=
  if z <? 0 then "-" +:+ utoa (Z.to_nat (- z)) else utoa (Z.to_nat z).

Definition Itoa := FormatInt.

Fixpoint zeros (n : nat) : string :=
  match n with
  | O => ""
  | S n' => String "0" (zeros n')
  end.

(** The verb [%0Nd] of [fmt], and [appendInt] of package time, on a
    number that is not negative: at least [width] digits. *)
Definition pad (width n : nat) : string :=
  zeros (width - String.length (utoa n)) +:+ utoa n.

End strconv.

(** ** Package path/filepath (Unix separator) *)
Module filepath.

Definition Separator : ascii := "/"%char.
Definition IsPathSeparator (c : ascii) : bool := Ascii.eqb c Separator.

Definition tail_from (i : nat) (s : string) : string :=
  String.substring i (String.length s - i) s.

(** The loop of [Ext]: [n] is [i+1]; it walks down from the last byte and
    stops at the first separator. *)
Fixpoint ext_scan (path : string) (n : nat) : string :=
  match n with
  | O => ""
  | S i =>
      match String.get i path with
      | Some c =>
          if IsPathSeparator c then ""
          else if Ascii.eqb c "."%char then tail_from i path
          else ext_scan path i
      | None => ""
      end
  end.

Definition Ext (path : string) : string := ext_scan path (String.length path).

(** Strips the trailing separators of a path ([n] bytes are left). *)
Fixpoint strip_seps (path : string) (n : nat) : string :=
  match n with
  | O => ""
  | S i =>
      match String.get i path with
      | Some c =>
          if IsPathSeparator c then strip_seps path i else String.substring 0 n path
      | None => ""
      end
  end.

(** Position just after the last separator among the first [n] bytes. *)
Fixpoint last_sep (path : string) (n : nat) : nat :=
  match n with
  | O => O
  | S i =>
      match String.get i path with
      | Some c => if IsPathSeparator c then n else last_sep path i
      | None => O
      end
  end.

Definition Base (path : string) : string :=
  if String.eqb path "" then "."
  else
    let p := strip_seps path (String.length path) in
    let q := tail_from (last_sep p (String.length p)) p in
    if String.eqb q "" then "/" else q.

(** [Clean] on a path that has no [.] or [..] element and no doubled
    separator: only the trailing separator goes, the empty path is [.]
    and a path of separators is the root. *)
Definition Clean (path : string) : string :=
  if String.eqb path "" then "."
  else
    let p := strip_seps path (String.length path) in
    if String.eqb p "" then "/" else p.

Definition Dir (path : string) : string :=
  Clean (String.substring 0 (last_sep path (String.length path)) path).

(** [under root p]: [p] names an entry below the directory [root], as
    [Walk] builds the names with [Join]. *)
Definition under (root p : string) : bool :=
  if String.eqb root "." then
    negb (String.eqb p ".") && negb (String.prefix "/" p) && negb (String.eqb p "")
  else if String.eqb root "/" then
    String.prefix "/" p && negb (String.eqb p "/")
  else String.prefix (root +:+ "/") p.

End filepath.

(** ** Package time *)
Module time.

(** An instant: its calendar fields in the local zone and its Unix time. *)
Record Time := {
  year : nat; month : nat; day : nat;
  hour : nat; minute : nat; second : nat;
  unix : Z
}.

Definition Day (t : Time) : Z := Z.of_nat (day t).
Definition Unix (t : Time) : Z := unix t.

(** The numeric reference elements of a layout ([nextStdChunk]); the
    layouts of this package have no textual, zone or fraction element. *)
Inductive Chunk :=
  | Lit (c : ascii)
  | stdLongYear | stdYear
  | stdZeroMonth | stdNumMonth
  | stdZeroDay | stdDay
  | stdHour | stdZeroHour12 | stdHour12
  | stdZeroMinute | stdMinute
  | stdZeroSecond | stdSecond.

(** [std0x]: the element that ["0" d] stands for, [d] in ['1'..'6']. *)
Definition std0x (d : ascii) : option Chunk :=
  if Ascii.eqb d "1" then Some stdZeroMonth
  else if Ascii.eqb d "2" then Some stdZeroDay
  else if Ascii.eqb d "3" then Some stdZeroHour12
  else if Ascii.eqb d "4" then Some stdZeroMinute
  else if Ascii.eqb d "5" then Some stdZeroSecond
  else if Ascii.eqb d "6" then Some stdYear
  else None.

Fixpoint chunks (fuel : nat) (layout : string) : list Chunk :=
  match fuel, layout with
  | O, _ => []
  | _, EmptyString => []
  | S fuel', String c rest =>
      if Ascii.eqb c "0" then
        match rest with
        | String d rest' =>
            match std0x d with
            | Some k => k :: chunks fuel' rest'
            | None => Lit c :: chunks fuel' rest
            end
        | EmptyString => [Lit c]
        end
      else if Ascii.eqb c "1" then
        match rest with
        | String d rest' =>
            if Ascii.eqb d "5" then stdHour :: chunks fuel' rest'
            else stdNumMonth :: chunks fuel' rest
        | EmptyString => [stdNumMonth]
        end
      else if Ascii.eqb c "2" then
        if String.prefix "006" rest
        then stdLongYear :: chunks fuel' (String.substring 3 (String.length rest - 3) rest)
        else stdDay :: chunks fuel' rest
      else if Ascii.eqb c "3" then stdHour12 :: chunks fuel' rest
      else if Ascii.eqb c "4" then stdMinute :: chunks fuel' rest
      else if Ascii.eqb c "5" then stdSecond :: chunks fuel' rest
      else Lit c :: chunks fuel' rest
  end.

Definition hour12 (t : Time) : nat :=
  let hr := (hour t mod 12)%nat in
  if (hr =? 0)%nat then 12%nat else hr.

Definition render (t : Time) (k : Chunk) : string :=
  match k with
  | Lit c => String c ""
  | stdLongYear => strconv.pad 4 (year t)
  | stdYear => strconv.pad 2 (year t mod 100)
  | stdZeroMonth => strconv.pad 2 (month t)
  | stdNumMonth => strconv.utoa (month t)
  | stdZeroDay => strconv.pad 2 (day t)
  | stdDay => strconv.utoa (day t)
  | stdHour => strconv.pad 2 (hour t)
  | stdZeroHour12 => strconv.pad 2 (hour12 t)
  | stdHour12 => strconv.utoa (hour12 t)
  | stdZeroMinute => strconv.pad 2 (minute t)
  | stdMinute => strconv.utoa (minute t)
  | stdZeroSecond => strconv.pad 2 (second t)
  | stdSecond => strconv.utoa (second t)
  end.

Definition Format (t : Time) (layout : string) : string :=
  foldr (fun k acc => render t k +:+ acc) "" (chunks (String.length layout) layout).

End time.

(** ** The file appender's state (file_appender.go)

    Declared ahead of the operating system because a rotation leaves a
    goroutine behind ([go f.deleteOldLog()]) whose receiver the world keeps
    until it is scheduled. *)
Record fileLogWriter := {
  Filename : string;
  fileWriter : option nat;      (* *os.File: an open-file number, None = nil *)
  MaxSize : Z;
  maxSizeCurSize : Z;
  Daily : bool;
  MaxDays : Z;
  dailyOpenDate : Z;
  Rotate : bool;
  Level : Z;
  fileNameOnly : string;
  fileSuffix : string
}.

(** ** Package os: files, names, standard streams *)
Module os.

Record Inode := { i_dir : bool; i_data : string; i_mtime : Z }.

Record FileInfo := { IsDir : bool; Size : Z; ModTime : Z }.

Definition info_of (nd : Inode) : FileInfo :=
  {| IsDir := i_dir nd; Size := len (i_data nd); ModTime := i_mtime nd |}.

Inductive Stream := Stdout | Stderr.

(** The methods of the interface [Appender]. *)
Inductive Method :=
  | MInit (config : string)
  | MWriteMsg (when : time.Time) (msg : string) (level : Z)
  | MFlush
  | MDestroy.

(** What the logger does to the outside: the calls of package os;
    [CInvoke], the call of a method of one of its appenders; [CSend], a
    message that went into the logger's channel. *)
Inductive Call :=
  | CInvoke (m : Method)
  | CSend (when : time.Time) (msg : string) (level : Z)
  | CLstat (name : string)
  | COpenFile (name : string)
  | CRename (old new : string)
  | CRemove (name : string)
  | CClose (h : nat)
  | CStat (h : nat)
  | CWrite (h : nat) (b : string)
  | CSync (h : nat)
  | CStd (s : Stream) (b : string).

(** The world outside the logger.  [names] maps a path to an inode
    number, [inodes] and [files] only grow; an open file is an inode
    number and a closed flag.  [refuses] stands for every failure the
    model has no cause for (permissions, full disks, I/O errors).
    [trace] records each call in order, with the position in the
    logger's list of the appender that is called or that makes the call
    ([actor]); both are ghost state, nothing in the code reads them. *)
Record World := {
  names : gmap string nat;
  inodes : list Inode;
  files : list (nat * bool);
  now : time.Time;
  refuses : Call -> bool;
  callers : Z -> option (string * Z);
  goroutines : list fileLogWriter;
  actor : option nat;
  trace : list (option nat * Call)
}.

Definition with_names (m : gmap string nat) (w : World) : World :=
  {| names := m; inodes := inodes w; files := files w; now := now w;
     refuses := refuses w; callers := callers w; goroutines := goroutines w;
     actor := actor w; trace := trace w |}.
Definition with_inodes (l : list Inode) (w : World) : World :=
  {| names := names w; inodes := l; files := files w; now := now w;
     refuses := refuses w; callers := callers w; goroutines := goroutines w;
     actor := actor w; trace := trace w |}.
Definition with_files (l : list (nat * bool)) (w : World) : World :=
  {| names := names w; inodes := inodes w; files := l; now := now w;
     refuses := refuses w; callers := callers w; goroutines := goroutines w;
     actor := actor w; trace := trace w |}.
Definition with_now (t : time.Time) (w : World) : World :=
  {| names := names w; inodes := inodes w; files := files w; now := t;
     refuses := refuses w; callers := callers w; goroutines := goroutines w;
     actor := actor w; trace := trace w |}.
Definition with_goroutines (l : list fileLogWriter) (w : World) : World :=
  {| names := names w; inodes := inodes w; files := files w; now := now w;
     refuses := refuses w; callers := callers w; goroutines := l;
     actor := actor w; trace := trace w |}.
Definition with_actor (a : option nat) (w : World) : World :=
  {| names := names w; inodes := inodes w; files := files w; now := now w;
     refuses := refuses w; callers := callers w; goroutines := goroutines w;
     actor := a; trace := trace w |}.
Definition with_trace (l : list (option nat * Call)) (w : World) : World :=
  {| names := names w; inodes := inodes w; files := files w; now := now w;
     refuses := refuses w; callers := callers w; goroutines := goroutines w;
     actor := actor w; trace := l |}.

Definition called (c : Call) (w : World) : World :=
  with_trace (trace w ++ [(actor w, c)]) w.

(** Results of a fallible call: the value, or the text of the error. *)
Inductive Result (A : Type) :=
  | Done (a : A)
  | Fail (msg : string).
Arguments Done {A} a.
Arguments Fail {A} msg.

Definition node (name : string) (w : World) : option Inode :=
  ino ← names w !! name; inodes w !! ino.

Definition Lstat (name : string) (w : World) : Result FileInfo * World :=
  let w1 := called (CLstat name) w in
  if refuses w (CLstat name) then (Fail ("lstat " +:+ name +:+ ": permission denied"), w1)
  else match node name w with
       | Some nd => (Done (info_of nd), w1)
       | None => (Fail ("lstat " +:+ name +:+ ": no such file or directory"), w1)
       end.

Definition open_inode (ino : nat) (w : World) : nat * World :=
  (length (files w), with_files (files w ++ [(ino, false)]) w).

(** [os.OpenFile(name, O_WRONLY|O_APPEND|O_CREATE, 0660)] *)
Definition OpenFile (name : string) (w : World) : Result nat * World :=
  let w1 := called (COpenFile name) w in
  if refuses w (COpenFile name) then (Fail ("open " +:+ name +:+ ": permission denied"), w1)
  else match names w !! name with
       | Some ino =>
           match inodes w !! ino with
           | Some nd =>
               if i_dir nd then (Fail ("open " +:+ name +:+ ": is a directory"), w1)
               else let '(h, w2) := open_inode ino w1 in (Done h, w2)
           | None => (Fail ("open " +:+ name +:+ ": no such file or directory"), w1)
           end
       | None =>
           let ino := length (inodes w) in
           let nd := {| i_dir := false; i_data := ""; i_mtime := time.Unix (now w) |} in
           let w2 := with_names (<[name := ino]> (names w)) (with_inodes (inodes w ++ [nd]) w1) in
           let '(h, w3) := open_inode ino w2 in (Done h, w3)
       end.

(** The inode behind an open file that has not been closed. *)
Definition live (h : option nat) (w : World) : option nat :=
  match h with
  | Some h' =>
      match files w !! h' with
      | Some (ino, false) => Some ino
      | _ => None
      end
  | None => None
  end.

Definition Close (h : option nat) (w : World) : error * World :=
  match h with
  | None => (Some "invalid argument", w)
  | Some h' =>
      let w1 := called (CClose h') w in
      match files w !! h' with
      | Some (ino, false) => (None, with_files (<[h' := (ino, true)]> (files w)) w1)
      | _ => (Some "close: file already closed", w1)
      end
  end.

Definition Stat (h : option nat) (w : World) : Result FileInfo * World :=
  match h with
  | None => (Fail "invalid argument", w)
  | Some h' =>
      let w1 := called (CStat h') w in
      match live h w with
      | Some ino =>
          if refuses w (CStat h') then (Fail "stat: input/output error", w1)
          else match inodes w !! ino with
               | Some nd => (Done (info_of nd), w1)
               | None => (Fail "stat: bad file descriptor", w1)
               end
      | None => (Fail "stat: file already closed", w1)
      end
  end.

(** [File.Write] on a file opened with O_APPEND: the bytes go to the
    end of the inode, whatever name it has by now. *)
Definition Write (h : option nat) (b : string) (w : World) : Result Z * World :=
  match h with
  | None => (Fail "invalid argument", w)
  | Some h' =>
      let w1 := called (CWrite h' b) w in
      match live h w with
      | Some ino =>
          if refuses w (CWrite h' b) then (Fail "write: input/output error", w1)
          else match inodes w !! ino with
               | Some nd =>
                   let nd' := {| i_dir := i_dir nd; i_data := i_data nd +:+ b;
                                 i_mtime := time.Unix (now w) |} in
                   (Done (len b), with_inodes (<[ino := nd']> (inodes w)) w1)
               | None => (Fail "write: bad file descriptor", w1)
               end
      | None => (Fail "write: file already closed", w1)
      end
  end.

Definition Sync (h : option nat) (w : World) : World :=
  match h with
  | None => w
  | Some h' => called (CSync h') w
  end.

Definition Rename (old new : string) (w : World) : error * World :=
  let w1 := called (CRename old new) w in
  if refuses w (CRename old new) then (Some ("rename " +:+ old +:+ " " +:+ new +:+ ": permission denied"), w1)
  else match names w !! old with
       | Some ino =>
           match node new w with
           | Some nd =>
               if i_dir nd then (Some ("rename " +:+ old +:+ " " +:+ new +:+ ": file exists"), w1)
               else (None, with_names (<[new := ino]> (delete old (names w))) w1)
           | None => (None, with_names (<[new := ino]> (delete old (names w))) w1)
           end
       | None => (Some ("rename " +:+ old +:+ " " +:+ new +:+ ": no such file or directory"), w1)
       end.

Definition Remove (name : string) (w : World) : error * World :=
  let w1 := called (CRemove name) w in
  if refuses w (CRemove name) then (Some ("remove " +:+ name +:+ ": permission denied"), w1)
  else match names w !! name with
       | Some _ => (None, with_names (delete name (names w)) w1)
       | None => (Some ("remove " +:+ name +:+ ": no such file or directory"), w1)
       end.

(** A write to [os.Stdout] or [os.Stderr]. *)
Definition Print (s : Stream) (b : string) (w : World) : World :=
  called (CStd s b) w.

(** What a stream has received so far. *)
Definition printed (s : Stream) (w : World) : list string :=
  omap (fun e => match e.2 with
                 | CStd Stdout b => match s with Stdout => Some b | Stderr => None end
                 | CStd Stderr b => match s with Stderr => Some b | Stdout => None end
                 | _ => None
                 end) (trace w).

(** [quiet c]: a call of package os, as opposed to the ghost records. *)
Definition quiet (c : Call) : bool :=
  match c with
  | CInvoke _ | CSend _ _ _ => false
  | _ => true
  end.

(** [w'] comes from [w] by calls of package os made for the same actor:
    the clock, the failures and the stack are as they were. *)
Definition os_steps (w w' : World) : Prop :=
  actor w' = actor w /\ now w' = now w /\ refuses w' = refuses w
  /\ callers w' = callers w
  /\ exists l, trace w' = trace w ++ l
               /\ Forall (fun e => e.1 = actor w /\ quiet e.2 = true) l.

End os.

(** ** What the embedding takes from the Go runtime

    [encoding/json] is not part of the package: [json.Unmarshal] into an
    appender is a function from the text and the current values of the
    exported fields to their new values and an error (Go fills fields even
    when it ends in an error).  [GOOS_windows] is [runtime.GOOS == "windows"]. *)
Record fileFields := {
  jFilename : string; jMaxSize : Z; jDaily : bool;
  jMaxDays : Z; jRotate : bool; jLevel : Z
}.

Class Runtime := {
  GOOS_windows : bool;
  unmarshal_console : string -> Z * bool -> (Z * bool) * error;
  unmarshal_file : string -> fileFields -> fileFields * error
}.

Definition nl : string := String (ascii_of_nat 10) "".
Definition dquote : string := String (ascii_of_nat 34) "".

(** The verb [%q] on a string that needs no escape. *)
Definition quoted (s : string) : string := dquote +:+ s +:+ dquote.

(** The layout both appenders stamp their lines with. *)
Definition stampLayout : string := "2006-01-02 15:03:04".

(** ** file_appender.go *)
Module file.
Section FileAppender.
Context `{rt : Runtime}.
Import os.

Definition newFileAppender : fileLogWriter :=
  {| Filename := ""; fileWriter := None; MaxSize := 0; maxSizeCurSize := 0;
     Daily := true; MaxDays := 0; dailyOpenDate := 0; Rotate := true;
     Level := 4; fileNameOnly := ""; fileSuffix := "" |}.

Definition exported (f : fileLogWriter) : fileFields :=
  {| jFilename := Filename f; jMaxSize := MaxSize f; jDaily := Daily f;
     jMaxDays := MaxDays f; jRotate := Rotate f; jLevel := Level f |}.

Definition set_exported (j : fileFields) (f : fileLogWriter) : fileLogWriter :=
  {| Filename := jFilename j; fileWriter := fileWriter f; MaxSize := jMaxSize j;
     maxSizeCurSize := maxSizeCurSize f; Daily := jDaily j; MaxDays := jMaxDays j;
     dailyOpenDate := dailyOpenDate f; Rotate := jRotate j; Level := jLevel j;
     fileNameOnly := fileNameOnly f; fileSuffix := fileSuffix f |}.

Definition set_names (only suffix : string) (f : fileLogWriter) : fileLogWriter :=
  {| Filename := Filename f; fileWriter := fileWriter f; MaxSize := MaxSize f;
     maxSizeCurSize := maxSizeCurSize f; Daily := Daily f; MaxDays := MaxDays f;
     dailyOpenDate := dailyOpenDate f; Rotate := Rotate f; Level := Level f;
     fileNameOnly := only; fileSuffix := suffix |}.

Definition set_fileWriter (h : option nat) (f : fileLogWriter) : fileLogWriter :=
  {| Filename := Filename f; fileWriter := h; MaxSize := MaxSize f;
     maxSizeCurSize := maxSizeCurSize f; Daily := Daily f; MaxDays := MaxDays f;
     dailyOpenDate := dailyOpenDate f; Rotate := Rotate f; Level := Level f;
     fileNameOnly := fileNameOnly f; fileSuffix := fileSuffix f |}.

Definition set_counters (size day : Z) (f : fileLogWriter) : fileLogWriter :=
  {| Filename := Filename f; fileWriter := fileWriter f; MaxSize := MaxSize f;
     maxSizeCurSize := size; Daily := Daily f; MaxDays := MaxDays f;
     dailyOpenDate := day; Rotate := Rotate f; Level := Level f;
     fileNameOnly := fileNameOnly f; fileSuffix := fileSuffix f |}.

Definition createLogFile (f : fileLogWriter) (w : World) : Result nat * World :=
  OpenFile (Filename f) w.

Definition initFd (f : fileLogWriter) (w : World) : error * fileLogWriter * World :=
  match Stat (fileWriter f) w with
  | (Fail e, w1) => (Some e, f, w1)
  | (Done fInfo, w1) =>
      (None, set_counters (Size fInfo) (time.Day (now w1)) f, w1)
  end.

Definition startLogging (f : fileLogWriter) (w : World) : error * fileLogWriter * World :=
  match createLogFile f w with
  | (Fail e, w1) => (Some e, f, w1)
  | (Done file, w1) =>
      let w2 := match fileWriter f with
                | Some _ => (Close (fileWriter f) w1).2
                | None => w1
                end in
      initFd (set_fileWriter (Some file) f) w2
  end.

Definition Init (config : string) (f : fileLogWriter) (w : World)
  : error * fileLogWriter * World :=
  match unmarshal_file config (exported f) with
  | (j, Some e) => (Some e, set_exported j f, w)
  | (j, None) =>
      let f1 := set_exported j f in
      if (len (Filename f1) =? 0) then (Some "json config must have filename", f1, w)
      else
        let suffix := filepath.Ext (Filename f1) in
        let only := strings.TrimSuffix (Filename f1) suffix in
        let f2 := set_names only (if String.eqb suffix "" then ".log" else suffix) f1 in
        startLogging f2 w
  end.

Definition needRotate (f : fileLogWriter) (size day : Z) : bool :=
  ((0 <? MaxSize f) && (MaxSize f <=? maxSizeCurSize f))
  || (Daily f && negb (day =? dailyOpenDate f)).

(** [fileNameOnly + Sprintf("_%s_%03d%s", date, num, fileSuffix)] *)
Definition sizeName (f : fileLogWriter) (logTime : time.Time) (num : Z) : string :=
  fileNameOnly f +:+ "_" +:+ time.Format logTime "2006-01-02" +:+ "_"
    +:+ strconv.pad 3 (Z.to_nat num) +:+ fileSuffix f.

(** [Sprintf("%s_%s%s", fileNameOnly, date, fileSuffix)] *)
Definition dayName (f : fileLogWriter) (logTime : time.Time) : string :=
  fileNameOnly f +:+ "_" +:+ time.Format logTime "2006-01-02" +:+ fileSuffix f.

(** The loop [for ; err == nil && num <= 999; num++] of [doRotate];
    [errNil] is [err == nil].  It runs at most 999 times, which is the
    fuel it is given. *)
Fixpoint probe (fuel : nat) (f : fileLogWriter) (logTime : time.Time)
    (num : Z) (fName : string) (errNil : bool) (w : World)
  : Z * string * bool * World :=
  if errNil && (num <=? 999) then
    match fuel with
    | O => (num, fName, errNil, w)
    | S fuel' =>
        let fName' := sizeName f logTime num in
        match Lstat fName' w with
        | (Done _, w1) => probe fuel' f logTime (num + 1) fName' true w1
        | (Fail _, w1) => probe fuel' f logTime (num + 1) fName' false w1
        end
    end
  else (num, fName, errNil, w).

(** The bound of that loop, as its fuel. *)
Definition probes : nat := 999.

(** [doRotate], the choice of the name: [fName] and whether [err == nil]
    after the last [os.Lstat]. *)
Definition pickName (f : fileLogWriter) (logTime : time.Time) (w : World)
  : string * bool * World :=
  if 0 <? MaxSize f then
    let '(_, fName, errNil, w2) := probe probes f logTime 1 "" true w in
    (fName, errNil, w2)
  else
    let fName := dayName f logTime in
    match Lstat fName w with
    | (Done _, w2) => (fName, true, w2)
    | (Fail _, w2) => (fName, false, w2)
    end.

(** [doRotate], from [f.fileWriter.Close()] on. *)
Definition swapFile (f : fileLogWriter) (fName : string) (w : World)
  : error * fileLogWriter * World :=
  let w3 := (Close (fileWriter f) w).2 in
  match Rename (Filename f) fName w3 with
  | (Some e, w4) => (Some ("Rotate: rename error " +:+ e), f, w4)
  | (None, w4) =>
      match startLogging f w4 with
      | (Some e, f5, w5) => (Some ("Rotate: startLogging error " +:+ e), f5, w5)
      | (None, f5, w5) =>
          (None, f5, with_goroutines (goroutines w5 ++ [f5]) w5)
      end
  end.

Definition doRotate (f : fileLogWriter) (logTime : time.Time) (w : World)
  : error * fileLogWriter * World :=
  match Lstat (Filename f) w with
  | (Fail e, w1) => (Some e, f, w1)
  | (Done _, w1) =>
      let '(fName, errNil, w2) := pickName f logTime w1 in
      if errNil then
        (Some ("Rotate: can not find free log number to rename " +:+ Filename f +:+ nl), f, w2)
      else swapFile f fName w2
  end.

(** The function [deleteOldLog] hands to [filepath.Walk].  [info] is
    [None] where Walk's lstat failed: [info.IsDir()] then panics on the
    nil interface and the deferred [recover] reports it. *)
Definition deleteOldLogFn (f : fileLogWriter) (path : string)
    (info : option FileInfo) (w : World) : World :=
  match info with
  | None =>
      Print Stderr ("Unable to delete old log " +:+ path
                    +:+ ",error runtime error: invalid memory address or nil pointer dereference"
                    +:+ nl) w
  | Some info =>
      if negb (IsDir info)
         && (ModTime info <? wrap64 (time.Unix (now w) - wrap64 (60 * 60 * 24 * MaxDays f)))
      then
        if strings.HasPrefix (filepath.Base path) (fileNameOnly f)
           && strings.HasSuffix (filepath.Base path) (fileSuffix f)
        then (Remove path w).2
        else w
      else w
  end.

(** One call of the walk function, on what Walk's lstat finds at [path]. *)
Definition visit (fn : string -> option FileInfo -> World -> World)
    (path : string) (w : World) : World :=
  fn path (info_of <$> node path w) w.

(** [filepath.Walk] with a function that never returns an error: the
    root and, when it is a directory, every name below it.  Walk's own
    lstat and directory reads fail only where the entry is gone.  The
    names are those the tree had when the walk began; the order of the
    visit is the map's, which is of no consequence for a function that
    only removes the file it is called on. *)
Definition Walk (root : string)
    (fn : string -> option FileInfo -> World -> World) (w : World) : World :=
  let below := filter (fun p => filepath.under root p = true)
                      (map fst (map_to_list (names w))) in
  match node root w with
  | Some nd =>
      let w1 := visit fn root w in
      if i_dir nd then foldl (fun w' p => visit fn p w') w1 below else w1
  | None => visit fn root w
  end.

Definition deleteOldLog (f : fileLogWriter) (w : World) : World :=
  if MaxDays f <=? 0 then w
  else Walk (filepath.Dir (Filename f)) (deleteOldLogFn f) w.

Definition WriteMsg (f : fileLogWriter) (when : time.Time) (msg : string)
    (level : Z) (w : World) : error * fileLogWriter * World :=
  if Level f <? level then (None, f, w)
  else
    let msg := time.Format when stampLayout +:+ msg +:+ nl in
    let '(f1, w1) :=
      if Rotate f && needRotate f (len msg) (time.Day when) then
        match doRotate f when w with
        | (Some e, f1, w1) =>
            (f1, Print Stderr ("FileLogAppender " +:+ quoted (Filename f1) +:+ ":"
                               +:+ e +:+ nl) w1)
        | (None, f1, w1) => (f1, w1)
        end
      else (f, w) in
    match Write (fileWriter f1) msg w1 with
    | (Done _, w2) =>
        (None, set_counters (wrap64 (maxSizeCurSize f1 + len msg)) (dailyOpenDate f1) f1, w2)
    | (Fail e, w2) => (Some e, f1, w2)
    end.

Definition Flush (f : fileLogWriter) (w : World) : World :=
  Sync (fileWriter f) w.

Definition Destroy (f : fileLogWriter) (w : World) : World :=
  (Close (fileWriter f) w).2.

End FileAppender.
End file.

(** ** logutils.go and console.go *)
Module console.
Section Console.
Context `{rt : Runtime}.
Import os.

Record logWriter := { writer : Stream }.

Definition newLogWriter (wr : Stream) : logWriter := {| writer := wr |}.

Definition println (lg : logWriter) (when : time.Time) (msg : string)
    (w : World) : World :=
  let str := time.Format when stampLayout in
  let str := str +:+ msg +:+ nl in
  Print (writer lg) str w.

Definition brush := string -> string.

Definition esc : string := String (ascii_of_nat 27) "".

Definition newBrush (color : string) : brush :=
  let pre := esc +:+ "[" in
  let reset := esc +:+ "[0m" in
  fun text => pre +:+ color +:+ "m" +:+ text +:+ reset.

Definition colors : list brush :=
  [ newBrush "1;35";   (* LevelFatal *)
    newBrush "1;31";   (* LevelError *)
    newBrush "1;33";   (* LevelWarn *)
    newBrush "1;34";   (* LevelInfo *)
    newBrush "1;34" ]. (* LevelDebug *)

Record consoleWriter := {
  lg : logWriter;
  Level : Z;
  Colorful : bool
}.

Definition newConsoleAppender : consoleWriter :=
  {| lg := newLogWriter Stdout; Level := 4; Colorful := negb GOOS_windows |}.

Definition Init (config : string) (c : consoleWriter) : error * consoleWriter :=
  if len config =? 0 then (None, c)
  else
    let '((lv, col), err) := unmarshal_console config (Level c, Colorful c) in
    (err, {| lg := lg c; Level := lv;
             Colorful := if GOOS_windows then false else col |}).

(** [colors[level]] panics when the index is out of range. *)
Definition WriteMsg (c : consoleWriter) (when : time.Time) (msg : string)
    (level : Z) (w : World) : Res (error * World) :=
  if Level c <? level then Ok (None, w)
  else if Colorful c then
    if level <? 0 then Panic IndexOutOfRange
    else match colors !! Z.to_nat level with
         | Some paint => Ok (None, println (lg c) when (paint msg) w)
         | None => Panic IndexOutOfRange
         end
  else Ok (None, println (lg c) when msg w).

Definition Flush (c : consoleWriter) (w : World) : World := w.

Definition Destroy (c : consoleWriter) (w : World) : World := w.

End Console.
End console.

(** ** logg.go *)
Module logg.
Section Logger.
Context `{rt : Runtime}.
Import os.

Definition defautChannelBuffer : Z := 128.

Definition LevelFatal : Z := 0.
Definition LevelError : Z := 1.
Definition LevelWarn : Z := 2.
Definition LevelInfo : Z := 3.
Definition LevelDebug : Z := 4.

(** The interface [Appender], over the two implementations the package
    has. *)
Inductive Appender :=
  | Console (c : console.consoleWriter)
  | File (f : fileLogWriter).

Definition Appender_Init (config : string) (a : Appender) (w : World)
  : error * Appender * World :=
  match a with
  | Console c => let '(e, c') := console.Init config c in (e, Console c', w)
  | File f => let '(e, f', w') := file.Init config f w in (e, File f', w')
  end.

Definition Appender_WriteMsg (a : Appender) (when : time.Time) (msg : string)
    (level : Z) (w : World) : Res (error * Appender * World) :=
  match a with
  | Console c =>
      r <-- console.WriteMsg c when msg level w;;
      Ok (r.1, Console c, r.2)
  | File f =>
      let '(e, f', w') := file.WriteMsg f when msg level w in Ok (e, File f', w')
  end.

Definition Appender_Destroy (a : Appender) (w : World) : World :=
  match a with
  | Console c => console.Destroy c w
  | File f => file.Destroy f w
  end.

Definition Appender_Flush (a : Appender) (w : World) : World :=
  match a with
  | Console c => console.Flush c w
  | File f => file.Flush f w
  end.

Definition createAppender := unit -> Appender.

(** [appenderMap], the process-wide table of constructors. *)
Definition RegisterAppender (name : string) (appender : option createAppender)
    (appenderMap : gmap string createAppender) : Res (gmap string createAppender) :=
  match appender with
  | None => Panic NilAppender
  | Some mk =>
      match appenderMap !! name with
      | Some _ => Panic DuplicateAppender
      | None => Ok (<[name := mk]> appenderMap)
      end
  end.

Definition newConsoleAppender : createAppender :=
  fun _ => Console console.newConsoleAppender.
Definition newFileAppender : createAppender :=
  fun _ => File file.newFileAppender.

(** The table once the [init] functions of console.go and
    file_appender.go have run. *)
Definition initAppenderMap : Res (gmap string createAppender) :=
  m <-- RegisterAppender "console" (Some newConsoleAppender) ∅;;
  RegisterAppender "file" (Some newFileAppender) m.

Record nameAppender := {
  appender : Appender;
  name : string
}.

Record logMsg := {
  lm_level : Z;
  lm_msg : string;
  lm_when : time.Time
}.

(** A channel: its capacity, what it buffers, whether it was closed. *)
Record chan (A : Type) := {
  cap : nat;
  queue : list A;
  closed : bool
}.
Arguments cap {A} c.
Arguments queue {A} c.
Arguments closed {A} c.

Definition make {A} (n : nat) : chan A := {| cap := n; queue := []; closed := false |}.

Definition with_queue {A} (q : list A) (c : chan A) : chan A :=
  {| cap := cap c; queue := q; closed := closed c |}.

(** [close(c)] *)
Definition close {A} (c : chan A) : Res (chan A) :=
  if closed c then Panic CloseOfClosedChannel
  else Ok {| cap := cap c; queue := queue c; closed := true |}.

(** [lock] has no counterpart: each method runs to its next blocking
    point in one step.  [logMsgPool] is whether the pool was allocated,
    [wg] the counter of the WaitGroup. *)
Record BaseLogger := {
  level : Z;
  enableFuncCallDepth : bool;
  loggerFuncCallDepth : Z;
  msgChan : chan logMsg;
  appenders : list nameAppender;
  async : bool;
  logMsgPool : bool;
  singalChan : chan string;
  wg : Z
}.

Definition set_level (l : Z) (log : BaseLogger) : BaseLogger :=
  {| level := l; enableFuncCallDepth := enableFuncCallDepth log;
     loggerFuncCallDepth := loggerFuncCallDepth log; msgChan := msgChan log;
     appenders := appenders log; async := async log; logMsgPool := logMsgPool log;
     singalChan := singalChan log; wg := wg log |}.
Definition set_enableFuncCallDepth (d : bool) (log : BaseLogger) : BaseLogger :=
  {| level := level log; enableFuncCallDepth := d;
     loggerFuncCallDepth := loggerFuncCallDepth log; msgChan := msgChan log;
     appenders := appenders log; async := async log; logMsgPool := logMsgPool log;
     singalChan := singalChan log; wg := wg log |}.
Definition set_loggerFuncCallDepth (d : Z) (log : BaseLogger) : BaseLogger :=
  {| level := level log; enableFuncCallDepth := enableFuncCallDepth log;
     loggerFuncCallDepth := d; msgChan := msgChan log;
     appenders := appenders log; async := async log; logMsgPool := logMsgPool log;
     singalChan := singalChan log; wg := wg log |}.
Definition set_msgChan (c : chan logMsg) (log : BaseLogger) : BaseLogger :=
  {| level := level log; enableFuncCallDepth := enableFuncCallDepth log;
     loggerFuncCallDepth := loggerFuncCallDepth log; msgChan := c;
     appenders := appenders log; async := async log; logMsgPool := logMsgPool log;
     singalChan := singalChan log; wg := wg log |}.
Definition set_appenders (l : list nameAppender) (log : BaseLogger) : BaseLogger :=
  {| level := level log; enableFuncCallDepth := enableFuncCallDepth log;
     loggerFuncCallDepth := loggerFuncCallDepth log; msgChan := msgChan log;
     appenders := l; async := async log; logMsgPool := logMsgPool log;
     singalChan := singalChan log; wg := wg log |}.
Definition set_singalChan (c : chan string) (log : BaseLogger) : BaseLogger :=
  {| level := level log; enableFuncCallDepth := enableFuncCallDepth log;
     loggerFuncCallDepth := loggerFuncCallDepth log; msgChan := msgChan log;
     appenders := appenders log; async := async log; logMsgPool := logMsgPool log;
     singalChan := c; wg := wg log |}.
Definition set_wg (n : Z) (log : BaseLogger) : BaseLogger :=
  {| level := level log; enableFuncCallDepth := enableFuncCallDepth log;
     loggerFuncCallDepth := loggerFuncCallDepth log; msgChan := msgChan log;
     appenders := appenders log; async := async log; logMsgPool := logMsgPool log;
     singalChan := singalChan log; wg := n |}.


Definition SetAppender (appenderMap : gmap string createAppender)
    (log : BaseLogger) (appenderName config : string) (w : World)
  : error * BaseLogger * World :=
  if String.eqb appenderName "console"
     && existsb (fun a => String.eqb (name a) appenderName) (appenders log)
  then (Some ("logg:duplicate appenderName " +:+ appenderName
              +:+ " (you have set this appender before)"), log, w)
  else
    match appenderMap !! appenderName with
    | None => (Some ("logg:unknow appenderName " +:+ appenderName
                     +:+ " (forgotten RegisterAppender?)"), log, w)
    | Some mk =>
        let out := mk tt in
        let i := length (appenders log) in
        let w0 := called (CInvoke (MInit config)) (with_actor (Some i) w) in
        let '(err, out', w1) := Appender_Init config out w0 in
        let w2 := with_actor None w1 in
        match err with
        | Some e => (Some ("logg: appender init error " +:+ e), log, w2)
        | None =>
            (None,
             set_appenders (appenders log ++ [{| appender := out'; name := appenderName |}]) log,
             w2)
        end
    end.

(** The loop of [writeToAppender] from position [i] of the list on.  The
    appenders are pointers: what [WriteMsg] changes in one stays in the
    list. *)
Fixpoint fanOut (i : nat) (outs : list nameAppender) (when : time.Time)
    (msg : string) (level : Z) (w : World) : Res (list nameAppender * World) :=
  match outs with
  | [] => Ok ([], w)
  | out :: rest =>
      let w0 := called (CInvoke (MWriteMsg when msg level)) (with_actor (Some i) w) in
      r <-- Appender_WriteMsg (appender out) when msg level w0;;
      let '(err, a', w1) := r in
      let w2 := with_actor None w1 in
      let w3 := match err with
                | Some e => Print Stderr ("unable to WriteMsg to appender:" +:+ name out
                                          +:+ ",error:" +:+ e +:+ nl) w2
                | None => w2
                end in
      r' <-- fanOut (S i) rest when msg level w3;;
      Ok ({| appender := a'; name := name out |} :: r'.1, r'.2)
  end.

Definition writeToAppender (log : BaseLogger) (when : time.Time) (msg : string)
    (level : Z) (w : World) : Res (BaseLogger * World) :=
  r <-- fanOut 0 (appenders log) when msg level w;;
  Ok (set_appenders r.1 log, r.2).

Definition SetLevel (log : BaseLogger) (l : Z) : BaseLogger := set_level l log.
Definition Level (log : BaseLogger) : Z := level log.
Definition SetLogFuncCallDepth (log : BaseLogger) (d : Z) : BaseLogger :=
  set_loggerFuncCallDepth d log.
Definition EnableFuncCallDepath (log : BaseLogger) (d : bool) : BaseLogger :=
  set_enableFuncCallDepth d log.

(** *** Methods that may block

    A method that sends on a channel or waits for the WaitGroup runs up
    to its first blocking statement, and leaves the rest as a list of
    [Action]s, each of which is one statement that may block (or the
    statements after it that do not). *)
Inductive Action :=
  | ASendMsg (m : logMsg)          (* log.msgChan <- m *)
  | ASendSignal (sg : string)      (* log.singalChan <- sg *)
  | AWait                          (* log.wg.Wait() *)
  | AAdd (n : Z)                   (* log.wg.Add(n) *)
  | ACloseChans.                   (* close(log.msgChan); close(log.singalChan) *)

Definition Returns := Res (BaseLogger * World * list Action).

(** [_, filename := path.Split(file)] *)
Definition splitFile (file : string) : string :=
  filepath.tail_from (filepath.last_sep file (String.length file)) file.

(** The caller's position goes in after the tag; [msg[0:3]] panics on a
    shorter message. *)
Definition withCaller (log : BaseLogger) (msg : string) (w : World) : Res string :=
  if enableFuncCallDepth log then
    let '(file, line) := match callers w (loggerFuncCallDepth log) with
                         | Some fl => fl
                         | None => ("???", 0)
                         end in
    if len msg <? 3 then Panic IndexOutOfRange
    else Ok (String.substring 0 3 msg +:+ "[" +:+ splitFile file +:+ ":"
             +:+ strconv.FormatInt line +:+ "]" +:+ filepath.tail_from 3 msg)
  else Ok msg.

Definition writeMsg (log : BaseLogger) (level : Z) (msg : string) (w : World) : Returns :=
  let when := now w in
  msg <-- withCaller log msg w;;
  if async log then
    if logMsgPool log then
      Ok (log, w, [ASendMsg {| lm_level := level; lm_msg := msg; lm_when := when |}])
    else Panic NilDereference
  else
    r <-- writeToAppender log when msg level w;;
    Ok (r.1, r.2, []).

(** The five leveled methods differ in their level and tag only;
    [text] is what [Sprintf(format, v...)] makes of the arguments. *)
Definition logAt (lv : Z) (tag : string) (log : BaseLogger) (text : string)
    (w : World) : Returns :=
  if level log <? lv then Ok (log, w, [])
  else writeMsg log lv (tag +:+ text) w.

Definition Fatal := logAt LevelFatal "[F] ".
Definition Error := logAt LevelError "[E] ".
Definition Warn := logAt LevelWarn "[W] ".
Definition Info := logAt LevelInfo "[I] ".
Definition Debug := logAt LevelDebug "[D] ".

(** [logMsgPool.Put(m)] on a pool that was never allocated. *)
Definition poolPut (log : BaseLogger) : Res unit :=
  if logMsgPool log then Ok tt else Panic NilDereference.

(** The first loop of [flush]: while the channel holds a message, take
    it and write it out. *)
Fixpoint drain (q : list logMsg) (log : BaseLogger) (w : World)
  : Res (BaseLogger * World) :=
  match q with
  | [] => Ok (log, w)
  | m :: q' =>
      let log0 := set_msgChan (with_queue q' (msgChan log)) log in
      r <-- writeToAppender log0 (lm_when m) (lm_msg m) (lm_level m) w;;
      _ <-- poolPut r.1;;
      drain q' r.1 r.2
  end.

(** [for _, out := range outs { out.Flush() }] from position [i] on *)
Fixpoint flushAll (i : nat) (outs : list nameAppender) (w : World) : World :=
  match outs with
  | [] => w
  | out :: rest =>
      let w0 := called (CInvoke MFlush) (with_actor (Some i) w) in
      flushAll (S i) rest (with_actor None (Appender_Flush (appender out) w0))
  end.

(** [for _, out := range outs { out.Destroy() }] from position [i] on *)
Fixpoint destroyAll (i : nat) (outs : list nameAppender) (w : World) : World :=
  match outs with
  | [] => w
  | out :: rest =>
      let w0 := called (CInvoke MDestroy) (with_actor (Some i) w) in
      destroyAll (S i) rest (with_actor None (Appender_Destroy (appender out) w0))
  end.

Definition flush (log : BaseLogger) (w : World) : Res (BaseLogger * World) :=
  r <-- drain (queue (msgChan log)) log w;;
  Ok (r.1, flushAll 0 (appenders r.1) r.2).

Definition wgAdd (n : Z) (log : BaseLogger) : Res BaseLogger :=
  if wg log + n <? 0 then Panic NegativeWaitGroup else Ok (set_wg (wg log + n) log).

Definition closeChans (log : BaseLogger) : Res BaseLogger :=
  c1 <-- close (msgChan log);;
  let log1 := set_msgChan c1 log in
  c2 <-- close (singalChan log1);;
  Ok (set_singalChan c2 log1).

Definition Flush (log : BaseLogger) (w : World) : Returns :=
  if async log then Ok (log, w, [ASendSignal "flush"; AWait; AAdd 1])
  else r <-- flush log w;; Ok (r.1, r.2, []).

Definition Close (log : BaseLogger) (w : World) : Returns :=
  if async log then Ok (log, w, [ASendSignal "close"; AWait; ACloseChans])
  else
    r <-- flush log w;;
    let w1 := destroyAll 0 (appenders r.1) r.2 in
    log2 <-- closeChans (set_appenders [] r.1);;
    Ok (log2, w1, []).

(** [Async]: the caller's part; the goroutine it starts is [startLogging]. *)
Definition Async (log : BaseLogger) : Res BaseLogger :=
  wgAdd 1 {| level := level log; enableFuncCallDepth := enableFuncCallDepth log;
             loggerFuncCallDepth := loggerFuncCallDepth log; msgChan := msgChan log;
             appenders := appenders log; async := true; logMsgPool := true;
             singalChan := singalChan log; wg := wg log |}.

(** *** The goroutine [startLogging]

    One turn of its loop is one of the two cases of the [select].  A
    case is ready when its channel holds a value or is closed (a closed
    channel yields the zero value: a nil message, the empty string). *)
Definition caseMsg (log : BaseLogger) (w : World) : option (Res (BaseLogger * World)) :=
  match queue (msgChan log) with
  | m :: q' =>
      let log0 := set_msgChan (with_queue q' (msgChan log)) log in
      Some (r <-- writeToAppender log0 (lm_when m) (lm_msg m) (lm_level m) w;;
            _ <-- poolPut r.1;;
            Ok r)
  | [] => if closed (msgChan log) then Some (Panic NilDereference) else None
  end.

(** What follows the receipt of [sg]; the boolean is [gameOver]. *)
Definition onSignal (sg : string) (log : BaseLogger) (w : World)
  : Res (BaseLogger * World * bool) :=
  r <-- flush log w;;
  let '(log1, w1, gameOver) :=
    if String.eqb sg "close"
    then (set_appenders [] r.1, destroyAll 0 (appenders r.1) r.2, true)
    else (r.1, r.2, false) in
  log2 <-- wgAdd (-1) log1;;
  Ok (log2, w1, gameOver).

Definition caseSignal (log : BaseLogger) (w : World)
  : option (Res (BaseLogger * World * bool)) :=
  match queue (singalChan log) with
  | sg :: q' =>
      Some (onSignal sg (set_singalChan (with_queue q' (singalChan log)) log) w)
  | [] => if closed (singalChan log) then Some (onSignal "" log w) else None
  end.

(** *** The process: one goroutine that calls the logger, and the
    goroutines the logger starts

    [script] is what the caller has still to call, [pending] what is
    left of the call it is in, [workers] the number of [startLogging]
    goroutines that have not returned. *)
Inductive Op :=
  | OpFatal (text : string)
  | OpError (text : string)
  | OpWarn (text : string)
  | OpInfo (text : string)
  | OpDebug (text : string)
  | OpFlush
  | OpClose
  | OpSetLevel (l : Z)
  | OpEnableFuncCallDepath (d : bool)
  | OpSetLogFuncCallDepth (d : Z)
  | OpAsync
  | OpSetAppender (appenderName config : string).

Record Sys := {
  log : BaseLogger;
  world : World;
  script : list Op;
  pending : list Action;
  workers : nat;
  appenderMap : gmap string createAppender
}.

Inductive Outcome :=
  | Next (s : Sys)
  | Crash (p : PanicKind).

Definition outcome (s : Sys) (script' : list Op) (nworkers : nat)
    (r : Returns) : Outcome :=
  match r with
  | Ok (log', w', acts) =>
      Next {| log := log'; world := w'; script := script'; pending := acts;
              workers := nworkers; appenderMap := appenderMap s |}
  | Panic p => Crash p
  end.

(** The caller enters its next method. *)
Definition enter (op : Op) (rest : list Op) (s : Sys) : Outcome :=
  let l := log s in
  let w := world s in
  match op with
  | OpFatal text => outcome s rest (workers s) (Fatal l text w)
  | OpError text => outcome s rest (workers s) (Error l text w)
  | OpWarn text => outcome s rest (workers s) (Warn l text w)
  | OpInfo text => outcome s rest (workers s) (Info l text w)
  | OpDebug text => outcome s rest (workers s) (Debug l text w)
  | OpFlush => outcome s rest (workers s) (Flush l w)
  | OpClose => outcome s rest (workers s) (Close l w)
  | OpSetLevel lv => outcome s rest (workers s) (Ok (SetLevel l lv, w, []))
  | OpEnableFuncCallDepath d =>
      outcome s rest (workers s) (Ok (EnableFuncCallDepath l d, w, []))
  | OpSetLogFuncCallDepth d =>
      outcome s rest (workers s) (Ok (SetLogFuncCallDepth l d, w, []))
  | OpAsync =>
      outcome s rest (S (workers s)) (l' <-- Async l;; Ok (l', w, []))
  | OpSetAppender n config =>
      let '(_, l', w') := SetAppender (appenderMap s) l n config w in
      outcome s rest (workers s) (Ok (l', w', []))
  end.

Definition sent (m : logMsg) (w : World) : World :=
  called (CSend (lm_when m) (lm_msg m) (lm_level m)) w.

(** One blocking statement of the caller; [None] while it has to wait.
    A send on a channel without buffer goes through when a goroutine is
    at the [select] to receive it, which then handles the message. *)
Definition perform (a : Action) (nworkers : nat) (l : BaseLogger) (w : World)
  : option (Res (BaseLogger * World)) :=
  match a with
  | ASendMsg m =>
      let c := msgChan l in
      if closed c then Some (Panic SendOnClosedChannel)
      else if (length (queue c) <? cap c)%nat then
        Some (Ok (set_msgChan (with_queue (queue c ++ [m]) c) l, sent m w))
      else if (cap c =? 0)%nat && (0 <? nworkers)%nat then
        Some (r <-- writeToAppender l (lm_when m) (lm_msg m) (lm_level m) (sent m w);;
              _ <-- poolPut r.1;;
              Ok r)
      else None
  | ASendSignal sg =>
      let c := singalChan l in
      if closed c then Some (Panic SendOnClosedChannel)
      else if (length (queue c) <? cap c)%nat then
        Some (Ok (set_singalChan (with_queue (queue c ++ [sg]) c) l, w))
      else None
  | AWait => if wg l =? 0 then Some (Ok (l, w)) else None
  | AAdd n => Some (l' <-- wgAdd n l;; Ok (l', w))
  | ACloseChans => Some (l' <-- closeChans l;; Ok (l', w))
  end.

Inductive Move :=
  | MCaller                      (* the caller's next statement *)
  | MCaseMsg                     (* startLogging: case msg := <-log.msgChan *)
  | MCaseSignal                  (* startLogging: case sg := <-log.singalChan *)
  | MClock (t : time.Time)       (* time passes *)
  | MSweep.                      (* a pending deleteOldLog runs *)

(** [None]: the move is not enabled in [s]. *)
Definition move (mv : Move) (s : Sys) : option Outcome :=
  match mv with
  | MCaller =>
      match pending s with
      | a :: acts =>
          match perform a (workers s) (log s) (world s) with
          | Some (Ok (l', w')) =>
              Some (Next {| log := l'; world := w'; script := script s; pending := acts;
                            workers := workers s; appenderMap := appenderMap s |})
          | Some (Panic p) => Some (Crash p)
          | None => None
          end
      | [] =>
          match script s with
          | op :: rest => Some (enter op rest s)
          | [] => None
          end
      end
  | MCaseMsg =>
      if (0 <? workers s)%nat then
        match caseMsg (log s) (world s) with
        | Some (Ok (l', w')) =>
            Some (Next {| log := l'; world := w'; script := script s;
                          pending := pending s; workers := workers s;
                          appenderMap := appenderMap s |})
        | Some (Panic p) => Some (Crash p)
        | None => None
        end
      else None
  | MCaseSignal =>
      if (0 <? workers s)%nat then
        match caseSignal (log s) (world s) with
        | Some (Ok (l', w', gameOver)) =>
            Some (Next {| log := l'; world := w'; script := script s;
                          pending := pending s;
                          workers := if gameOver then pred (workers s) else workers s;
                          appenderMap := appenderMap s |})
        | Some (Panic p) => Some (Crash p)
        | None => None
        end
      else None
  | MClock t =>
      Some (Next {| log := log s; world := with_now t (world s); script := script s;
                    pending := pending s; workers := workers s;
                    appenderMap := appenderMap s |})
  | MSweep =>
      match goroutines (world s) with
      | f :: rest =>
          Some (Next {| log := log s;
                        world := file.deleteOldLog f (with_goroutines rest (world s));
                        script := script s; pending := pending s;
                        workers := workers s; appenderMap := appenderMap s |})
      | [] => None
      end
  end.

(** A schedule is the list of moves the process makes; a move that is
    not enabled when its turn comes is passed over. *)
Fixpoint run (schedule : list Move) (s : Sys) : Outcome :=
  match schedule with
  | [] => Next s
  | mv :: rest =>
      match move mv s with
      | Some (Next s') => run rest s'
      | Some (Crash p) => Crash p
      | None => run rest s
      end
  end.

End Logger.
Arguments cap {A} c.
Arguments queue {A} c.
Arguments closed {A} c.
End logg.

(** ** What the properties speak of *)
Module obs.
Import os.

(** The file appender goes into [doRotate], whose first statement is the
    [os.Lstat] of the live file, before anything else it does in [w]. *)
Definition attempts_rotation (f : fileLogWriter) (w w' : World) : Prop :=
  exists rest, trace w' = trace w ++ (actor w, CLstat (Filename f)) :: rest.

(** The open file of [f] takes a write: it is open, its inode is there
    and the system does not refuse. *)
Definition writable (f : fileLogWriter) (w : World) : Prop :=
  exists h ino nd, fileWriter f = Some h /\ live (Some h) w = Some ino
                   /\ inodes w !! ino = Some nd
                   /\ forall b, refuses w (CWrite h b) = false.

(** The line the file appender makes of a message. *)
Definition fileLine (when : time.Time) (msg : string) : string :=
  time.Format when stampLayout +:+ msg +:+ nl.

(** The condition of [needRotate], spelt out. *)
Definition rotation_due (f : fileLogWriter) (day : Z) : Prop :=
  (0 < MaxSize f /\ MaxSize f <= maxSizeCurSize f)
  \/ (Daily f = true /\ day <> dailyOpenDate f).

(** The configuration of a file appender: what [Init] sets and no other
    method changes. *)
Definition same_config (f f' : fileLogWriter) : Prop :=
  Filename f' = Filename f /\ MaxSize f' = MaxSize f /\ Daily f' = Daily f
  /\ MaxDays f' = MaxDays f /\ Rotate f' = Rotate f /\ Level f' = Level f
  /\ fileNameOnly f' = fileNameOnly f /\ fileSuffix f' = fileSuffix f.

(** The write step of [WriteMsg], on the handle [f] has by then. *)
Definition writeStep (f : fileLogWriter) (line : string) (w : World)
  : error * fileLogWriter * World :=
  match Write (fileWriter f) line w with
  | (Done _, w2) =>
      (None, file.set_counters (wrap64 (maxSizeCurSize f + len line)) (dailyOpenDate f) f, w2)
  | (Fail e, w2) => (Some e, f, w2)
  end.

(** What [WriteMsg] does with the result of [doRotate]. *)
Definition reportRotate (r : error * fileLogWriter * World) : fileLogWriter * World :=
  match r with
  | (Some e, f1, w1) =>
      (f1, Print Stderr ("FileLogAppender " +:+ quoted (Filename f1) +:+ ":" +:+ e +:+ nl) w1)
  | (None, f1, w1) => (f1, w1)
  end.

(** The system refuses nothing. *)
Definition obliging (w : World) : Prop := forall c, refuses w c = false.

(** [w'] has the names, inodes and open files of [w]. *)
Definition same_disk (w w' : World) : Prop :=
  names w' = names w /\ inodes w' = inodes w /\ files w' = files w
  /\ goroutines w' = goroutines w.

(** [YYYY-MM-DD] *)
Definition date (t : time.Time) : string :=
  strconv.pad 4 (time.year t) +:+ "-" +:+ strconv.pad 2 (time.month t) +:+ "-"
    +:+ strconv.pad 2 (time.day t).

(** The names a rotated file gets: [<base>_<YYYY-MM-DD>_<NNN><ext>] and
    [<base>_<YYYY-MM-DD><ext>]. *)
Definition sizeArchive (f : fileLogWriter) (t : time.Time) (n : nat) : string :=
  fileNameOnly f +:+ "_" +:+ date t +:+ "_" +:+ strconv.pad 3 n +:+ fileSuffix f.

Definition dayArchive (f : fileLogWriter) (t : time.Time) : string :=
  fileNameOnly f +:+ "_" +:+ date t +:+ fileSuffix f.

(** [archive_name f t w fName]: with a size limit, [fName] has the first
    number from 1 to 999 that names nothing in [w]; without one, it is the
    dated name, which names nothing. *)
Inductive archive_name (f : fileLogWriter) (t : time.Time) (w : World) : string -> Prop :=
  | by_size (n : nat) :
      0 < MaxSize f -> (1 <= n <= 999)%nat ->
      (forall k, (1 <= k < n)%nat -> is_Some (node (sizeArchive f t k) w)) ->
      node (sizeArchive f t n) w = None ->
      archive_name f t w (sizeArchive f t n)
  | by_day :
      MaxSize f <= 0 -> node (dayArchive f t) w = None ->
      archive_name f t w (dayArchive f t).

(** No name is left: all 999 numbers are taken, or the dated name is. *)
Definition no_archive_name (f : fileLogWriter) (t : time.Time) (w : World) : Prop :=
  (0 < MaxSize f
   /\ forall k, (1 <= k <= 999)%nat -> is_Some (node (sizeArchive f t k) w))
  \/ (MaxSize f <= 0 /\ is_Some (node (dayArchive f t) w)).

(** The three ways a rotation fails once the live file is found: no name
    is left for the archive, the system refuses the rename, or it allows
    the rename and refuses to open the configured path again. *)
Definition rotation_fails (f : fileLogWriter) (t : time.Time) (w : World) : Prop :=
  no_archive_name f t w
  \/ (exists fName, archive_name f t w fName
                    /\ refuses w (CRename (Filename f) fName) = true)
  \/ (exists fName, archive_name f t w fName
                    /\ refuses w (CRename (Filename f) fName) = false
                    /\ refuses w (COpenFile (Filename f)) = true).


(** The file [f] holds open, if any, is one of the open files of [w]. *)
Definition holds (f : fileLogWriter) (w : World) : Prop :=
  forall h, fileWriter f = Some h -> (h < length (files w))%nat.

(** An inode just made by [os.OpenFile]. *)
Definition fresh (w : World) : Inode :=
  {| i_dir := false; i_data := ""; i_mtime := time.Unix (now w) |}.

(** The outcome [r] of a rotation of [f] in [w]: no error; the inode
    [ino] of the live file, untouched, is now called [fName]; the
    configured path names a new, empty file that [f] holds open; the
    counters start again; the sweep is on its way. *)
Definition rotated_to (f : fileLogWriter) (w : World) (ino : nat) (nd : Inode)
    (fName : string) (r : error * fileLogWriter * World) : Prop :=
  let '(err, f', w') := r in
  err = None
  /\ names w' !! fName = Some ino
  /\ inodes w' !! ino = Some nd
  /\ (exists h' ino',
         fileWriter f' = Some h' /\ live (Some h') w' = Some ino'
         /\ ino' <> ino
         /\ names w' !! Filename f = Some ino'
         /\ inodes w' !! ino' = Some (fresh w))
  /\ same_config f f'
  /\ maxSizeCurSize f' = 0
  /\ dailyOpenDate f' = time.Day (now w)
  /\ goroutines w' = goroutines w ++ [f'].



(** *** The logger and its appenders *)

(** The level an appender was configured with. *)
Definition floor (a : logg.nameAppender) : Z :=
  match logg.appender a with
  | logg.Console c => console.Level c
  | logg.File f => Level f
  end.

(** An appender as its constructor and [Init] leave it: the console
    writes to standard output, the file appender has a file. *)
Definition opened (a : logg.nameAppender) : Prop :=
  match logg.appender a with
  | logg.Console c => console.writer (console.lg c) = Stdout
  | logg.File f => is_Some (fileWriter f)
  end.

(** The clock, the failures and the stack of [w'] are those of [w]. *)
Definition kept (w w' : World) : Prop :=
  now w' = now w /\ refuses w' = refuses w /\ callers w' = callers w.

(** A write to standard output or to a file: a line that is persisted. *)
Definition is_output (c : Call) : bool :=
  match c with
  | CStd Stdout _ | CWrite _ _ => true
  | _ => false
  end.

(** The calls of appender methods in a trace, with the position of the
    appender in the logger's list. *)
Definition journal (tr : list (option nat * Call)) : list (nat * Method) :=
  omap (fun e => match e with
                 | (Some i, CInvoke m) => Some (i, m)
                 | _ => None
                 end) tr.

(** The messages that went into the channel. *)
Definition sends (tr : list (option nat * Call)) : list (time.Time * string * Z) :=
  omap (fun e => match e.2 with
                 | CSend t m l => Some (t, m, l)
                 | _ => None
                 end) tr.

(** The messages appender [i] was handed. *)
Definition received (i : nat) (tr : list (option nat * Call))
  : list (time.Time * string * Z) :=
  omap (fun e => match e with
                 | (j, MWriteMsg t m l) => if decide (j = i) then Some (t, m, l) else None
                 | _ => None
                 end) (journal tr).

(** The world in which [SetAppender] calls [Init] on a new appender. *)
Definition initWorld (log : logg.BaseLogger) (config : string) (w : World) : World :=
  called (CInvoke (MInit config)) (with_actor (Some (length (logg.appenders log))) w).

(** The logger has an appender called [console]. *)
Definition console_taken (log : logg.BaseLogger) : Prop :=
  exists a, a ∈ logg.appenders log /\ logg.name a = "console".

(** The five leveled methods, each with its level. *)
Definition leveled : list ((logg.BaseLogger -> string -> World -> logg.Returns) * Z) :=
  [ (logg.Fatal, logg.LevelFatal); (logg.Error, logg.LevelError);
    (logg.Warn, logg.LevelWarn); (logg.Info, logg.LevelInfo);
    (logg.Debug, logg.LevelDebug) ].

(** A call of a leveled method: its level, its tag and its text. *)
Definition emit_parts (op : logg.Op) : option (Z * string * string) :=
  match op with
  | logg.OpFatal text => Some (logg.LevelFatal, "[F] ", text)
  | logg.OpError text => Some (logg.LevelError, "[E] ", text)
  | logg.OpWarn text => Some (logg.LevelWarn, "[W] ", text)
  | logg.OpInfo text => Some (logg.LevelInfo, "[I] ", text)
  | logg.OpDebug text => Some (logg.LevelDebug, "[D] ", text)
  | _ => None
  end.

(** The message [writeMsg] makes of [msg] for a logger with the settings
    of [log] called from the stack of [w]. *)
Definition rendering (log : logg.BaseLogger) (w : World) (msg : string) : string :=
  match logg.withCaller log msg w with
  | Ok m => m
  | Panic _ => msg
  end.

(** What the call [op] made at the instant [t] hands to each appender: the
    rendered message, when the threshold of the logger admits its level. *)
Definition admitted (log : logg.BaseLogger) (w : World) (t : time.Time) (op : logg.Op)
  : list (time.Time * string * Z) :=
  match emit_parts op with
  | Some (lv, tag, text) =>
      if lv <=? logg.level log then [(t, rendering log w (tag +:+ text), lv)] else []
  | None => []
  end.

(** [each k m]: the method [m] called on each of [k] appenders in turn. *)
Definition each (k : nat) (m : Method) : list (nat * Method) :=
  map (fun i => (i, m)) (seq 0 k).

(** The calls of [WriteMsg] that hand the messages [ms] one after the other
    to each of [k] appenders. *)
Definition handed (k : nat) (ms : list (time.Time * string * Z)) : list (nat * Method) :=
  flat_map (fun '(t, msg, lv) => each k (MWriteMsg t msg lv)) ms.

(** The caller's schedule for the calls [calls], each at its instant, and
    one more call after them: the clock is set, the call is made. *)
Definition in_turn (calls : list (time.Time * logg.Op)) : list logg.Move :=
  flat_map (fun c => [logg.MClock c.1; logg.MCaller]) calls ++ [logg.MCaller].

(** A logger that [Async] was not called on and that was not closed. *)
Definition synchronous (log : logg.BaseLogger) : Prop :=
  logg.async log = false /\ logg.queue (logg.msgChan log) = []
  /\ logg.closed (logg.msgChan log) = false
  /\ logg.closed (logg.singalChan log) = false.

(** A logger as [NewLogger] and [Async] leave it, with its goroutine at
    the [select] and nothing in the channels. *)
Definition asynchronous (log : logg.BaseLogger) : Prop :=
  logg.async log = true /\ logg.logMsgPool log = true /\ logg.wg log = 1
  /\ logg.queue (logg.msgChan log) = [] /\ logg.closed (logg.msgChan log) = false
  /\ logg.queue (logg.singalChan log) = [] /\ logg.closed (logg.singalChan log) = false
  /\ (0 < logg.cap (logg.singalChan log))%nat.

(** The process of a caller that calls [Close] and then [Close] again. *)
Definition twice (reg : gmap string logg.createAppender) (log : logg.BaseLogger)
    (w : World) : logg.Sys :=
  {| logg.log := log; logg.world := w; logg.script := [logg.OpClose; logg.OpClose];
     logg.pending := []; logg.workers := if logg.async log then 1 else 0;
     logg.appenderMap := reg |}.

(** A schedule that takes both calls as far as they go, and the panic
    the second one ends in. *)
Definition straight (log : logg.BaseLogger) : list logg.Move :=
  if logg.async log
  then [logg.MCaller; logg.MCaller; logg.MCaseSignal; logg.MCaller; logg.MCaller;
        logg.MCaller; logg.MCaller]
  else [logg.MCaller; logg.MCaller].

Definition second_Close_panic (log : logg.BaseLogger) : PanicKind :=
  if logg.async log then SendOnClosedChannel else CloseOfClosedChannel.

(** The caller is between the two calls. *)
Definition between (s : logg.Sys) : Prop :=
  logg.script s = [logg.OpClose] /\ logg.pending s = [].

(** The caller has returned from everything it had to call. *)
Definition returned (s : logg.Sys) : Prop :=
  logg.script s = [] /\ logg.pending s = [].

(** Where the process can be: what the caller has still to do, the number
    of goroutines, the counter of the WaitGroup, what the signal channel
    holds, whether it and the message channel are closed. *)
Definition Stage : Type := list logg.Op * list logg.Action * nat * Z * list string * bool * bool.

Definition stage_of (s : logg.Sys) : Stage :=
  (logg.script s, logg.pending s, logg.workers s, logg.wg (logg.log s),
   logg.queue (logg.singalChan (logg.log s)), logg.closed (logg.singalChan (logg.log s)),
   logg.closed (logg.msgChan (logg.log s))).

Definition stages_async : list Stage :=
  let rest := [logg.AWait; logg.ACloseChans] in
  [ ([logg.OpClose; logg.OpClose], [], 1%nat, 1, [], false, false);
    ([logg.OpClose], logg.ASendSignal "close" :: rest, 1%nat, 1, [], false, false);
    ([logg.OpClose], rest, 1%nat, 1, ["close"], false, false);
    ([logg.OpClose], rest, 0%nat, 0, [], false, false);
    ([logg.OpClose], [logg.ACloseChans], 0%nat, 0, [], false, false);
    ([logg.OpClose], [], 0%nat, 0, [], true, true);
    ([], logg.ASendSignal "close" :: rest, 0%nat, 0, [], true, true) ].

Definition stages_sync (n : Z) (q : list string) : list Stage :=
  [ ([logg.OpClose; logg.OpClose], [], 0%nat, n, q, false, false);
    ([logg.OpClose], [], 0%nat, n, q, true, true) ].

Definition closing (s : logg.Sys) : Prop :=
  logg.queue (logg.msgChan (logg.log s)) = []
  /\ if logg.async (logg.log s)
     then (0 < logg.cap (logg.singalChan (logg.log s)))%nat /\ stage_of s ∈ stages_async
     else stage_of s ∈ stages_sync (logg.wg (logg.log s))
                                   (logg.queue (logg.singalChan (logg.log s))).

(** A message as the trace records it. *)
Definition msg_of (m : logg.logMsg) : time.Time * string * Z :=
  (logg.lm_when m, logg.lm_msg m, logg.lm_level m).

(** The logger acts on a token: it calls [Flush] or [Destroy] on an
    appender. *)
Definition is_token (e : option nat * Call) : bool :=
  match e with
  | (Some _, CInvoke MFlush) | (Some _, CInvoke MDestroy) => true
  | _ => false
  end.

(** An event that moves no message: no send, no call of [WriteMsg]. *)
Definition calm (e : option nat * Call) : bool :=
  match e.2 with
  | CSend _ _ _ | CInvoke (MWriteMsg _ _ _) => false
  | _ => true
  end.




(** An asynchronous logger between two calls: its goroutine is at the
    [select], the WaitGroup counts one, the channels are open and no
    token is on its way. *)
Definition ready (log : logg.BaseLogger) : Prop :=
  logg.async log = true /\ logg.logMsgPool log = true /\ logg.wg log = 1
  /\ logg.closed (logg.msgChan log) = false
  /\ logg.queue (logg.singalChan log) = [] /\ logg.closed (logg.singalChan log) = false
  /\ (0 < logg.cap (logg.singalChan log))%nat.



(** The fields of [l'] that the goroutine does not touch are those of [l]. *)
Definition same_but_queue (l l' : logg.BaseLogger) : Prop :=
  logg.level l' = logg.level l
  /\ logg.enableFuncCallDepth l' = logg.enableFuncCallDepth l
  /\ logg.loggerFuncCallDepth l' = logg.loggerFuncCallDepth l
  /\ logg.async l' = logg.async l /\ logg.logMsgPool l' = logg.logMsgPool l
  /\ logg.singalChan l' = logg.singalChan l /\ logg.wg l' = logg.wg l
  /\ logg.cap (logg.msgChan l') = logg.cap (logg.msgChan l)
  /\ logg.closed (logg.msgChan l') = logg.closed (logg.msgChan l)
  /\ length (logg.appenders l') = length (logg.appenders l)
  /\ Forall opened (logg.appenders l').

(** A logger as [NewLogger] and [SetAppender] leave it: synchronous, the
    WaitGroup at 0, no token in the signal channel, which has room. *)
Definition unstarted (log : logg.BaseLogger) : Prop :=
  synchronous log /\ logg.wg log = 0 /\ logg.queue (logg.singalChan log) = []
  /\ (0 < logg.cap (logg.singalChan log))%nat.

(** The process of a caller that is to make the calls [ops] on [log], no
    goroutine started yet. *)
Definition process (reg : gmap string logg.createAppender) (log : logg.BaseLogger)
    (w : World) (ops : list logg.Op) : logg.Sys :=
  {| logg.log := log; logg.world := w; logg.script := ops; logg.pending := [];
     logg.workers := 0; logg.appenderMap := reg |}.

(** Where the process of [Async; Async; Flush] can be: the script, what
    is left of the call, the goroutines, the counter, the signal channel
    and whether the logger is asynchronous. *)
Definition Stage2 : Type := list logg.Op * list logg.Action * nat * Z * list string * bool.

Definition stage2_of (s : logg.Sys) : Stage2 :=
  (logg.script s, logg.pending s, logg.workers s, logg.wg (logg.log s),
   logg.queue (logg.singalChan (logg.log s)), logg.async (logg.log s)).

Definition stages_twice : list Stage2 :=
  let rest := [logg.AWait; logg.AAdd 1] in
  [ ([logg.OpAsync; logg.OpAsync; logg.OpFlush], [], 0%nat, 0, [], false);
    ([logg.OpAsync; logg.OpFlush], [], 1%nat, 1, [], true);
    ([logg.OpFlush], [], 2%nat, 2, [], true);
    ([], logg.ASendSignal "flush" :: rest, 2%nat, 2, [], true);
    ([], rest, 2%nat, 2, ["flush"], true);
    ([], rest, 2%nat, 1, [], true) ].

Definition started_twice (s : logg.Sys) : Prop :=
  logg.queue (logg.msgChan (logg.log s)) = []
  /\ logg.closed (logg.msgChan (logg.log s)) = false
  /\ logg.closed (logg.singalChan (logg.log s)) = false
  /\ (0 < logg.cap (logg.singalChan (logg.log s)))%nat
  /\ stage2_of s ∈ stages_twice.

(** The schedule that lets [Async; Flush] go through. *)
Definition flush_once : list logg.Move :=
  [logg.MCaller; logg.MCaller; logg.MCaller; logg.MCaseSignal; logg.MCaller; logg.MCaller].
(** The schedule on which a call of [Flush] goes through: the caller
    enters and sends the token, the goroutine takes it, the caller's wait
    ends and it sets the counter again. *)
Definition flush_through : list logg.Move :=
  [logg.MCaller; logg.MCaller; logg.MCaseSignal; logg.MCaller; logg.MCaller].

(** What the console appender writes for [msg] at level [L]: the message
    between the colour code of the level and the reset code when it is
    colourful, the message itself otherwise. *)
Definition painted (c : console.consoleWriter) (L : Z) (msg : string) : string :=
  if console.Colorful c then
    match console.colors !! Z.to_nat L with
    | Some paint => paint msg
    | None => msg
    end
  else msg.

(** The index [colors[level]] is out of range. *)
Definition off_palette (c : console.consoleWriter) (L : Z) : Prop :=
  L <= console.Level c /\ console.Colorful c = true /\ (L < 0 \/ 4 < L).

(** The caller's position as [writeMsg] writes it: the base name of the
    file and the line, [???:0] when the runtime knows none. *)
Definition position (log : logg.BaseLogger) (w : World) : string :=
  match callers w (logg.loggerFuncCallDepth log) with
  | Some (file, line) => logg.splitFile file +:+ ":" +:+ strconv.FormatInt line
  | None => "???:0"
  end.

(** The string has a path separator in it. *)
Fixpoint has_sep (s : string) : bool :=
  match s with
  | EmptyString => false
  | String c s' => filepath.IsPathSeparator c || has_sep s'
  end.

(** The file appenders among [outs] hold handles of [w]. *)
Definition all_hold (outs : list logg.nameAppender) (w : World) : Prop :=
  forall a f, a ∈ outs -> logg.appender a = logg.File f -> holds f w.

(** The handle [h] is closed in [w]. *)
Definition shut_handle (h : nat) (w : World) : Prop :=
  exists ino, files w !! h = Some (ino, true).

(** The byte counter of [f] is the size of the file it holds open. *)
Definition tracks (f : fileLogWriter) (w : World) : Prop :=
  exists h ino nd,
    fileWriter f = Some h /\ live (Some h) w = Some ino /\ inodes w !! ino = Some nd
    /\ maxSizeCurSize f = len (i_data nd).

(** What the logger prints when the appender [name] returns the error
    [e] from [WriteMsg]. *)
Definition writeReport (name e : string) : string :=
  "unable to WriteMsg to appender:" +:+ name +:+ ",error:" +:+ e +:+ nl.

(** The schedule on which a call of [Close] goes through. *)
Definition close_through : list logg.Move :=
  [logg.MCaller; logg.MCaller; logg.MCaseSignal; logg.MCaller; logg.MCaller].

(** The caller makes its call and sends, time passes until [t], the
    goroutine takes the message. *)
Definition sent_then_written (t : time.Time) : list logg.Move :=
  [logg.MCaller; logg.MCaller; logg.MClock t; logg.MCaseMsg].

(** What one fan-out of a message of level [L] to the appenders [outs],
    the first of which has position [i], adds to the trace: for each
    appender the call of its [WriteMsg], then the calls of package os it
    makes, among them a write of the line exactly when [L] is within its
    level, none at all otherwise, then what the logger reports of its
    error. *)
Inductive fanned (m : Method) (L : Z)
  : nat -> list logg.nameAppender -> list (option nat * Call) -> Prop :=
  | fanned_nil i : fanned m L i [] []
  | fanned_cons i a outs l errs rest :
      Forall (fun c => quiet c = true) l ->
      ((exists c, c ∈ l /\ is_output c = true) <-> L <= floor a) ->
      (floor a < L -> l = []) ->
      Forall (fun e => e.1 = None /\ quiet e.2 = true) errs ->
      fanned m L (S i) outs rest ->
      fanned m L i (a :: outs)
             ((Some i, CInvoke m) :: map (pair (Some i)) l ++ errs ++ rest).

End obs.

(** ** Sample values *)
Module sample.
Import os.

Definition t0 : time.Time :=
  {| time.year := 2024; time.month := 3; time.day := 9;
     time.hour := 17; time.minute := 4; time.second := 58;
     time.unix := 1710003898 |}.

(** A decoder for the few configurations the examples use: the text is
    the file name, [bad] is malformed. *)
Definition runtime : Runtime :=
  {| GOOS_windows := false;
     unmarshal_console := fun config old =>
       if String.eqb config "bad" then (old, Some "invalid character")
       else if String.eqb config "errors" then ((1, old.2), None)
       else (old, None);
     unmarshal_file := fun config old =>
       if String.eqb config "bad" then (old, Some "invalid character")
       else ({| jFilename := config; jMaxSize := jMaxSize old; jDaily := jDaily old;
                jMaxDays := jMaxDays old; jRotate := jRotate old; jLevel := jLevel old |},
             None) |}.

(** A directory with nothing in it, no open file, a system that refuses
    nothing. *)
Definition world : World :=
  {| names := {[ "." := 0%nat ]};
     inodes := [ {| i_dir := true; i_data := ""; i_mtime := 0 |} ];
     files := [];
     now := t0;
     refuses := fun _ => false;
     callers := fun _ => Some ("/src/app/main.go", 42);
     goroutines := [];
     actor := None;
     trace := [] |}.

(** The same directory once a file appender has written one line to
    [app.log], and that appender: a limit of 40 bytes, 31 of them used. *)
Definition disk : World :=
  {| names := {[ "." := 0%nat; "app.log" := 1%nat ]};
     inodes := [ {| i_dir := true; i_data := ""; i_mtime := 0 |};
                 {| i_dir := false; i_data := obs.fileLine t0 "[I] started";
                    i_mtime := time.unix t0 |} ];
     files := [ (1%nat, false) ];
     now := t0;
     refuses := fun _ => false;
     callers := fun _ => Some ("/src/app/main.go", 42);
     goroutines := [];
     actor := None;
     trace := [] |}.

(** The same once a first rotation of that day has left its archive. *)
Definition crowded : World :=
  {| names := {[ "." := 0%nat; "app.log" := 1%nat;
                 "app_2024-03-09_001.log" := 2%nat ]};
     inodes := [ {| i_dir := true; i_data := ""; i_mtime := 0 |};
                 {| i_dir := false; i_data := obs.fileLine t0 "[I] started";
                    i_mtime := time.unix t0 |};
                 {| i_dir := false; i_data := obs.fileLine t0 "[I] earlier";
                    i_mtime := time.unix t0 |} ];
     files := [ (1%nat, false) ];
     now := t0;
     refuses := fun _ => false;
     callers := fun _ => Some ("/src/app/main.go", 42);
     goroutines := [];
     actor := None;
     trace := [] |}.

Definition console_errors : console.consoleWriter :=
  {| console.lg := console.newLogWriter Stdout; console.Level := 1;
     console.Colorful := true |}.

Definition sized : fileLogWriter :=
  {| Filename := "app.log"; fileWriter := Some 0%nat; MaxSize := 40;
     maxSizeCurSize := 31; Daily := false; MaxDays := 0; dailyOpenDate := 9;
     Rotate := true; Level := 4; fileNameOnly := "app"; fileSuffix := ".log" |}.



(** A synchronous logger with a console that takes errors and worse,
    and that file appender. *)
Definition logger : logg.BaseLogger :=
  {| logg.level := 4; logg.enableFuncCallDepth := true; logg.loggerFuncCallDepth := 2;
     logg.msgChan := logg.make 2;
     logg.appenders :=
       [ {| logg.appender := logg.Console console_errors; logg.name := "console" |};
         {| logg.appender := logg.File sized; logg.name := "file" |} ];
     logg.async := false; logg.logMsgPool := false;
     logg.singalChan := logg.make 1; logg.wg := 0 |}.

(** The table of constructors as the package's [init] functions leave
    it. *)
Definition registry : gmap string (@logg.createAppender) :=
  match @logg.initAppenderMap runtime with
  | Ok m => m
  | Panic _ => ∅
  end.

(** An [Info] and an [Error], both at [t0]. *)
Definition calls : list (time.Time * logg.Op) :=
  [(t0, logg.OpInfo "up"); (t0, logg.OpError "down")].

(** The logger of the examples once [Async] was called on it. *)
Definition worker : logg.BaseLogger :=
  {| logg.level := 4; logg.enableFuncCallDepth := true; logg.loggerFuncCallDepth := 2;
     logg.msgChan := logg.make 2;
     logg.appenders := logg.appenders logger;
     logg.async := true; logg.logMsgPool := true;
     logg.singalChan := logg.make 1; logg.wg := 1 |}.




(** The asynchronous logger once [Close] has returned. *)
Definition shut : logg.BaseLogger :=
  {| logg.level := 4; logg.enableFuncCallDepth := true; logg.loggerFuncCallDepth := 2;
     logg.msgChan := {| logg.cap := 2; logg.queue := []; logg.closed := true |};
     logg.appenders := [];
     logg.async := true; logg.logMsgPool := true;
     logg.singalChan := {| logg.cap := 1; logg.queue := []; logg.closed := true |};
     logg.wg := 0 |}.

(** The asynchronous logger with one message in its channel. *)
Definition busy : logg.BaseLogger :=
  {| logg.level := 4; logg.enableFuncCallDepth := true; logg.loggerFuncCallDepth := 2;
     logg.msgChan :=
       {| logg.cap := 2;
          logg.queue := [ {| logg.lm_level := 3; logg.lm_msg := "[I] up";
                             logg.lm_when := sample.t0 |} ];
          logg.closed := false |};
     logg.appenders := logg.appenders sample.logger;
     logg.async := true; logg.logMsgPool := true;
     logg.singalChan := logg.make 1; logg.wg := 1 |}.

(** A file appender configured with a path in a directory. *)
Definition nested : fileLogWriter :=
  {| Filename := "logs/app.log"; fileWriter := Some 0%nat; MaxSize := 40;
     maxSizeCurSize := 0; Daily := false; MaxDays := 7; dailyOpenDate := 9;
     Rotate := true; Level := 4; fileNameOnly := "logs/app"; fileSuffix := ".log" |}.

(** Its directory, with an archive of eleven days ago. *)
Definition logs : World :=
  {| names := {[ "." := 0%nat; "logs" := 1%nat; "logs/app.log" := 2%nat;
                 "logs/app_2024-02-26_001.log" := 3%nat ]};
     inodes := [ {| i_dir := true; i_data := ""; i_mtime := 0 |};
                 {| i_dir := true; i_data := ""; i_mtime := 0 |};
                 {| i_dir := false; i_data := ""; i_mtime := time.unix sample.t0 |};
                 {| i_dir := false; i_data := obs.fileLine sample.t0 "[I] earlier";
                    i_mtime := 1709000000 |} ];
     files := [ (2%nat, false) ];
     now := sample.t0;
     refuses := fun _ => false;
     callers := fun _ => Some ("/src/app/main.go", 42);
     goroutines := [];
     actor := None;
     trace := [] |}.

(** The file appender of the examples without a size limit, rotating by
    day, opened on the 8th. *)
Definition daily : fileLogWriter :=
  {| Filename := "app.log"; fileWriter := Some 0%nat; MaxSize := 0;
     maxSizeCurSize := 31; Daily := true; MaxDays := 0; dailyOpenDate := 8;
     Rotate := true; Level := 4; fileNameOnly := "app"; fileSuffix := ".log" |}.

(** An instant of the day before [t0]. *)
Definition eve : time.Time :=
  {| time.year := 2024; time.month := 3; time.day := 8;
     time.hour := 23; time.minute := 59; time.second := 59;
     time.unix := 1709942399 |}.

(** A file appender that does not rotate and whose handle is none of the
    open files, and a synchronous logger with it and the console. *)
Definition dead : fileLogWriter :=
  {| Filename := "app.log"; fileWriter := Some 7%nat; MaxSize := 0;
     maxSizeCurSize := 0; Daily := false; MaxDays := 0; dailyOpenDate := 9;
     Rotate := false; Level := 4; fileNameOnly := "app"; fileSuffix := ".log" |}.

Definition orphaned : logg.BaseLogger :=
  {| logg.level := 4; logg.enableFuncCallDepth := false; logg.loggerFuncCallDepth := 2;
     logg.msgChan := logg.make 2;
     logg.appenders :=
       [ {| logg.appender := logg.File dead; logg.name := "file" |};
         {| logg.appender := logg.Console sample.console_errors; logg.name := "console" |} ];
     logg.async := false; logg.logMsgPool := false;
     logg.singalChan := logg.make 1; logg.wg := 0 |}.

(** An asynchronous logger whose channel has room for one message and
    holds one. *)
Definition crammed : logg.BaseLogger :=
  {| logg.level := 4; logg.enableFuncCallDepth := true; logg.loggerFuncCallDepth := 2;
     logg.msgChan :=
       {| logg.cap := 1;
          logg.queue := [ {| logg.lm_level := 3; logg.lm_msg := "[I] up";
                             logg.lm_when := sample.t0 |} ];
          logg.closed := false |};
     logg.appenders := logg.appenders sample.logger;
     logg.async := true; logg.logMsgPool := true;
     logg.singalChan := logg.make 1; logg.wg := 1 |}.

End sample.

(** * Properties *)

(** ** Strings *)
Lemma str_app_nil_r (s : string) : s +:+ "" = s.
Proof. induction s as [|c s IH]; [reflexivity |].
  change (String c (s +:+ "") = String c s). by rewrite IH. Qed.

Lemma str_app_assoc (a b c : string) : (a +:+ b) +:+ c = a +:+ b +:+ c.
Proof.
  induction a as [|x a IH]; [reflexivity |].
  change (String x ((a +:+ b) +:+ c) = String x (a +:+ b +:+ c)). by rewrite IH.
Qed.

Lemma str_length_app (a b : string) :
  String.length (a +:+ b) = (String.length a + String.length b)%nat.
Proof.
  induction a as [|x a IH]; [reflexivity |].
  change (S (String.length (a +:+ b)) = S (String.length a + String.length b)).
  by rewrite IH.
Qed.

Lemma len_app (a b : string) : len (a +:+ b) = len a + len b.
Proof. unfold len. rewrite str_length_app. lia. Qed.

Lemma len_nonneg (s : string) : 0 <= len s.
Proof. unfold len. lia. Qed.

Example format_t0 :
  time.Format sample.t0 "2006-01-02 15:03:04" = "2024-03-09 17:05:04".
Proof. vm_compute. reflexivity. Qed.

Example paths_ex :
  filepath.Ext "logs/log.log" = ".log" /\ filepath.Ext "a.b/c" = ""
  /\ filepath.Base "logs/log_1.log" = "log_1.log" /\ filepath.Dir "logs/log.log" = "logs"
  /\ filepath.Dir "test.log" = "." /\ strconv.pad 3 7 = "007"
  /\ strings.TrimSuffix "logs/log.log" ".log" = "logs/log".
Proof. vm_compute. repeat split. Qed.

(** ** The time stamp *)
Section Stamp.
Context `{rt : Runtime}.
Import os.

Lemma chunks_stampLayout :
  time.chunks (String.length stampLayout) stampLayout =
  [time.stdLongYear; time.Lit "-"; time.stdZeroMonth; time.Lit "-"; time.stdZeroDay;
   time.Lit " "; time.stdHour; time.Lit ":"; time.stdZeroHour12; time.Lit ":";
   time.stdZeroMinute].
Proof. vm_compute. reflexivity. Qed.

Lemma Format_stampLayout (t : time.Time) :
  time.Format t stampLayout =
  strconv.pad 4 (time.year t) +:+ "-" +:+ strconv.pad 2 (time.month t) +:+ "-"
    +:+ strconv.pad 2 (time.day t) +:+ " " +:+ strconv.pad 2 (time.hour t) +:+ ":"
    +:+ strconv.pad 2 (time.hour12 t) +:+ ":" +:+ strconv.pad 2 (time.minute t).
Proof.
  unfold time.Format. rewrite chunks_stampLayout. cbn [foldr time.render].
  rewrite str_app_nil_r. reflexivity.
Qed.
End Stamp.

(** Projections of a world that was updated field by field. *)
Ltac wsimpl :=
  cbn [os.names os.inodes os.files os.now os.refuses os.callers os.goroutines os.actor os.trace
       os.with_names os.with_inodes os.with_files os.with_now os.with_goroutines os.with_actor
       os.with_trace os.called] in *.

(** ** Package os: what a call leaves as it was *)
Section OsSteps.
Import os.

Lemma os_steps_refl w : os_steps w w.
Proof.
  repeat split. exists []. split; [by rewrite app_nil_r | constructor].
Qed.

Lemma os_steps_trans w1 w2 w3 : os_steps w1 w2 -> os_steps w2 w3 -> os_steps w1 w3.
Proof.
  intros (Ha & Hn & Hr & Hc & l & Hl & Hq) (Ha' & Hn' & Hr' & Hc' & l' & Hl' & Hq').
  repeat split; try congruence.
  exists (l ++ l'). split.
  - rewrite Hl', Hl. by rewrite app_assoc.
  - apply Forall_app. split; [exact Hq |].
    rewrite Ha in Hq'. exact Hq'.
Qed.

Lemma os_steps_called c w : quiet c = true -> os_steps w (called c w).
Proof.
  intros Hc. repeat split. exists [(actor w, c)]. split; [reflexivity |].
  constructor; [by split | constructor].
Qed.

Lemma os_steps_with_names m w w' : os_steps w w' -> os_steps w (with_names m w').
Proof. intros H. exact H. Qed.

Lemma os_steps_with_inodes l w w' : os_steps w w' -> os_steps w (with_inodes l w').
Proof. intros H. exact H. Qed.

Lemma os_steps_with_files l w w' : os_steps w w' -> os_steps w (with_files l w').
Proof. intros H. exact H. Qed.

Lemma os_steps_with_goroutines l w w' : os_steps w w' -> os_steps w (with_goroutines l w').
Proof. intros H. exact H. Qed.

Lemma Lstat_world name w : (Lstat name w).2 = called (CLstat name) w.
Proof. unfold Lstat. repeat case_match; reflexivity. Qed.

Ltac os_call :=
  repeat case_match; simplify_eq; simpl;
  repeat first
    [ apply os_steps_refl
    | (by apply os_steps_called)
    | apply os_steps_with_files
    | apply os_steps_with_names
    | apply os_steps_with_inodes ].

Lemma Lstat_steps name w : os_steps w (Lstat name w).2.
Proof. rewrite Lstat_world. by apply os_steps_called. Qed.

Lemma OpenFile_steps name w : os_steps w (OpenFile name w).2.
Proof. unfold OpenFile, open_inode. os_call. Qed.

Lemma Close_steps h w : os_steps w (Close h w).2.
Proof. unfold Close. os_call. Qed.

Lemma Stat_steps h w : os_steps w (Stat h w).2.
Proof. unfold Stat. os_call. Qed.

Lemma Write_steps h b w : os_steps w (Write h b w).2.
Proof. unfold Write. os_call. Qed.

Lemma Sync_steps h w : os_steps w (Sync h w).
Proof. unfold Sync. os_call. Qed.

Lemma Rename_steps old new w : os_steps w (Rename old new w).2.
Proof. unfold Rename. os_call. Qed.

Lemma Remove_steps name w : os_steps w (Remove name w).2.
Proof. unfold Remove. os_call. Qed.

Lemma Print_steps s b w : os_steps w (Print s b w).
Proof. by apply os_steps_called. Qed.

End OsSteps.

(** ** The file appender: what every method keeps *)
Section FileSteps.
Import os obs.

Lemma same_config_refl f : same_config f f.
Proof. by repeat split. Qed.

Lemma same_config_trans f1 f2 f3 :
  same_config f1 f2 -> same_config f2 f3 -> same_config f1 f3.
Proof. unfold same_config. intros ? ?. intuition congruence. Qed.

Ltac after lem :=
  let Hs := fresh "Hs" in
  pose proof lem as Hs;
  match type of Hs with
  | os_steps _ (?x).2 =>
      let r := fresh "r" in let w := fresh "w" in let E := fresh "E" in
      destruct x as [r w] eqn:E; simpl in Hs
  end.

Lemma initFd_steps f w :
  os_steps w (file.initFd f w).2 /\ same_config f (file.initFd f w).1.2.
Proof.
  unfold file.initFd. after (Stat_steps (fileWriter f) w).
  destruct r; simpl; split; by try apply same_config_refl.
Qed.

Lemma startLogging_steps f w :
  os_steps w (file.startLogging f w).2 /\ same_config f (file.startLogging f w).1.2.
Proof.
  unfold file.startLogging, file.createLogFile.
  after (OpenFile_steps (Filename f) w).
  destruct r as [file|e]; simpl; [| split; [done | apply same_config_refl]].
  match goal with |- context [file.initFd ?g ?w'] =>
    destruct (initFd_steps g w') as [H1 H2] end.
  split; [| exact H2].
  eapply os_steps_trans; [| exact H1].
  eapply os_steps_trans; [exact Hs |].
  destruct (fileWriter f); [apply Close_steps | apply os_steps_refl].
Qed.

Lemma probe_steps fuel f t num fName errNil w :
  os_steps w (file.probe fuel f t num fName errNil w).2.
Proof.
  revert num fName errNil w.
  induction fuel as [|fuel IH]; intros num fName errNil w; simpl.
  - destruct (errNil && (num <=? 999)); apply os_steps_refl.
  - destruct (errNil && (num <=? 999)); [| apply os_steps_refl].
    after (Lstat_steps (file.sizeName f t num) w).
    destruct r; (eapply os_steps_trans; [exact Hs | apply IH]).
Qed.

Lemma pickName_steps f t w : os_steps w (file.pickName f t w).2.
Proof.
  unfold file.pickName. destruct (0 <? MaxSize f).
  - pose proof (probe_steps file.probes f t 1 "" true w) as Hp.
    destruct (file.probe file.probes f t 1 "" true w) as [[[n fName] errNil] w2].
    exact Hp.
  - after (Lstat_steps (file.dayName f t) w). by destruct r.
Qed.

Lemma swapFile_steps f fName w :
  os_steps w (file.swapFile f fName w).2 /\ same_config f (file.swapFile f fName w).1.2.
Proof.
  unfold file.swapFile.
  pose proof (Close_steps (fileWriter f) w) as Hc.
  set (w3 := (Close (fileWriter f) w).2) in *.
  pose proof (Rename_steps (Filename f) fName w3) as Hr.
  destruct (Rename (Filename f) fName w3) as [[e|] w4]; simpl in Hr |- *.
  - split; [| apply same_config_refl]. eapply os_steps_trans; eassumption.
  - destruct (startLogging_steps f w4) as [Hsl Hcf].
    destruct (file.startLogging f w4) as [[[e|] f5] w5]; simpl in *;
      (split; [| exact Hcf]);
      (eapply os_steps_trans; [exact Hc |]);
      (eapply os_steps_trans; [exact Hr |]); exact Hsl.
Qed.

Lemma doRotate_steps f t w :
  os_steps w (file.doRotate f t w).2 /\ same_config f (file.doRotate f t w).1.2.
Proof.
  unfold file.doRotate.
  after (Lstat_steps (Filename f) w).
  destruct r as [info|e]; simpl; [| split; [done | apply same_config_refl]].
  pose proof (pickName_steps f t w0) as Hp.
  destruct (file.pickName f t w0) as [[fName errNil] w2]; simpl in Hp.
  assert (H02 : os_steps w w2) by (eapply os_steps_trans; eassumption).
  destruct errNil; simpl; [split; [done | apply same_config_refl] |].
  destruct (swapFile_steps f fName w2) as [H1 H2].
  split; [| exact H2]. eapply os_steps_trans; eassumption.
Qed.

End FileSteps.

(** ** The file appender: WriteMsg *)
Section FileWrite.
Import os obs.

Lemma needRotate_due f size day :
  file.needRotate f size day = true <-> obs.rotation_due f day.
Proof.
  unfold file.needRotate, obs.rotation_due.
  rewrite orb_true_iff, !andb_true_iff, negb_true_iff.
  rewrite Z.ltb_lt, Z.leb_le, Z.eqb_neq. reflexivity.
Qed.

Lemma WriteMsg_dropped f when msg level w :
  Level f < level -> file.WriteMsg f when msg level w = (None, f, w).
Proof.
  intros Hl. unfold file.WriteMsg.
  destruct (Level f <? level) eqn:E; [reflexivity | apply Z.ltb_ge in E; lia].
Qed.

Lemma WriteMsg_plain f when msg level w :
  level <= Level f ->
  Rotate f && file.needRotate f (len (obs.fileLine when msg)) (time.Day when) = false ->
  file.WriteMsg f when msg level w = writeStep f (obs.fileLine when msg) w.
Proof.
  intros Hl Hn. unfold file.WriteMsg, writeStep.
  destruct (Level f <? level) eqn:E; [apply Z.ltb_lt in E; lia |].
  unfold obs.fileLine in Hn |- *. rewrite Hn. reflexivity.
Qed.

Lemma WriteMsg_rotating f when msg level w :
  level <= Level f -> Rotate f = true ->
  file.needRotate f (len (obs.fileLine when msg)) (time.Day when) = true ->
  file.WriteMsg f when msg level w =
  writeStep (reportRotate (file.doRotate f when w)).1 (obs.fileLine when msg)
            (reportRotate (file.doRotate f when w)).2.
Proof.
  intros Hl Hr Hn. unfold file.WriteMsg, writeStep, reportRotate.
  destruct (Level f <? level) eqn:E; [apply Z.ltb_lt in E; lia |].
  unfold obs.fileLine in Hn |- *. rewrite Hr, Hn. simpl.
  destruct (file.doRotate f when w) as [[[e|] f1] w1]; reflexivity.
Qed.

Lemma Write_trace h b w :
  trace (Write h b w).2
  = trace w ++ match h with Some h' => [(actor w, CWrite h' b)] | None => [] end.
Proof.
  unfold Write. destruct h as [h'|]; [| by rewrite app_nil_r].
  repeat case_match; reflexivity.
Qed.

Lemma writeStep_world f line w : (writeStep f line w).2 = (Write (fileWriter f) line w).2.
Proof. unfold writeStep. destruct (Write (fileWriter f) line w) as [[n|e] w2]; reflexivity. Qed.

Lemma writeStep_steps f line w :
  os_steps w (writeStep f line w).2 /\ same_config f (writeStep f line w).1.2.
Proof.
  rewrite writeStep_world. split; [apply Write_steps |].
  unfold writeStep. destruct (Write (fileWriter f) line w) as [[n|e] w2];
    simpl; by repeat split.
Qed.

Lemma reportRotate_steps f when w :
  os_steps w (reportRotate (file.doRotate f when w)).2
  /\ same_config f (reportRotate (file.doRotate f when w)).1.
Proof.
  destruct (doRotate_steps f when w) as [H1 H2].
  destruct (file.doRotate f when w) as [[[e|] f1] w1]; simpl in *; split; try done.
  eapply os_steps_trans; [exact H1 | apply Print_steps].
Qed.

Lemma WriteMsg_steps f when msg level w :
  os_steps w (file.WriteMsg f when msg level w).2
  /\ same_config f (file.WriteMsg f when msg level w).1.2.
Proof.
  destruct (Z_lt_le_dec (Level f) level) as [Hl|Hl].
  { rewrite WriteMsg_dropped by exact Hl. split; [apply os_steps_refl | apply same_config_refl]. }
  destruct (Rotate f && file.needRotate f (len (obs.fileLine when msg)) (time.Day when)) eqn:E.
  - apply andb_true_iff in E as [Hr Hn].
    rewrite WriteMsg_rotating by assumption.
    destruct (reportRotate_steps f when w) as [H1 H2].
    destruct (writeStep_steps (reportRotate (file.doRotate f when w)).1
                (obs.fileLine when msg) (reportRotate (file.doRotate f when w)).2) as [H3 H4].
    split; [eapply os_steps_trans | eapply same_config_trans]; eassumption.
  - rewrite WriteMsg_plain by assumption. apply writeStep_steps.
Qed.

Lemma os_steps_prefix w w1 w2 e l :
  trace w1 = trace w ++ e :: l -> os_steps w1 w2 ->
  exists l', trace w2 = trace w ++ e :: l'.
Proof.
  intros H1 (_ & _ & _ & _ & l2 & H2 & _).
  exists (l ++ l2). rewrite H2, H1. by rewrite <- app_assoc.
Qed.

Lemma doRotate_first f when w : obs.attempts_rotation f w (file.doRotate f when w).2.
Proof.
  unfold obs.attempts_rotation, file.doRotate.
  pose proof (Lstat_world (Filename f) w) as Hw.
  destruct (Lstat (Filename f) w) as [[info|e] w1]; simpl in Hw; subst w1.
  - pose proof (pickName_steps f when (called (CLstat (Filename f)) w)) as Hp.
    destruct (file.pickName f when _) as [[fName errNil] w2]; simpl in Hp.
    destruct errNil.
    + eapply os_steps_prefix; [| exact Hp]. simpl. reflexivity.
    + destruct (swapFile_steps f fName w2) as [Hs _].
      eapply os_steps_prefix; [| eapply os_steps_trans; [exact Hp | exact Hs]].
      simpl. reflexivity.
  - exists []. reflexivity.
Qed.

End FileWrite.

(** ** Rotation is decided before the write (C2) *)
Section RotationTrigger.
Import os obs.

Lemma wrap64_small z : - 2 ^ 63 <= z < 2 ^ 63 -> wrap64 z = z.
Proof. intros Hz. unfold wrap64. rewrite Z.mod_small; lia. Qed.

Lemma reportRotate_after r : os_steps r.2 (reportRotate r).2.
Proof.
  destruct r as [[[e|] f1] w1]; simpl; [apply Print_steps | apply os_steps_refl].
Qed.

Lemma attempts_rotation_later f w w1 w2 :
  attempts_rotation f w w1 -> os_steps w1 w2 -> attempts_rotation f w w2.
Proof. intros [l Hl] Hs. eapply os_steps_prefix; eassumption. Qed.

Lemma WriteMsg_rotates_first f when msg level w :
  level <= Level f -> Rotate f = true ->
  file.needRotate f (len (fileLine when msg)) (time.Day when) = true ->
  attempts_rotation f w (file.WriteMsg f when msg level w).2.
Proof.
  intros Hl Hr Hn. rewrite WriteMsg_rotating by assumption.
  eapply attempts_rotation_later; [apply (doRotate_first f when w) |].
  eapply os_steps_trans; [apply reportRotate_after |].
  apply writeStep_steps.
Qed.

Lemma WriteMsg_plain_trace f when msg level w :
  level <= Level f ->
  Rotate f && file.needRotate f (len (fileLine when msg)) (time.Day when) = false ->
  trace (file.WriteMsg f when msg level w).2
  = trace w ++ match fileWriter f with
               | Some h => [(actor w, CWrite h (fileLine when msg))]
               | None => []
               end.
Proof.
  intros Hl Hn. rewrite WriteMsg_plain by assumption.
  rewrite writeStep_world. apply Write_trace.
Qed.

Lemma Write_done h b w ino nd :
  live (Some h) w = Some ino -> inodes w !! ino = Some nd ->
  refuses w (CWrite h b) = false ->
  Write (Some h) b w
  = (Done (len b),
     with_inodes (<[ino := {| i_dir := i_dir nd; i_data := i_data nd +:+ b;
                              i_mtime := time.Unix (now w) |}]> (inodes w))
                 (called (CWrite h b) w)).
Proof.
  intros Hlive Hnd Hr. unfold Write. rewrite Hlive, Hr, Hnd. reflexivity.
Qed.

(** C2.  A call of the file appender's [WriteMsg] that passes the level
    gate with rotation enabled goes into [doRotate] before it writes
    exactly when the condition of [needRotate] holds: the size limit is
    set and the running byte count has reached it, or daily rotation is
    on and the day of the message is not the day the file was opened.
    So a write that takes the count from below the limit to or past it is
    made, whole, on the current file without any rotation, and the write
    after it rotates first. *)
Theorem rotation_decided_before_write
    (f : fileLogWriter) (when : time.Time) (msg : string) (level : Z) (w : World) :
  level <= Level f -> Rotate f = true ->
  (attempts_rotation f w (file.WriteMsg f when msg level w).2
   <-> rotation_due f (time.Day when))
  /\ (writable f w ->
      ~ (Daily f = true /\ time.Day when <> dailyOpenDate f) ->
      0 < MaxSize f -> maxSizeCurSize f < MaxSize f ->
      MaxSize f <= maxSizeCurSize f + len (fileLine when msg) < 2 ^ 63 ->
      let '(err, f', w') := file.WriteMsg f when msg level w in
      err = None
      /\ (exists h ino nd,
             fileWriter f = Some h /\ fileWriter f' = Some h
             /\ trace w' = trace w ++ [(actor w, CWrite h (fileLine when msg))]
             /\ live (Some h) w = Some ino /\ inodes w !! ino = Some nd
             /\ inodes w' !! ino
                = Some {| i_dir := i_dir nd; i_data := i_data nd +:+ fileLine when msg;
                          i_mtime := time.Unix (now w) |})
      /\ maxSizeCurSize f' = maxSizeCurSize f + len (fileLine when msg)
      /\ forall when2 msg2 level2,
           level2 <= Level f' ->
           attempts_rotation f' w' (file.WriteMsg f' when2 msg2 level2 w').2).
Proof.
  intros Hl Hr. split.
  - split.
    + intros [rest Hrest].
      destruct (file.needRotate f (len (fileLine when msg)) (time.Day when)) eqn:Hn.
      { by apply needRotate_due in Hn. }
      exfalso. rewrite WriteMsg_plain_trace in Hrest by (rewrite ?Hn, ?andb_false_r; done).
      apply app_inv_head in Hrest. destruct (fileWriter f); discriminate.
    + intros Hdue. apply (needRotate_due f (len (fileLine when msg))) in Hdue.
      by apply WriteMsg_rotates_first.
  - intros (h & ino & nd & Hh & Hlive & Hnd & Href) Hday Hpos Hlt Hcross.
    assert (Hn : file.needRotate f (len (fileLine when msg)) (time.Day when) = false).
    { destruct (file.needRotate f _ _) eqn:Hn; [| done].
      apply needRotate_due in Hn as [[_ ?]|?]; [lia | contradiction]. }
    rewrite WriteMsg_plain by (rewrite ?Hn, ?andb_false_r; done).
    unfold writeStep. rewrite Hh, (Write_done h _ w ino nd) by auto.
    rewrite wrap64_small by lia.
    split; [reflexivity |]. split; [| split; [reflexivity |]].
    + exists h, ino, nd. repeat split; try done.
      simpl. apply list_lookup_insert_eq. by eapply lookup_lt_Some.
    + intros when2 msg2 level2 Hl2. simpl in Hl2.
      apply WriteMsg_rotates_first; [exact Hl2 | exact Hr |].
      apply needRotate_due. left. simpl. lia.
Qed.

End RotationTrigger.

Lemma rotation_decided_before_write_witness :
  (obs.attempts_rotation sample.sized sample.disk
     (file.WriteMsg sample.sized sample.t0 "[I] hello" 3 sample.disk).2
   <-> obs.rotation_due sample.sized (time.Day sample.t0))
  /\ (file.WriteMsg sample.sized sample.t0 "[I] hello" 3 sample.disk).1.1 = None
  /\ maxSizeCurSize (file.WriteMsg sample.sized sample.t0 "[I] hello" 3 sample.disk).1.2 = 60.
Proof.
  destruct (rotation_decided_before_write sample.sized sample.t0 "[I] hello" 3 sample.disk)
    as [H1 H2]; [vm_compute; discriminate | reflexivity |].
  split; [exact H1 |].
  assert (Hw : obs.writable sample.sized sample.disk).
  { exists 0%nat, 1%nat,
      {| os.i_dir := false; os.i_data := obs.fileLine sample.t0 "[I] started";
         os.i_mtime := time.unix sample.t0 |}.
    repeat split. }
  specialize (H2 Hw).
  destruct (file.WriteMsg sample.sized sample.t0 "[I] hello" 3 sample.disk) as [[err f'] w'].
  destruct H2 as (He & _ & Hsz & _).
  - intros [Hd _]. discriminate Hd.
  - reflexivity.
  - reflexivity.
  - vm_compute. split; [discriminate | reflexivity].
  - split; [exact He | cbn [fst snd]; rewrite Hsz; vm_compute; reflexivity].
Defined.

(** ** Rotation: the archive name, the rename, the new file (C6) *)
Section Rotation.
Import os obs.

Lemma Lstat_found w name nd :
  refuses w (CLstat name) = false -> node name w = Some nd ->
  Lstat name w = (Done (info_of nd), called (CLstat name) w).
Proof. intros Hr Hn. unfold Lstat. by rewrite Hr, Hn. Qed.

Lemma Lstat_missing w name :
  refuses w (CLstat name) = false -> node name w = None ->
  exists e, Lstat name w = (Fail e, called (CLstat name) w).
Proof. intros Hr Hn. unfold Lstat. rewrite Hr, Hn. eauto. Qed.

Lemma same_disk_refl w : same_disk w w.
Proof. by repeat split. Qed.

Lemma same_disk_trans w1 w2 w3 : same_disk w1 w2 -> same_disk w2 w3 -> same_disk w1 w3.
Proof. unfold same_disk. intuition congruence. Qed.

Lemma same_disk_node w w' name : same_disk w w' -> node name w' = node name w.
Proof. intros (Hn & Hi & _). unfold node. by rewrite Hn, Hi. Qed.

Lemma os_steps_obliging w w' : os_steps w w' -> obliging w -> obliging w'.
Proof. intros (_ & _ & Hr & _) Ho c. rewrite Hr. apply Ho. Qed.

Lemma probe_finds fuel f t (k n : nat) fName w :
  (forall name, refuses w (CLstat name) = false) -> (k <= n)%nat -> (n < k + fuel)%nat -> (n <= 999)%nat ->
  (forall j, (k <= j < n)%nat -> is_Some (node (file.sizeName f t (Z.of_nat j)) w)) ->
  node (file.sizeName f t (Z.of_nat n)) w = None ->
  exists w', file.probe fuel f t (Z.of_nat k) fName true w
             = (Z.of_nat n + 1, file.sizeName f t (Z.of_nat n), false, w')
             /\ same_disk w w' /\ os_steps w w'.
Proof.
  revert k fName w. induction fuel as [|fuel IH]; intros k fName w Ho Hkn Hfuel Hn Hex Hfree.
  { lia. }
  simpl. replace (Z.of_nat k <=? 999) with true by (symmetry; apply Z.leb_le; lia). simpl.
  destruct (decide (k = n)) as [->|Hne].
  - destruct (Lstat_missing w _ (Ho _) Hfree) as [e ->].
    exists (called (CLstat (file.sizeName f t (Z.of_nat n))) w).
    split; [| split; [by repeat split | by apply os_steps_called]].
    destruct fuel; simpl; reflexivity.
  - destruct (Hex k) as [nd Hnd]; [lia |].
    rewrite (Lstat_found w _ nd (Ho _) Hnd).
    destruct (IH (S k) (file.sizeName f t (Z.of_nat k)) (called (CLstat (file.sizeName f t (Z.of_nat k))) w))
      as (w' & Hp & Hd & Hs); try lia; try done.
    { intros j Hj. apply Hex. lia. }
    exists w'. replace (Z.of_nat k + 1) with (Z.of_nat (S k)) by lia.
    rewrite Hp. split; [done |]. split; [exact Hd |].
    eapply os_steps_trans; [| exact Hs]. by apply os_steps_called.
Qed.

Lemma probe_exhausted fuel f t (k : nat) fName w :
  (forall name, refuses w (CLstat name) = false) -> (1000 <= k + fuel)%nat -> (k <= 1000)%nat ->
  (forall j, (k <= j <= 999)%nat -> is_Some (node (file.sizeName f t (Z.of_nat j)) w)) ->
  exists fName' w', file.probe fuel f t (Z.of_nat k) fName true w
             = (1000, fName', true, w')
             /\ same_disk w w' /\ os_steps w w'.
Proof.
  revert k fName w. induction fuel as [|fuel IH]; intros k fName w Ho Hfuel Hk Hex.
  { assert (k = 1000%nat) as -> by lia. simpl. exists fName, w.
    split; [reflexivity | split; [apply same_disk_refl | apply os_steps_refl]]. }
  simpl. destruct (Z.leb_spec (Z.of_nat k) 999) as [Hle|Hgt]; simpl.
  - destruct (Hex k) as [nd Hnd]; [lia |].
    rewrite (Lstat_found w _ nd (Ho _) Hnd).
    destruct (IH (S k) (file.sizeName f t (Z.of_nat k)) (called (CLstat (file.sizeName f t (Z.of_nat k))) w))
      as (fName' & w' & Hp & Hd & Hs); try lia; try done.
    { intros j Hj. apply Hex. lia. }
    exists fName', w'. replace (Z.of_nat k + 1) with (Z.of_nat (S k)) by lia.
    rewrite Hp. split; [done |]. split; [exact Hd |].
    eapply os_steps_trans; [| exact Hs]. by apply os_steps_called.
  - assert (k = 1000%nat) as -> by lia. exists fName, w.
    split; [reflexivity | split; [apply same_disk_refl | apply os_steps_refl]].
Qed.


Lemma startLogging_fresh f w :
  obliging w -> names w !! Filename f = None ->
  (forall h, fileWriter f = Some h -> exists i, files w !! h = Some (i, true)) ->
  exists f' w',
    file.startLogging f w = (None, f', w')
    /\ fileWriter f' = Some (length (files w))
    /\ files w' = files w ++ [(length (inodes w), false)]
    /\ inodes w' = inodes w ++ [fresh w]
    /\ names w' = <[Filename f := length (inodes w)]> (names w)
    /\ same_config f f' /\ maxSizeCurSize f' = 0
    /\ dailyOpenDate f' = time.Day (now w)
    /\ goroutines w' = goroutines w.
Proof.
  intros Ho Hnone Hclosed.
  unfold file.startLogging, file.createLogFile, OpenFile.
  rewrite Ho, Hnone. cbn [open_inode].
  cbv zeta. wsimpl.
  set (w1 := with_files _ _).
  assert (Hw : (match fileWriter f with
                | Some _ => (Close (fileWriter f) w1).2
                | None => w1
                end) = match fileWriter f with
                       | Some h => called (CClose h) w1
                       | None => w1
                       end).
  { destruct (fileWriter f) as [h|] eqn:Hf; [| reflexivity].
    destruct (Hclosed h eq_refl) as [i Hi].
    unfold Close. subst w1. wsimpl.
    rewrite lookup_app_l by (by eapply lookup_lt_Some). rewrite Hi. reflexivity. }
  rewrite Hw. clear Hw.
  set (w2 := match fileWriter f with Some h => _ | None => _ end).
  assert (Hfiles : files w2 = files w ++ [(length (inodes w), false)]).
  { subst w2 w1. by destruct (fileWriter f). }
  assert (Hinodes : inodes w2 = inodes w ++ [fresh w]).
  { subst w2 w1. by destruct (fileWriter f). }
  assert (Hnames : names w2 = <[Filename f := length (inodes w)]> (names w)).
  { subst w2 w1. by destruct (fileWriter f). }
  assert (Hrest : refuses w2 = refuses w /\ now w2 = now w /\ goroutines w2 = goroutines w).
  { subst w2 w1. by destruct (fileWriter f). }
  destruct Hrest as (Hr & Hnow & Hg).
  unfold file.initFd, Stat. cbn [fileWriter file.set_fileWriter].
  unfold live. rewrite Hfiles.
  rewrite lookup_app_r by lia. rewrite Nat.sub_diag. cbn [lookup list_lookup].
  rewrite Hr, Ho, Hinodes.
  rewrite lookup_app_r by lia. rewrite Nat.sub_diag. cbn [lookup list_lookup].
  eexists _, _. split; [reflexivity |].
  cbn. rewrite Hfiles, Hinodes, Hnames, Hg, Hnow. repeat split.
Qed.

Lemma Close_facts h w :
  (forall h0, h = Some h0 -> (h0 < length (files w))%nat) ->
  let w3 := (Close h w).2 in
  names w3 = names w /\ inodes w3 = inodes w /\ refuses w3 = refuses w
  /\ now w3 = now w /\ goroutines w3 = goroutines w
  /\ length (files w3) = length (files w)
  /\ (forall h0, h = Some h0 -> exists i, files w3 !! h0 = Some (i, true)).
Proof.
  intros Hh. unfold Close. destruct h as [h0|]; simpl.
  - destruct (lookup_lt_is_Some_2 (files w) h0 (Hh h0 eq_refl)) as [[i c] Hi].
    rewrite Hi. destruct c; wsimpl.
    + repeat split; try done. intros ? [= <-]. simpl. eauto.
    + repeat split; try done; simpl.
      * by rewrite length_insert.
      * intros ? [= <-]. exists i. apply list_lookup_insert_eq. by eapply lookup_lt_Some.
  - repeat split; try done.
Qed.

Lemma swapFile_ok f fName w ino nd :
  obliging w -> names w !! Filename f = Some ino -> inodes w !! ino = Some nd ->
  node fName w = None ->
  holds f w ->
  rotated_to f w ino nd fName (file.swapFile f fName w).
Proof.
  intros Ho Hold Hnd Hfree Hh.
  assert (Hne : fName <> Filename f).
  { intros ->. unfold node in Hfree. rewrite Hold in Hfree. simpl in Hfree. congruence. }
  unfold file.swapFile.
  destruct (Close_facts (fileWriter f) w Hh) as (Hn3 & Hi3 & Hr3 & Hnow3 & Hg3 & Hlen3 & Hc3).
  set (w3 := (Close (fileWriter f) w).2) in *. cbv zeta.
  unfold Rename. rewrite Hr3, Ho, Hn3, Hold.
  replace (node fName w3) with (node fName w) by (unfold node; by rewrite Hn3, Hi3).
  rewrite Hfree.
  set (w4 := with_names _ _).
  destruct (startLogging_fresh f w4) as (f' & w' & -> & Hfw & Hfiles & Hinodes & Hnames & Hcfg & Hsz & Hday & Hg).
  { intros c. subst w4. wsimpl. rewrite Hr3. apply Ho. }
  { subst w4. wsimpl. rewrite lookup_insert_ne by done. apply lookup_delete_eq. }
  { subst w4. wsimpl. exact Hc3. }
  subst w4. wsimpl. unfold rotated_to. cbn beta iota zeta. wsimpl.
  assert (Hino : (ino < length (inodes w))%nat) by (by eapply lookup_lt_Some).
  split; [reflexivity |].
  split. { rewrite Hnames. rewrite lookup_insert_ne by done. apply lookup_insert_eq. }
  split. { rewrite Hinodes, Hi3. by rewrite lookup_app_l. }
  split.
  { exists (length (files w3)), (length (inodes w3)).
    split; [exact Hfw |]. split.
    { unfold live. wsimpl. rewrite Hfiles. wsimpl. rewrite lookup_app_r by lia.
      rewrite Nat.sub_diag. reflexivity. }
    split; [rewrite Hi3; lia |].
    split; [rewrite Hnames; apply lookup_insert_eq |].
    rewrite Hinodes. rewrite lookup_app_r by lia. rewrite Nat.sub_diag.
    unfold fresh. wsimpl. by rewrite Hnow3. }
  split; [exact Hcfg |]. split; [exact Hsz |].
  split; [by rewrite Hday, Hnow3 |].
  by rewrite Hg, Hg3.
Qed.

Lemma chunks_dateLayout :
  time.chunks (String.length "2006-01-02") "2006-01-02" =
  [time.stdLongYear; time.Lit "-"; time.stdZeroMonth; time.Lit "-"; time.stdZeroDay].
Proof. vm_compute. reflexivity. Qed.

Lemma Format_date (t : time.Time) : time.Format t "2006-01-02" = date t.
Proof.
  unfold time.Format. rewrite chunks_dateLayout. cbn [foldr time.render].
  rewrite str_app_nil_r. reflexivity.
Qed.

Lemma sizeName_archive f t (n : nat) : file.sizeName f t (Z.of_nat n) = sizeArchive f t n.
Proof. unfold file.sizeName, sizeArchive. by rewrite Format_date, Nat2Z.id. Qed.

Lemma dayName_archive f t : file.dayName f t = dayArchive f t.
Proof. unfold file.dayName, dayArchive. by rewrite Format_date. Qed.

Lemma pickName_free f t w fName :
  (forall name, refuses w (CLstat name) = false) ->
  archive_name f t w fName ->
  exists w2, file.pickName f t w = (fName, false, w2) /\ same_disk w w2 /\ os_steps w w2.
Proof.
  intros Ho Ha. unfold file.pickName. destruct Ha as [n Hpos Hn Hex Hfree | Hpos Hfree].
  - replace (0 <? MaxSize f) with true by (symmetry; by apply Z.ltb_lt).
    destruct (probe_finds file.probes f t 1 n "" w) as (w2 & Hp & Hd & Hs);
      try done; try lia.
    { unfold file.probes. lia. }
    { intros j Hj. rewrite sizeName_archive. apply Hex. lia. }
    { by rewrite sizeName_archive. }
    change (Z.of_nat 1) with 1 in Hp. rewrite Hp. rewrite sizeName_archive. eauto.
  - replace (0 <? MaxSize f) with false by (symmetry; apply Z.ltb_ge; lia).
    rewrite dayName_archive.
    destruct (Lstat_missing w _ (Ho _) Hfree) as [e ->].
    eexists. split; [reflexivity |]. split; [by repeat split | by apply os_steps_called].
Qed.

Lemma pickName_none f t w :
  (forall name, refuses w (CLstat name) = false) ->
  no_archive_name f t w ->
  exists fName w2, file.pickName f t w = (fName, true, w2) /\ same_disk w w2 /\ os_steps w w2.
Proof.
  intros Ho Ha. unfold file.pickName. destruct Ha as [[Hpos Hex] | [Hpos [nd Hnd]]].
  - replace (0 <? MaxSize f) with true by (symmetry; by apply Z.ltb_lt).
    destruct (probe_exhausted file.probes f t 1 "" w) as (fName & w2 & Hp & Hd & Hs);
      try done; try (unfold file.probes; lia).
    { intros j Hj. rewrite sizeName_archive. apply Hex. lia. }
    change (Z.of_nat 1) with 1 in Hp. rewrite Hp. eauto.
  - replace (0 <? MaxSize f) with false by (symmetry; apply Z.ltb_ge; lia).
    rewrite dayName_archive. rewrite (Lstat_found w _ nd (Ho _) Hnd).
    eexists _, _. split; [reflexivity |]. split; [by repeat split | by apply os_steps_called].
Qed.

Lemma archive_name_same_disk f t w w' fName :
  same_disk w w' -> archive_name f t w fName -> archive_name f t w' fName.
Proof.
  intros Hd [n Hpos Hn Hex Hfree | Hpos Hfree].
  - apply by_size; try done.
    + intros k Hk. rewrite (same_disk_node w w') by done. by apply Hex.
    + by rewrite (same_disk_node w w').
  - apply by_day; [done |]. by rewrite (same_disk_node w w').
Qed.

Lemma rotated_to_from f w w2 ino nd fName r :
  now w2 = now w -> goroutines w2 = goroutines w ->
  rotated_to f w2 ino nd fName r -> rotated_to f w ino nd fName r.
Proof.
  intros Hn Hg. unfold rotated_to, fresh. destruct r as [[err f'] w'].
  by rewrite Hn, Hg.
Qed.

(** C6.  When the system refuses nothing and the live file is there,
    [doRotate] gives the live file the archive name: with a size limit
    [<base>_<YYYY-MM-DD>_<NNN><ext>] for the first [NNN] of 1..999 that
    names nothing, without one [<base>_<YYYY-MM-DD><ext>]; then the
    configured path names a new empty file, held open by the appender, the
    byte count is 0 and the day of opening is today. *)
Theorem rotation_renames_and_reopens
    (f : fileLogWriter) (t : time.Time) (w : World) (ino : nat) (nd : Inode)
    (fName : string) :
  obliging w -> names w !! Filename f = Some ino -> inodes w !! ino = Some nd ->
  holds f w -> archive_name f t w fName ->
  rotated_to f w ino nd fName (file.doRotate f t w).
Proof.
  intros Ho Hold Hnd Hh Ha. unfold file.doRotate.
  rewrite (Lstat_found w (Filename f) nd (Ho _)) by (unfold node; by rewrite Hold).
  set (w1 := called (CLstat (Filename f)) w).
  destruct (pickName_free f t w1 fName) as (w2 & -> & Hd & Hs).
  { intros name. apply Ho. }
  { apply (archive_name_same_disk f t w); [by repeat split | exact Ha]. }
  destruct Hd as (Hn2 & Hi2 & Hf2 & Hg2).
  apply (rotated_to_from f w w2); [apply Hs | exact Hg2 |].
  apply swapFile_ok.
  - apply (os_steps_obliging w1 w2 Hs). intros c. apply Ho.
  - by rewrite Hn2.
  - by rewrite Hi2.
  - destruct Ha as [n ? ? ? Hfree | ? Hfree];
      (rewrite (same_disk_node w w2) by (by repeat split)); exact Hfree.
  - intros h Hfh. rewrite Hf2. by apply Hh.
Qed.

End Rotation.

Example second_archive :
  obs.sizeArchive sample.sized sample.t0 2 = "app_2024-03-09_002.log".
Proof. vm_compute. reflexivity. Qed.

Lemma rotation_renames_and_reopens_witness :
  obs.rotated_to sample.sized sample.crowded 1
    {| os.i_dir := false; os.i_data := obs.fileLine sample.t0 "[I] started";
       os.i_mtime := time.unix sample.t0 |}
    (obs.sizeArchive sample.sized sample.t0 2)
    (file.doRotate sample.sized sample.t0 sample.crowded).
Proof.
  apply rotation_renames_and_reopens.
  - intros c. reflexivity.
  - vm_compute. reflexivity.
  - reflexivity.
  - intros h [= <-]. simpl. lia.
  - apply obs.by_size.
    + reflexivity.
    + lia.
    + intros k Hk. assert (k = 1%nat) as -> by lia. vm_compute. eauto.
    + vm_compute. reflexivity.
Defined.

(** ** One message, fanned out to the appenders *)
Section FanOut.
Import os obs.

Lemma os_steps_events w w' :
  os_steps w w' ->
  exists l, trace w' = trace w ++ map (pair (actor w)) l
            /\ Forall (fun c => quiet c = true) l.
Proof.
  intros (_ & _ & _ & _ & l & Hl & Hq). exists (map snd l). rewrite Hl. clear Hl.
  induction l as [|[a c] l IH]; [by split; [| constructor] |].
  apply Forall_cons in Hq as [[Ha Hc] Hq]. destruct (IH Hq) as [IH1 IH2].
  simpl in *. split; [| by constructor].
  apply app_inv_head in IH1. rewrite <- IH1. by rewrite Ha.
Qed.

Lemma startLogging_handle f w :
  is_Some (fileWriter f) -> is_Some (fileWriter (file.startLogging f w).1.2).
Proof.
  intros Hf. unfold file.startLogging, file.createLogFile.
  destruct (OpenFile (Filename f) w) as [[file|e] w1]; [| done].
  unfold file.initFd. cbn [fileWriter file.set_fileWriter].
  destruct (Stat _ _) as [[fi|e] w2]; simpl; eauto.
Qed.

Lemma doRotate_handle f t w :
  is_Some (fileWriter f) -> is_Some (fileWriter (file.doRotate f t w).1.2).
Proof.
  intros Hf. unfold file.doRotate.
  destruct (Lstat (Filename f) w) as [[fi|e] w1]; [| done].
  destruct (file.pickName f t w1) as [[fName errNil] w2].
  destruct errNil; [done |]. unfold file.swapFile. cbv zeta.
  destruct (Rename _ _ _) as [[e|] w4]; [done |].
  pose proof (startLogging_handle f w4 Hf) as Hs.
  destruct (file.startLogging f w4) as [[[e|] f5] w5]; exact Hs.
Qed.

Lemma file_WriteMsg_events f when msg L w :
  is_Some (fileWriter f) ->
  exists l, trace (file.WriteMsg f when msg L w).2 = trace w ++ map (pair (actor w)) l
            /\ Forall (fun c => quiet c = true) l
            /\ ((exists c, c ∈ l /\ is_output c = true) <-> L <= Level f)
            /\ (Level f < L -> l = [])
            /\ is_Some (fileWriter (file.WriteMsg f when msg L w).1.2).
Proof.
  intros Hf. destruct (Z_lt_le_dec (Level f) L) as [Hl|Hl].
  { rewrite WriteMsg_dropped by exact Hl. exists []. simpl. rewrite app_nil_r.
    split; [reflexivity |]. split; [constructor |]. split; [| done].
    split; [intros (c & Hc & _); by apply elem_of_nil in Hc | lia]. }
  assert (Hmid : exists f1 w1,
             file.WriteMsg f when msg L w = writeStep f1 (fileLine when msg) w1
             /\ os_steps w w1 /\ is_Some (fileWriter f1)).
  { destruct (Rotate f && file.needRotate f (len (fileLine when msg)) (time.Day when)) eqn:E.
    - apply andb_true_iff in E as [Hr Hn].
      rewrite WriteMsg_rotating by assumption.
      eexists _, _. split; [reflexivity |]. split; [apply reportRotate_steps |].
      pose proof (doRotate_handle f when w Hf) as Hh.
      destruct (file.doRotate f when w) as [[[e|] f1] w1]; exact Hh.
    - rewrite WriteMsg_plain by assumption.
      eexists _, _. split; [reflexivity |]. split; [apply os_steps_refl | exact Hf]. }
  destruct Hmid as (f1 & w1 & -> & Hs & [h Hh]).
  destruct (os_steps_events w w1 Hs) as (l1 & Hl1 & Hq1).
  exists (l1 ++ [CWrite h (fileLine when msg)]).
  rewrite writeStep_world, Write_trace, Hh, Hl1.
  destruct Hs as (Ha & _).
  split; [by rewrite map_app, Ha, app_assoc |].
  split; [apply Forall_app; split; [done | by repeat constructor] |].
  split; [split; [done | intros _; eexists; split; [apply elem_of_app; right; apply list_elem_of_singleton; reflexivity | done]] |].
  split; [lia |].
  unfold writeStep. destruct (Write _ _ _) as [[n|e] w2]; simpl; rewrite Hh; eauto.
Qed.

Lemma colors_in_range L : 0 <= L <= 4 -> is_Some (console.colors !! Z.to_nat L).
Proof.
  intros HL. assert (L = 0 \/ L = 1 \/ L = 2 \/ L = 3 \/ L = 4) as H by lia.
  destruct H as [-> | [-> | [-> | [-> | ->]]]]; simpl; eauto.
Qed.

Lemma console_WriteMsg_events (c : console.consoleWriter) when msg L w :
  0 <= L <= 4 -> console.writer (console.lg c) = Stdout ->
  exists l w', console.WriteMsg c when msg L w = Ok (None, w')
            /\ os_steps w w'
            /\ trace w' = trace w ++ map (pair (actor w)) l
            /\ Forall (fun c => quiet c = true) l
            /\ ((exists c, c ∈ l /\ is_output c = true) <-> L <= console.Level c)
            /\ (console.Level c < L -> l = []).
Proof.
  intros HL Hw. unfold console.WriteMsg.
  destruct (Z.ltb_spec (console.Level c) L) as [Hl|Hl].
  { exists [], w. simpl. rewrite app_nil_r.
    split; [reflexivity |]. split; [apply os_steps_refl |]. split; [reflexivity |].
    split; [constructor |]. split; [| done].
    split; [intros (x & Hx & _); by apply elem_of_nil in Hx | lia]. }
  assert (Hp : forall body, exists l w',
             console.println (console.lg c) when body w = w'
             /\ os_steps w w'
             /\ trace w' = trace w ++ map (pair (actor w)) l
             /\ Forall (fun c => quiet c = true) l
             /\ ((exists c, c ∈ l /\ is_output c = true) <-> L <= console.Level c)
             /\ (console.Level c < L -> l = [])).
  { intros body. unfold console.println. rewrite Hw.
    eexists [CStd Stdout _], _. split; [reflexivity |].
    split; [by apply Print_steps |]. split; [reflexivity |].
    split; [by repeat constructor |].
    split; [| lia]. split; [done |]. intros _. eexists. split; [apply list_elem_of_singleton; reflexivity | done]. }
  destruct (console.Colorful c).
  - destruct (Z.ltb_spec L 0) as [?|_]; [lia |].
    destruct (colors_in_range L HL) as [paint Hpaint].
    unfold console.brush in Hpaint |- *. rewrite Hpaint.
    destruct (Hp (paint msg)) as (l & w' & <- & ?). exists l. eauto.
  - destruct (Hp msg) as (l & w' & <- & ?). exists l. eauto.
Qed.

Lemma Appender_WriteMsg_events (a : logg.Appender) n when msg L w :
  0 <= L <= 4 -> opened {| logg.appender := a; logg.name := n |} ->
  exists err a' w' l,
    logg.Appender_WriteMsg a when msg L w = Ok (err, a', w')
    /\ os_steps w w'
    /\ trace w' = trace w ++ map (pair (actor w)) l
    /\ Forall (fun c => quiet c = true) l
    /\ ((exists c, c ∈ l /\ is_output c = true)
        <-> L <= floor {| logg.appender := a; logg.name := n |})
    /\ (floor {| logg.appender := a; logg.name := n |} < L -> l = [])
    /\ floor {| logg.appender := a'; logg.name := n |}
       = floor {| logg.appender := a; logg.name := n |}
    /\ opened {| logg.appender := a'; logg.name := n |}.
Proof.
  intros HL Ho. destruct a as [c|f]; unfold opened, floor in *; simpl in *.
  - destruct (console_WriteMsg_events c when msg L w HL Ho)
      as (l & w' & -> & Hs & Ht & Hq & Hiff & Hnil).
    exists None, (logg.Console c), w', l. simpl. by split_and!.
  - destruct (file_WriteMsg_events f when msg L w Ho) as (l & Ht & Hq & Hiff & Hnil & Hh).
    destruct (WriteMsg_steps f when msg L w) as [Hs Hc].
    destruct (file.WriteMsg f when msg L w) as [[e f'] w']. simpl in *.
    exists e, (logg.File f'), w', l. simpl. split_and!; try done. apply Hc.
Qed.

Lemma fanOut_fanned outs : forall i when msg L w,
  0 <= L <= 4 -> Forall opened outs ->
  exists outs' w' new,
    logg.fanOut i outs when msg L w = Ok (outs', w')
    /\ trace w' = trace w ++ new
    /\ fanned (MWriteMsg when msg L) L i outs new
    /\ Forall2 (fun a a' => logg.name a' = logg.name a /\ floor a' = floor a) outs outs'
    /\ Forall opened outs'
    /\ kept w w'
    /\ (actor w = None -> actor w' = None).
Proof.
  induction outs as [|[a n] outs IH]; intros i when msg L w HL Hop.
  { exists [], w, []. simpl. rewrite app_nil_r.
    split_and!; try done; constructor. }
  apply Forall_cons in Hop as [Ha Hop]. cbn [logg.fanOut logg.appender logg.name].
  set (w0 := called (CInvoke (MWriteMsg when msg L)) (with_actor (Some i) w)).
  destruct (Appender_WriteMsg_events a n when msg L w0 HL Ha)
    as (err & a' & w1 & l & -> & Hs & Ht & Hq & Hiff & Hnil & Hfl & Ho').
  cbn [bindR].
  set (w3 := match err with Some e => _ | None => _ end).
  assert (Hw3 : exists errs, trace w3 = trace w1 ++ errs
                  /\ Forall (fun e => e.1 = None /\ quiet e.2 = true) errs
                  /\ kept w1 w3 /\ actor w3 = None).
  { subst w3. destruct err as [e|].
    - eexists [(None, _)]. split; [reflexivity |]. split; [by repeat constructor |]. done.
    - exists []. split; [by rewrite app_nil_r |]. split; [constructor | done]. }
  destruct Hw3 as (errs & Hte & Hqe & Hk3 & Ha3).
  destruct (IH (S i) when msg L w3 HL Hop)
    as (outs' & w' & rest & -> & Htr & Hf & Hn & Hopd & Hk & Hact).
  cbn [bindR fst snd].
  eexists _, w', _. split; [reflexivity |].
  split.
  { rewrite Htr, Hte, Ht. subst w0. wsimpl. rewrite <- !app_assoc. reflexivity. }
  split; [by constructor |].
  split; [constructor; [done | exact Hn] |].
  split; [constructor; [exact Ho' | exact Hopd] |].
  split.
  { destruct Hs as (_ & H1 & H2 & H3 & _). destruct Hk3 as (H4 & H5 & H6).
    destruct Hk as (H7 & H8 & H9). subst w0. wsimpl.
    unfold kept. split; [congruence | split; congruence]. }
  intros _. by apply Hact.
Qed.
End FanOut.

(** ** The two level gates (C1) *)
Section Gates.
Import os obs.



Lemma journal_app a b : journal (a ++ b) = journal a ++ journal b.
Proof. unfold journal. apply omap_app. Qed.

Lemma journal_quiet a l :
  Forall (fun c => quiet c = true) l -> journal (map (pair a) l) = [].
Proof.
  induction 1 as [|c l Hc _ IH]; [reflexivity |].
  simpl. unfold journal in *. simpl. destruct a; destruct c; try done.
Qed.

Lemma journal_errs errs :
  Forall (fun e => e.1 = None /\ quiet e.2 = true) errs -> journal errs = [].
Proof.
  induction 1 as [|[a c] l [Ha Hc] _ IH]; [reflexivity |].
  simpl in *. subst a. unfold journal in *. simpl. exact IH.
Qed.

Lemma fanned_journal m L i outs new :
  fanned m L i outs new -> journal new = map (fun j => (j, m)) (seq i (length outs)).
Proof.
  induction 1 as [|i a outs l errs rest Hq Hiff Hnil Herrs Hf IH]; [reflexivity |].
  change (journal ([(Some i, CInvoke m)] ++ map (pair (Some i)) l ++ errs ++ rest)
          = (i, m) :: map (fun j => (j, m)) (seq (S i) (length outs))).
  rewrite !journal_app, (journal_quiet _ _ Hq), (journal_errs _ Herrs), IH. reflexivity.
Qed.

Lemma withCaller_ok log msg w :
  3 <= len msg -> exists msg', logg.withCaller log msg w = Ok msg'.
Proof.
  intros Hl. unfold logg.withCaller. destruct (logg.enableFuncCallDepth log); [| eauto].
  destruct (match callers w _ with Some fl => fl | None => _ end) as [file line].
  destruct (Z.ltb_spec (len msg) 3); [lia | eauto].
Qed.

Lemma logAt_sync lv tag log text w :
  0 <= lv <= 4 -> 3 <= len tag -> logg.async log = false ->
  Forall opened (logg.appenders log) ->
  exists log' w' new,
    logg.logAt lv tag log text w = Ok (log', w', [])
    /\ trace w' = trace w ++ new
    /\ (logg.level log < lv -> log' = log /\ w' = w /\ new = [])
    /\ (lv <= logg.level log ->
        exists msg outs',
          logg.withCaller log (tag +:+ text) w = Ok msg
          /\ log' = logg.set_appenders outs' log
          /\ fanned (MWriteMsg (now w) msg lv) lv 0 (logg.appenders log) new
          /\ Forall2 (fun a a' => logg.name a' = logg.name a /\ floor a' = floor a)
                     (logg.appenders log) outs'
          /\ Forall opened outs')
    /\ kept w w' /\ (actor w = None -> actor w' = None).
Proof.
  intros Hlv Htag Hsync Hop. unfold logg.logAt.
  destruct (Z.ltb_spec (logg.level log) lv) as [Hgate|Hgate].
  { exists log, w, []. rewrite app_nil_r. split_and!; try done. lia. }
  unfold logg.writeMsg.
  destruct (withCaller_ok log (tag +:+ text) w) as [msg Hmsg].
  { rewrite len_app. pose proof (len_nonneg text). lia. }
  rewrite Hmsg. cbn [bindR]. rewrite Hsync. unfold logg.writeToAppender.
  destruct (fanOut_fanned (logg.appenders log) 0 (now w) msg lv w Hlv Hop)
    as (outs' & w' & new & -> & Ht & Hf & Hn & Hopd & Hk & Hact).
  cbn [bindR fst snd].
  eexists _, w', new. split; [reflexivity |]. split; [exact Ht |].
  split; [lia |]. split; [| done].
  intros _. exists msg, outs'. by split_and!.
Qed.

Lemma leveled_cases emit L :
  (emit, L) ∈ leveled -> exists tag, emit = logg.logAt L tag /\ 3 <= len tag /\ 0 <= L <= 4.
Proof.
  unfold leveled. rewrite !elem_of_cons, elem_of_nil.
  intros [[= -> ->] | [[= -> ->] | [[= -> ->] | [[= -> ->] | [[= -> ->] | []]]]]];
    eexists; (split; [reflexivity |]); vm_compute; split_and!; discriminate.
Qed.



End Gates.


(** ** A rotation that fails (C7) *)
Section RotationFails.
Import os obs.

Lemma doRotate_failure f t w nd :
  (forall name, refuses w (CLstat name) = false) ->
  node (Filename f) w = Some nd -> holds f w -> rotation_fails f t w ->
  exists e w1,
    file.doRotate f t w = (Some e, f, w1)
    /\ kept w w1 /\ actor w1 = actor w
    /\ ((e = "Rotate: can not find free log number to rename " +:+ Filename f +:+ nl
         /\ live (fileWriter f) w1 = live (fileWriter f) w)
        \/ ((exists e', e = "Rotate: rename error " +:+ e'
                        \/ e = "Rotate: startLogging error " +:+ e')
            /\ live (fileWriter f) w1 = None)).
Proof.
  intros Hl Hnd Hh Hfail. unfold file.doRotate.
  rewrite (Lstat_found w (Filename f) nd (Hl _) Hnd).
  set (w1 := called (CLstat (Filename f)) w).
  assert (Hd1 : same_disk w w1) by (by repeat split).
  destruct Hfail as [Hno | [(fName & Ha & Hren) | (fName & Ha & Hren & Hopen)]].
  - destruct (pickName_none f t w1) as (fName & w2 & -> & Hd & Hs).
    { intros name. apply Hl. }
    { destruct Hno as [[Hpos Hex] | [Hpos Hex]]; [left | right]; (split; [done |]);
        [intros k Hk; rewrite (same_disk_node w w1) by done; by apply Hex
        | by rewrite (same_disk_node w w1)]. }
    destruct Hd as (_ & _ & Hf2 & _).
    eexists _, _. split; [reflexivity |].
    split; [destruct Hs as (_ & ? & ? & ? & _); by repeat split |].
    split; [apply Hs |]. left. split; [reflexivity |].
    unfold live. by rewrite Hf2.
  - destruct (pickName_free f t w1 fName) as (w2 & -> & Hd & Hs).
    { intros name. apply Hl. }
    { by apply (archive_name_same_disk f t w). }
    unfold file.swapFile. cbv zeta.
    assert (Hh2 : holds f w2).
    { destruct Hd as (_ & _ & Hf2 & _). intros h Hfh. rewrite Hf2. by apply Hh. }
    destruct (Close_facts (fileWriter f) w2 Hh2) as (Hn3 & Hi3 & Hr3 & Hnow3 & _ & _ & Hc3).
    pose proof (Close_steps (fileWriter f) w2) as (Ha3 & _ & _ & Hcl3 & _).
    set (w3 := (Close (fileWriter f) w2).2) in *.
    unfold Rename. rewrite Hr3.
    destruct Hs as (Ha2 & Hnow2 & Hr2 & Hcl2 & _). rewrite Hr2. subst w1. wsimpl. rewrite Hren.
    eexists _, _. split; [reflexivity |]. wsimpl.
    split; [unfold kept; wsimpl; split_and!; congruence |].
    split; [congruence |]. right. split; [eauto |].
    unfold live. wsimpl. destruct (fileWriter f) as [h|]; [| done].
    destruct (Hc3 h eq_refl) as [i ->]. done.
  - destruct (pickName_free f t w1 fName) as (w2 & -> & Hd & Hs).
    { intros name. apply Hl. }
    { by apply (archive_name_same_disk f t w). }
    unfold file.swapFile. cbv zeta.
    assert (Hh2 : holds f w2).
    { destruct Hd as (_ & _ & Hf2 & _). intros h Hfh. rewrite Hf2. by apply Hh. }
    destruct (Close_facts (fileWriter f) w2 Hh2) as (Hn3 & Hi3 & Hr3 & Hnow3 & _ & _ & Hc3).
    pose proof (Close_steps (fileWriter f) w2) as (Ha3 & _ & _ & Hcl3 & _).
    set (w3 := (Close (fileWriter f) w2).2) in *.
    destruct Hs as (Ha2 & Hnow2 & Hr2 & Hcl2 & _). destruct Hd as (Hn2 & Hi2 & _).
    assert (Hrefuses : refuses w3 = refuses w).
    { rewrite Hr3, Hr2. reflexivity. }
    unfold node in Hnd. destruct (names w !! Filename f) as [ino|] eqn:Hino; [| done].
    simpl in Hnd.
    assert (Hfree : node fName w3 = None).
    { destruct Ha as [n ? ? ? Hfree | ? Hfree]; unfold node in *;
        rewrite Hn3, Hi3, Hn2, Hi2; exact Hfree. }
    unfold Rename. rewrite Hrefuses, Hren, Hn3, Hn2. subst w1. wsimpl.
    rewrite Hino, Hfree.
    unfold file.startLogging, file.createLogFile, OpenFile. wsimpl.
    rewrite Hrefuses, Hopen.
    eexists _, _. split; [reflexivity |]. wsimpl.
    split; [unfold kept; wsimpl; split_and!; congruence |].
    split; [congruence |]. right. split; [eauto |].
    unfold live. wsimpl. destruct (fileWriter f) as [h|]; [| done].
    destruct (Hc3 h eq_refl) as [i ->]. done.
Qed.

Lemma logAt_async lv tag log text w :
  3 <= len tag -> logg.async log = true -> logg.logMsgPool log = true ->
  logg.logAt lv tag log text w = Ok (log, w, [])
  \/ exists msg,
       logg.withCaller log (tag +:+ text) w = Ok msg
       /\ lv <= logg.level log
       /\ logg.logAt lv tag log text w
          = Ok (log, w, [logg.ASendMsg {| logg.lm_level := lv; logg.lm_msg := msg;
                                          logg.lm_when := now w |}]).
Proof.
  intros Htag Ha Hp. unfold logg.logAt.
  destruct (Z.ltb_spec (logg.level log) lv) as [Hgate|Hgate]; [by left | right].
  destruct (withCaller_ok log (tag +:+ text) w) as [msg Hmsg].
  { rewrite len_app. pose proof (len_nonneg text). lia. }
  exists msg. split; [exact Hmsg |]. split; [exact Hgate |].
  unfold logg.writeMsg. rewrite Hmsg. cbn [bindR]. by rewrite Ha, Hp.
Qed.


End RotationFails.


(** ** The stamp on every line (C9) *)
Section StampedLines.
Import os obs.

Lemma WriteMsg_last f when msg L w :
  L <= Level f -> is_Some (fileWriter f) ->
  exists tr h,
    fileWriter (file.WriteMsg f when msg L w).1.2 = Some h
    /\ trace (file.WriteMsg f when msg L w).2
       = tr ++ [(actor w, CWrite h (fileLine when msg))].
Proof.
  intros Hl Hf.
  assert (Hmid : exists f1 w1,
             file.WriteMsg f when msg L w = writeStep f1 (fileLine when msg) w1
             /\ os_steps w w1 /\ is_Some (fileWriter f1)).
  { destruct (Rotate f && file.needRotate f (len (fileLine when msg)) (time.Day when)) eqn:E.
    - apply andb_true_iff in E as [Hr Hn].
      rewrite WriteMsg_rotating by assumption.
      eexists _, _. split; [reflexivity |]. split; [apply reportRotate_steps |].
      pose proof (doRotate_handle f when w Hf) as Hh.
      destruct (file.doRotate f when w) as [[[e|] f1] w1]; exact Hh.
    - rewrite WriteMsg_plain by assumption.
      eexists _, _. split; [reflexivity |]. split; [apply os_steps_refl | exact Hf]. }
  destruct Hmid as (f1 & w1 & -> & (Ha & _) & [h Hh]).
  exists (trace w1), h. rewrite writeStep_world, Write_trace, Hh, Ha. split; [| done].
  unfold writeStep. destruct (Write _ _ _) as [[n|e] w2]; simpl; exact Hh.
Qed.

(** C9.  The layout [2006-01-02 15:03:04] renders the date, the hour on
    the 24-hour clock, the hour on the 12-hour clock and the minute; the
    seconds of the instant are not in it.  Every line the console prints,
    and every line the file appender writes, is that stamp, the message
    and a newline. *)
Theorem stamp_has_no_seconds :
  (forall t,
      time.Format t stampLayout
      = strconv.pad 4 (time.year t) +:+ "-" +:+ strconv.pad 2 (time.month t) +:+ "-"
          +:+ strconv.pad 2 (time.day t) +:+ " " +:+ strconv.pad 2 (time.hour t) +:+ ":"
          +:+ strconv.pad 2 (time.hour12 t) +:+ ":" +:+ strconv.pad 2 (time.minute t))
  /\ (forall t t',
         time.year t = time.year t' -> time.month t = time.month t' ->
         time.day t = time.day t' -> time.hour t = time.hour t' ->
         time.minute t = time.minute t' ->
         time.Format t stampLayout = time.Format t' stampLayout)
  /\ (forall c when msg L w,
         0 <= L <= 4 -> L <= console.Level c ->
         exists body,
           console.WriteMsg c when msg L w
           = Ok (None, Print (console.writer (console.lg c))
                         (time.Format when stampLayout +:+ body +:+ nl) w)
           /\ (console.Colorful c = false -> body = msg))
  /\ (forall f when msg L w,
         L <= Level f -> is_Some (fileWriter f) ->
         exists tr h,
           trace (file.WriteMsg f when msg L w).2
           = tr ++ [(actor w, CWrite h (fileLine when msg))])
  /\ (forall when msg,
         fileLine when msg = time.Format when stampLayout +:+ msg +:+ nl).
Proof.
  split; [apply Format_stampLayout |]. split.
  { intros t t' Hy Hm Hd Hh Hmin. rewrite !Format_stampLayout.
    unfold time.hour12. by rewrite Hy, Hm, Hd, Hh, Hmin. }
  split.
  - intros c when msg L w HL Hl. unfold console.WriteMsg, console.println.
    destruct (Z.ltb_spec (console.Level c) L) as [?|_]; [lia |].
    destruct (console.Colorful c).
    + destruct (Z.ltb_spec L 0) as [?|_]; [lia |].
      destruct (colors_in_range L HL) as [paint Hpaint].
      unfold console.brush in Hpaint |- *. rewrite Hpaint.
      exists (paint msg). split; [reflexivity | discriminate].
    + exists msg. split; [reflexivity | done].
  - split; [| reflexivity]. intros f when msg L w Hl Hf.
    destruct (WriteMsg_last f when msg L w Hl Hf) as (tr & h & _ & Ht).
    exists tr, h. exact Ht.
Qed.

End StampedLines.

Lemma stamp_has_no_seconds_witness :
  time.Format sample.t0 stampLayout = "2024-03-09 17:05:04"
  /\ exists tr h,
       os.trace (file.WriteMsg sample.sized sample.t0 "[I] hello" 3 sample.disk).2
       = tr ++ [(os.actor sample.disk,
                 os.CWrite h (obs.fileLine sample.t0 "[I] hello"))].
Proof.
  destruct stamp_has_no_seconds as (H1 & _ & _ & H4 & _).
  split; [rewrite H1; vm_compute; reflexivity |].
  apply H4; [simpl; lia | by eexists].
Defined.

(** ** Registering an appender with a logger (C5) *)
Section SetAppenderErrors.
Context `{rt : Runtime}.
Import os obs.

Lemma existsb_console log appenderName :
  String.eqb appenderName "console"
  && existsb (fun a => String.eqb (logg.name a) appenderName) (logg.appenders log) = true
  <-> appenderName = "console" /\ console_taken log.
Proof.
  rewrite andb_true_iff, String.eqb_eq, existsb_exists. unfold console_taken.
  split.
  - intros [-> (a & Ha & Hn)]. split; [done |]. exists a.
    split; [by apply list_elem_of_In | by apply String.eqb_eq].
  - intros [-> (a & Ha & Hn)]. split; [done |]. exists a.
    split; [by apply list_elem_of_In | by apply String.eqb_eq].
Qed.

(** C5.  [SetAppender] returns an error exactly when the name is
    [console] and the list already has an appender of that name, or the
    name is not in the table of constructors, or [Init] of the new appender
    returns an error; then the logger is as it was.  Otherwise the new
    appender goes to the end of the list.  No other name is looked for in
    the list: with a constructor and an [Init] that succeeds, a name other
    than [console] is added again each time. *)
Theorem SetAppender_fails_exactly
    (appenderMap : gmap string logg.createAppender) (log : logg.BaseLogger)
    (appenderName config : string) (w : World) :
  let '(err, log', w') := logg.SetAppender appenderMap log appenderName config w in
  (is_Some err
   <-> (appenderName = "console" /\ console_taken log)
       \/ appenderMap !! appenderName = None
       \/ exists mk, appenderMap !! appenderName = Some mk
                     /\ is_Some (logg.Appender_Init config (mk tt) (initWorld log config w)).1.1)
  /\ (is_Some err -> log' = log)
  /\ (err = None ->
      exists mk, appenderMap !! appenderName = Some mk
                 /\ logg.appenders log'
                    = logg.appenders log
                        ++ [{| logg.appender :=
                                 (logg.Appender_Init config (mk tt) (initWorld log config w)).1.2;
                               logg.name := appenderName |}])
  /\ (appenderName <> "console" ->
      forall mk, appenderMap !! appenderName = Some mk ->
                 (logg.Appender_Init config (mk tt) (initWorld log config w)).1.1 = None ->
                 err = None /\ length (logg.appenders log') = S (length (logg.appenders log))).
Proof.
  unfold logg.SetAppender.
  destruct (String.eqb appenderName "console" && existsb _ _) eqn:Hdup.
  { apply existsb_console in Hdup. split_and!.
    - split; [by left | by eexists].
    - done.
    - discriminate.
    - intros Hne. by destruct Hdup. }
  assert (Hnd : ~ (appenderName = "console" /\ console_taken log)).
  { rewrite <- existsb_console, Hdup. discriminate. }
  destruct (appenderMap !! appenderName) as [mk|] eqn:Hreg.
  2:{ split_and!.
      - split; [by right; left | by eexists].
      - done.
      - discriminate.
      - intros _ mk [=]. }
  fold (initWorld log config w).
  destruct (logg.Appender_Init config (mk tt) (initWorld log config w)) as [[err out'] w1] eqn:Hinit.
  destruct err as [e|]; cbn [fst snd].
  - split_and!.
    + split; [| by eexists]. intros _. right; right. exists mk.
      split; [done |]. rewrite Hinit. by eexists.
    + done.
    + discriminate.
    + intros _ mk' [= <-]. rewrite Hinit. discriminate.
  - split_and!.
    + split; [by intros [? [=]] |].
      intros [? | [[=] | (mk' & [= <-] & Hf)]]; [done |].
      rewrite Hinit in Hf. by destruct Hf.
    + by intros [? [=]].
    + intros _. exists mk. split; [done |]. by rewrite Hinit.
    + intros _ mk' [= <-] _. split; [done |]. simpl. rewrite length_app. simpl. lia.
Qed.
End SetAppenderErrors.

Lemma SetAppender_fails_exactly_witness :
  (@logg.SetAppender sample.runtime sample.registry sample.logger "file" "other.log"
     sample.disk).1.1 = None
  /\ length (logg.appenders
               (@logg.SetAppender sample.runtime sample.registry sample.logger "file"
                  "other.log" sample.disk).1.2) = 3%nat.
Proof.
  pose proof (@SetAppender_fails_exactly sample.runtime sample.registry sample.logger
                "file" "other.log" sample.disk) as H.
  destruct (@logg.SetAppender sample.runtime sample.registry sample.logger "file"
              "other.log" sample.disk) as [[err log'] w'].
  destruct H as (_ & _ & _ & H4).
  destruct (H4 ltac:(discriminate) (@logg.newFileAppender)) as [H5 H6].
  - vm_compute. reflexivity.
  - vm_compute. reflexivity.
  - split; [exact H5 | exact H6].
Defined.

(** ** A synchronous run that ends with [Close] (C3) *)
Section SyncRun.
Context `{rt : Runtime}.
Import os obs.

Lemma run_app a : forall b s,
  logg.run (a ++ b) s
  = match logg.run a s with
    | logg.Next s' => logg.run b s'
    | logg.Crash p => logg.Crash p
    end.
Proof.
  induction a as [|mv a IH]; intros b s; [reflexivity |].
  simpl. destruct (logg.move mv s) as [[s'|p]|]; [apply IH | reflexivity | apply IH].
Qed.

Lemma journal_os_steps w w' : os_steps w w' -> journal (trace w') = journal (trace w).
Proof.
  intros (_ & _ & _ & _ & l & -> & Hq). rewrite journal_app.
  replace (journal l) with (@nil (nat * Method)); [by rewrite app_nil_r |].
  symmetry. induction Hq as [|[a c] l [_ Hc] _ IH]; [reflexivity |].
  simpl in Hc. unfold journal in *. simpl.
  destruct a, c; try discriminate Hc; exact IH.
Qed.

Lemma Appender_Flush_steps a w : os_steps w (logg.Appender_Flush a w).
Proof. destruct a; simpl; [apply os_steps_refl | apply Sync_steps]. Qed.

Lemma Appender_Destroy_steps a w : os_steps w (logg.Appender_Destroy a w).
Proof. destruct a; simpl; [apply os_steps_refl | apply Close_steps]. Qed.

Lemma flushAll_journal outs : forall i w,
  journal (trace (logg.flushAll i outs w))
  = journal (trace w) ++ map (fun j => (j, MFlush)) (seq i (length outs))
  /\ kept w (logg.flushAll i outs w).
Proof.
  induction outs as [|a outs IH]; intros i w.
  { simpl. by rewrite app_nil_r. }
  cbn [logg.flushAll]. 
  set (w0 := called (CInvoke MFlush) (with_actor (Some i) w)).
  pose proof (Appender_Flush_steps (logg.appender a) w0) as Hs.
  destruct (IH (S i) (with_actor None (logg.Appender_Flush (logg.appender a) w0))) as [Hj Hk].
  split.
  - rewrite Hj. wsimpl. rewrite (journal_os_steps _ _ Hs). subst w0. wsimpl.
    rewrite journal_app. simpl. by rewrite <- app_assoc.
  - destruct Hs as (_ & H1 & H2 & H3 & _). destruct Hk as (H4 & H5 & H6).
    revert H4 H5 H6. wsimpl. intros. subst w0. revert H1 H2 H3. wsimpl. intros.
    unfold kept. split_and!; congruence.
Qed.

Lemma destroyAll_journal outs : forall i w,
  journal (trace (logg.destroyAll i outs w))
  = journal (trace w) ++ map (fun j => (j, MDestroy)) (seq i (length outs))
  /\ kept w (logg.destroyAll i outs w).
Proof.
  induction outs as [|a outs IH]; intros i w.
  { simpl. by rewrite app_nil_r. }
  cbn [logg.destroyAll]. 
  set (w0 := called (CInvoke MDestroy) (with_actor (Some i) w)).
  pose proof (Appender_Destroy_steps (logg.appender a) w0) as Hs.
  destruct (IH (S i) (with_actor None (logg.Appender_Destroy (logg.appender a) w0))) as [Hj Hk].
  split.
  - rewrite Hj. wsimpl. rewrite (journal_os_steps _ _ Hs). subst w0. wsimpl.
    rewrite journal_app. simpl. by rewrite <- app_assoc.
  - destruct Hs as (_ & H1 & H2 & H3 & _). destruct Hk as (H4 & H5 & H6).
    revert H4 H5 H6. wsimpl. intros. subst w0. revert H1 H2 H3. wsimpl. intros.
    unfold kept. split_and!; congruence.
Qed.


Lemma withCaller_same log log' w w' msg :
  logg.enableFuncCallDepth log' = logg.enableFuncCallDepth log ->
  logg.loggerFuncCallDepth log' = logg.loggerFuncCallDepth log ->
  callers w' = callers w ->
  logg.withCaller log' msg w' = logg.withCaller log msg w.
Proof. intros H1 H2 H3. unfold logg.withCaller. by rewrite H1, H2, H3. Qed.

Lemma admitted_same log log' w w' t op :
  logg.level log' = logg.level log ->
  logg.enableFuncCallDepth log' = logg.enableFuncCallDepth log ->
  logg.loggerFuncCallDepth log' = logg.loggerFuncCallDepth log ->
  callers w' = callers w ->
  admitted log' w' t op = admitted log w t op.
Proof.
  intros H0 H1 H2 H3. unfold admitted, rendering.
  destruct (emit_parts op) as [[[lv tag] text]|]; [| reflexivity].
  by rewrite H0, (withCaller_same log log' w w' _ H1 H2 H3).
Qed.

Lemma emit_enter op lv tag text rest s :
  emit_parts op = Some (lv, tag, text) ->
  logg.enter op rest s
  = logg.outcome s rest (logg.workers s) (logg.logAt lv tag (logg.log s) text (logg.world s))
  /\ 0 <= lv <= 4 /\ 3 <= len tag.
Proof.
  destruct op; intros [= <- <- <-]; (split; [reflexivity | split; [done | by vm_compute]]).
Qed.

Lemma set_appenders_same log : logg.set_appenders (logg.appenders log) log = log.
Proof. by destruct log. Qed.

Lemma emits_run calls : forall log w rest sch reg,
  logg.async log = false -> Forall opened (logg.appenders log) ->
  Forall (fun c => is_Some (emit_parts c.2)) calls ->
  exists outs' w',
    logg.run (flat_map (fun c => [logg.MClock c.1; logg.MCaller]) calls ++ sch)
      {| logg.log := log; logg.world := w; logg.script := map snd calls ++ rest;
         logg.pending := []; logg.workers := 0; logg.appenderMap := reg |}
    = logg.run sch
        {| logg.log := logg.set_appenders outs' log; logg.world := w'; logg.script := rest;
           logg.pending := []; logg.workers := 0; logg.appenderMap := reg |}
    /\ length outs' = length (logg.appenders log) /\ Forall opened outs'
    /\ callers w' = callers w
    /\ journal (trace w')
       = journal (trace w)
         ++ handed (length (logg.appenders log))
                   (flat_map (fun c => admitted log w c.1 c.2) calls).
Proof.
  induction calls as [|[t op] calls IH]; intros log w rest sch reg Hsync Hop Hem.
  { exists (logg.appenders log), w. simpl. rewrite set_appenders_same, app_nil_r. done. }
  apply Forall_cons in Hem as [[[[lv tag] text] Hparts] Hem]. simpl in Hparts.
  cbn [flat_map app map snd fst logg.run logg.move logg.pending logg.script
       logg.log logg.world logg.workers logg.appenderMap].
  destruct (emit_enter op lv tag text (map snd calls ++ rest)
              {| logg.log := log; logg.world := with_now t w;
                 logg.script := op :: map snd calls ++ rest;
                 logg.pending := []; logg.workers := 0; logg.appenderMap := reg |} Hparts)
    as (-> & Hlv & Htag).
  cbn [logg.log logg.world logg.workers].
  destruct (logAt_sync lv tag log text (with_now t w) Hlv Htag Hsync Hop)
    as (log' & w1 & new & -> & Htr & Hdrop & Hpass & Hk & _).
  cbn [logg.outcome logg.appenderMap].
  assert (Hstep : exists outs1, log' = logg.set_appenders outs1 log
            /\ length outs1 = length (logg.appenders log) /\ Forall opened outs1
            /\ journal new = handed (length (logg.appenders log)) (admitted log w t op)).
  { unfold admitted, rendering. rewrite Hparts.
    destruct (Z.leb_spec lv (logg.level log)) as [Hle | Hgt].
    - destruct (Hpass Hle) as (msg & outs1 & Hmsg & -> & Hf & Hn & Ho).
      exists outs1. split; [done |]. split; [symmetry; by eapply Forall2_length |].
      split; [done |].
      rewrite (withCaller_same log log w (with_now t w) _ eq_refl eq_refl eq_refl) in Hmsg.
      rewrite Hmsg.
      revert Hf. wsimpl. intros Hf. rewrite (fanned_journal _ _ _ _ _ Hf).
      simpl. by rewrite app_nil_r.
    - destruct (Hdrop Hgt) as (-> & _ & ->). exists (logg.appenders log).
      rewrite set_appenders_same. done. }
  destruct Hstep as (outs1 & -> & Hlen & Ho1 & Hj).
  destruct (IH (logg.set_appenders outs1 log) w1 rest sch reg Hsync Ho1 Hem)
    as (outs' & w' & -> & Hlen' & Ho' & Hc' & Hj').
  exists outs', w'. split; [reflexivity |].
  cbn [logg.set_appenders logg.appenders] in Hlen', Hj'.
  split; [congruence |]. split; [done |].
  destruct Hk as (_ & _ & Hc1). revert Hc1. wsimpl. intros Hc1.
  split; [congruence |].
  rewrite Hj', Htr, journal_app, Hj, Hlen. rewrite <- !app_assoc. f_equal.
  unfold handed. rewrite !flat_map_app. f_equal. f_equal.
  apply flat_map_ext. intros c. by apply admitted_same.
Qed.


Lemma seq_pick_write i t m l n : forall a,
  omap (fun e : nat * Method =>
          match e with
          | (j, MWriteMsg t m l) => if decide (j = i) then Some (t, m, l) else None
          | _ => None
          end) (map (fun j => (j, MWriteMsg t m l)) (seq a n))
  = if decide (a <= i < a + n)%nat then [(t, m, l)] else [].
Proof.
  induction n as [|n IH]; intros a.
  { simpl. destruct (decide _); [lia | reflexivity]. }
  change (map (fun j => (j, MWriteMsg t m l)) (seq a (S n)))
    with ([(a, MWriteMsg t m l)] ++ map (fun j => (j, MWriteMsg t m l)) (seq (S a) n)).
  rewrite omap_app, IH. simpl.
  repeat destruct (decide _); try lia; reflexivity.
Qed.

Lemma seq_pick_other i (m : Method) n a :
  (forall t msg l, m <> MWriteMsg t msg l) ->
  omap (fun e : nat * Method =>
          match e with
          | (j, MWriteMsg t m l) => if decide (j = i) then Some (t, m, l) else None
          | _ => None
          end) (map (fun j => (j, m)) (seq a n)) = [].
Proof.
  intros Hm. revert a. induction n as [|n IH]; intros a; [reflexivity |].
  change (map (fun j => (j, m)) (seq a (S n)))
    with ([(a, m)] ++ map (fun j => (j, m)) (seq (S a) n)).
  rewrite omap_app, IH. destruct m; try reflexivity. by destruct (Hm when msg level).
Qed.

Lemma received_handed i k ms :
  (i < k)%nat ->
  omap (fun e : nat * Method =>
          match e with
          | (j, MWriteMsg t m l) => if decide (j = i) then Some (t, m, l) else None
          | _ => None
          end) (handed k ms) = ms.
Proof.
  intros Hi. induction ms as [|[[t m] l] ms IH]; [reflexivity |].
  unfold handed in *. cbn [flat_map]. rewrite omap_app, IH. unfold each.
  rewrite seq_pick_write. destruct (decide _); [reflexivity | lia].
Qed.

Lemma Close_sync log w :
  synchronous log ->
  exists log2,
    logg.Close log w
    = Ok (log2, logg.destroyAll 0 (logg.appenders log) (logg.flushAll 0 (logg.appenders log) w), [])
    /\ logg.appenders log2 = [] /\ logg.async log2 = false
    /\ logg.queue (logg.msgChan log2) = []
    /\ logg.closed (logg.msgChan log2) = true
    /\ logg.closed (logg.singalChan log2) = true.
Proof.
  intros (Hsync & Hq & Hc1 & Hc2).
  unfold logg.Close, logg.flush. rewrite Hsync, Hq. cbn [logg.drain bindR fst snd].
  unfold logg.closeChans, logg.close.
  cbn [logg.set_appenders logg.msgChan logg.singalChan logg.set_msgChan].
  rewrite Hc1. cbn [bindR]. rewrite Hc2. cbn [bindR].
  eexists. split; [reflexivity |]. cbn. by rewrite Hsync, Hq.
Qed.

(** C3. A single caller makes the calls [calls] of leveled methods on a
    synchronous logger, each at its instant, and then calls [Close]: the
    run ends with both calls returned; the appender methods called are,
    for each message the threshold of the logger admits and in the order
    of the calls, [WriteMsg] on every appender in turn, then [Flush] on
    every appender, then [Destroy] once on every appender; every appender
    was handed exactly the admitted messages in the order of the calls,
    all of them when every level is within the threshold; the list of
    appenders is empty afterwards. *)
Theorem sync_emits_then_Close
    (reg : gmap string logg.createAppender) (log : logg.BaseLogger) (w : World)
    (calls : list (time.Time * logg.Op)) :
  synchronous log -> Forall opened (logg.appenders log) ->
  Forall (fun c => is_Some (emit_parts c.2)) calls ->
  let k := length (logg.appenders log) in
  let ms := flat_map (fun c => admitted log w c.1 c.2) calls in
  exists s',
    logg.run (in_turn calls)
      {| logg.log := log; logg.world := w; logg.script := map snd calls ++ [logg.OpClose];
         logg.pending := []; logg.workers := 0; logg.appenderMap := reg |}
    = logg.Next s'
    /\ logg.script s' = [] /\ logg.pending s' = []
    /\ journal (trace (logg.world s'))
       = journal (trace w) ++ handed k ms ++ each k MFlush ++ each k MDestroy
    /\ (forall i, (i < k)%nat ->
          received i (trace (logg.world s')) = received i (trace w) ++ ms)
    /\ logg.appenders (logg.log s') = []
    /\ ((forall c lv tag text, c ∈ calls -> emit_parts c.2 = Some (lv, tag, text) ->
           lv <= logg.level log) -> length ms = length calls).
Proof.
  intros (Hsync & Hq & Hc1 & Hc2) Hop Hem k ms. unfold in_turn.
  destruct (emits_run calls log w [logg.OpClose] [logg.MCaller] reg Hsync Hop Hem)
    as (outs' & w' & -> & Hlen & Ho' & _ & Hj).
  cbn [logg.run logg.move logg.pending logg.script logg.enter logg.log logg.world
       logg.workers].
  destruct (Close_sync (logg.set_appenders outs' log) w')
    as (log2 & -> & Happ & _); [by split_and! |].
  cbn [logg.outcome logg.appenders logg.set_appenders].
  eexists. split; [reflexivity |].
  cbn [logg.script logg.pending logg.world logg.log].
  assert (Hjournal : journal (trace (logg.destroyAll 0 outs' (logg.flushAll 0 outs' w')))
                     = journal (trace w) ++ handed k ms ++ each k MFlush ++ each k MDestroy).
  { rewrite (proj1 (destroyAll_journal outs' 0 _)), (proj1 (flushAll_journal outs' 0 _)), Hj.
    rewrite Hlen. unfold each. fold k. fold ms. by rewrite <- !app_assoc. }
  split_and!; try done.
  - intros i Hi. unfold received. rewrite Hjournal, !omap_app.
    rewrite (received_handed i k ms Hi). unfold each.
    rewrite !seq_pick_other by discriminate. by rewrite !app_nil_r.
  - intros Hall. subst ms. clear -Hem Hall.
    induction calls as [|[t op] calls IH]; [reflexivity |].
    apply Forall_cons in Hem as [[[[lv tag] text] Hparts] Hem]. simpl in Hparts.
    cbn [flat_map]. rewrite length_app. cbn [length]. rewrite IH; [| done |].
    + unfold admitted. cbn [fst snd]. rewrite Hparts.
      destruct (Z.leb_spec lv (logg.level log)) as [_ | Hgt]; [reflexivity |].
      pose proof (Hall (t, op) lv tag text ltac:(left) Hparts). lia.
    + intros c lv' tag' text' Hin. apply Hall. by right.
Qed.

End SyncRun.

Lemma sync_emits_then_Close_witness :
  exists s',
    @logg.run sample.runtime (obs.in_turn sample.calls)
      {| logg.log := sample.logger; logg.world := sample.disk;
         logg.script := map snd sample.calls ++ [logg.OpClose];
         logg.pending := []; logg.workers := 0; logg.appenderMap := sample.registry |}
    = logg.Next s'
    /\ logg.appenders (logg.log s') = []
    /\ obs.received 1 (os.trace (logg.world s'))
       = [(sample.t0, "[I][main.go:42] up", 3); (sample.t0, "[E][main.go:42] down", 1)].
Proof.
  destruct (@sync_emits_then_Close sample.runtime sample.registry sample.logger sample.disk
              sample.calls) as (s' & H1 & _ & _ & _ & H2 & H3 & _).
  - by vm_compute.
  - constructor; [reflexivity | constructor; [by eexists | constructor]].
  - repeat constructor; by eexists.
  - exists s'. split; [exact H1 |]. split; [exact H3 |].
    rewrite (H2 1%nat); [| vm_compute; lia]. vm_compute. reflexivity.
Defined.

(** ** [Close] called twice (C10) *)
Section CloseTwice.
Context `{rt : Runtime}.
Import os obs.

Lemma run_invariant (I : logg.Sys -> Prop) (bad : PanicKind -> Prop) :
  (forall mv s, I s -> match logg.move mv s with
                       | Some (logg.Next s') => I s'
                       | Some (logg.Crash p) => bad p
                       | None => True
                       end) ->
  forall sch s, I s -> match logg.run sch s with
                       | logg.Next s' => I s'
                       | logg.Crash p => bad p
                       end.
Proof.
  intros Hstep sch. induction sch as [|mv sch IH]; intros s Hs; [exact Hs |].
  simpl. pose proof (Hstep mv s Hs) as Hmv.
  destruct (logg.move mv s) as [[s'|p]|]; [by apply IH | exact Hmv | by apply IH].
Qed.

Lemma closing_step mv s :
  closing s ->
  match logg.move mv s with
  | Some (logg.Next s') => closing s' /\ logg.async (logg.log s') = logg.async (logg.log s)
  | Some (logg.Crash p) => p = second_Close_panic (logg.log s)
  | None => True
  end.
Proof.
  destruct s as [[lv en dp [mc mq mcl] outs asy pool [sc sq scl] n] w scr pend nw reg].
  unfold closing, stage_of, second_Close_panic. cbn. intros [-> H].
  destruct asy.
  - destruct H as [Hcap H]. unfold stages_async in H.
    repeat (apply elem_of_cons in H as [H | H]); try (by apply elem_of_nil in H);
      injection H as -> -> -> -> -> -> ->;
      destruct mv; cbn; try done.
    all: try (destruct (goroutines w); cbn; [done |]).
    all: try (split; [| done]; split; [done |]; split; [done |]; unfold stages_async; set_solver).
    all: try (destruct sc as [|sc]; [lia |]; cbn).
    all: try (split; [| done]; split; [done |]; split; [lia |]; unfold stages_async; set_solver).
  - unfold stages_sync in H.
    repeat (apply elem_of_cons in H as [H | H]); try (by apply elem_of_nil in H);
      injection H as -> -> -> -> ->;
      destruct mv; cbn; try done.
    all: try (destruct (goroutines w); cbn; [done |]).
    all: try (split; [| done]; split; [done |]; unfold stages_sync; set_solver).
Qed.

Lemma closing_not_returned s :
  closing s ->
  ~ returned s
  /\ (between s -> logg.closed (logg.msgChan (logg.log s)) = true
                  /\ logg.closed (logg.singalChan (logg.log s)) = true).
Proof.
  unfold closing, returned, between, stage_of. intros [_ H].
  destruct (logg.async (logg.log s)).
  - destruct H as [_ H]. unfold stages_async in H.
    repeat (apply elem_of_cons in H as [H | H]); try (by apply elem_of_nil in H);
      injection H as -> -> _ _ _ -> ->; (split; [by intros [? ?] | by intros [? ?]]).
  - unfold stages_sync in H.
    repeat (apply elem_of_cons in H as [H | H]); try (by apply elem_of_nil in H);
      injection H as -> -> _ -> ->; (split; [by intros [? ?] | by intros [? ?]]).
Qed.

Lemma twice_closing reg log w :
  synchronous log \/ asynchronous log -> closing (twice reg log w).
Proof.
  unfold closing, twice, stage_of. cbn.
  intros [(Ha & Hq & Hc1 & Hc2) | (Ha & _ & Hwg & Hq & Hc1 & Hq2 & Hc2 & Hcap)];
    rewrite Ha, Hq; (split; [done |]).
  - rewrite Hc1, Hc2. unfold stages_sync. set_solver.
  - rewrite Hwg, Hq2, Hc1, Hc2. split; [done |]. unfold stages_async. set_solver.
Qed.

(** C10. A caller calls [Close] twice on a logger that is synchronous, or
    asynchronous with its goroutine at the [select]: whatever the
    schedule, the second call never returns, both channels are closed
    once the first has returned, and the only panic there can be is, on
    a synchronous logger, the closing of the closed message channel, and
    on an asynchronous one the sending of the token on the closed signal
    channel; the schedule that lets every goroutine go as far as it can
    ends in that panic. *)
Theorem second_Close_panics
    (reg : gmap string logg.createAppender) (log : logg.BaseLogger) (w : World) :
  synchronous log \/ asynchronous log ->
  (forall sch,
     match logg.run sch (twice reg log w) with
     | logg.Crash p => p = second_Close_panic log
     | logg.Next s' =>
         ~ returned s'
         /\ (between s' -> logg.closed (logg.msgChan (logg.log s')) = true
                          /\ logg.closed (logg.singalChan (logg.log s')) = true)
     end)
  /\ logg.run (straight log) (twice reg log w) = logg.Crash (second_Close_panic log).
Proof.
  intros Hlog. split.
  - intros sch.
    pose proof (run_invariant
                  (fun s => closing s /\ logg.async (logg.log s) = logg.async log)
                  (fun p => p = second_Close_panic log)) as Hrun.
    specialize (Hrun ltac:(intros mv s [Hs Ha]; pose proof (closing_step mv s Hs) as Hmv;
                            destruct (logg.move mv s) as [[s'|p]|]; [| | done];
                            [destruct Hmv as [? Ha']; split; [done | congruence]
                            | unfold second_Close_panic in *; by rewrite <- Ha])
                     sch (twice reg log w) (conj (twice_closing reg log w Hlog) eq_refl)).
    destruct (logg.run sch (twice reg log w)) as [s'|p]; [| exact Hrun].
    apply closing_not_returned, Hrun.
  - unfold straight, second_Close_panic, twice.
    destruct log as [lv en dp [mc mq mcl] outs asy pool [sc sq scl] n].
    destruct Hlog as [(Ha & Hq & Hc1 & Hc2) | (Ha & _ & Hwg & Hq & Hc1 & Hq2 & Hc2 & Hcap)];
      cbn in *; subst; [reflexivity |].
    destruct sc as [|sc]; [lia | reflexivity].
Qed.
End CloseTwice.

Lemma second_Close_panics_witness :
  @logg.run sample.runtime [logg.MCaller; logg.MCaller]
    (obs.twice sample.registry sample.logger sample.disk) = logg.Crash CloseOfClosedChannel.
Proof.
  apply (proj2 (@second_Close_panics sample.runtime sample.registry sample.logger
                  sample.disk ltac:(left; by vm_compute))).
Defined.

(** The claim as it is worded fails on an asynchronous logger: the second
    [Close] panics when it sends on the closed signal channel, before it
    comes to close a channel. *)
Lemma second_Close_async_counterexample :
  obs.asynchronous sample.worker
  /\ @logg.run sample.runtime (obs.straight sample.worker)
       (obs.twice sample.registry sample.worker sample.disk)
     = logg.Crash SendOnClosedChannel
  /\ SendOnClosedChannel <> CloseOfClosedChannel.
Proof.
  split; [| split; [vm_compute; reflexivity | discriminate]].
  unfold obs.asynchronous. cbn. split_and!; try reflexivity. lia.
Qed.

(** ** The sweep of old archives (C8) *)
Section Sweep.
Import os obs.





End Sweep.


(** ** Tokens and the messages before them (C4) *)
Section Traces.
Import os obs.

Lemma received_app i a b : received i (a ++ b) = received i a ++ received i b.
Proof. unfold received. by rewrite journal_app, omap_app. Qed.

Lemma sends_app a b : sends (a ++ b) = sends a ++ sends b.
Proof. unfold sends. apply omap_app. Qed.

Lemma calm_silent l :
  Forall (fun e => calm e = true) l -> sends l = [] /\ forall i, received i l = [].
Proof.
  induction 1 as [|[a c] l Hc _ [IH1 IH2]]; [done |].
  change ((a, c) :: l) with ([(a, c)] ++ l).
  split; [rewrite sends_app, IH1 | intros i; rewrite received_app, IH2];
    unfold calm in Hc; simpl in Hc; destruct a, c; try destruct m; try done.
Qed.

Lemma quiet_calm (l : list (option nat * Call)) :
  Forall (fun e => quiet e.2 = true) l -> Forall (fun e => calm e = true) l.
Proof.
  intros H. eapply Forall_impl; [exact H |]. intros [a c] Hq. simpl in Hq. by destruct c.
Qed.

Lemma quiet_no_token (l : list (option nat * Call)) :
  Forall (fun e => quiet e.2 = true) l -> Forall (fun e => is_token e = false) l.
Proof.
  intros H. eapply Forall_impl; [exact H |]. intros [[a|] c] Hq; simpl in Hq; by destruct c.
Qed.

Lemma os_steps_quiet w w' :
  os_steps w w' -> exists l, trace w' = trace w ++ l /\ Forall (fun e => quiet e.2 = true) l.
Proof.
  intros (_ & _ & _ & _ & l & Hl & Hq). exists l. split; [done |].
  eapply Forall_impl; [exact Hq |]. by intros e [_ ?].
Qed.






End Traces.

Section AsyncRun.
Context `{rt : Runtime}.
Import os obs.

Lemma fanned_plain t msg L i outs new :
  fanned (MWriteMsg t msg L) L i outs new ->
  sends new = [] /\ Forall (fun e => is_token e = false) new.
Proof.
  induction 1 as [|i a outs l errs rest Hq Hiff Hnil Herrs Hf [IH1 IH2]]; [done |].
  assert (Hl : Forall (fun e : option nat * Call => quiet e.2 = true) (map (pair (Some i)) l)).
  { apply Forall_fmap. eapply Forall_impl; [exact Hq |]. done. }
  assert (He : Forall (fun e : option nat * Call => quiet e.2 = true) errs).
  { eapply Forall_impl; [exact Herrs |]. by intros e [_ ?]. }
  split.
  - change (sends ([(Some i, CInvoke (MWriteMsg t msg L))] ++ map (pair (Some i)) l
                   ++ errs ++ rest) = []).
    rewrite !sends_app, IH1.
    rewrite (proj1 (calm_silent _ (quiet_calm _ Hl))).
    by rewrite (proj1 (calm_silent _ (quiet_calm _ He))).
  - constructor; [done |]. apply Forall_app. split; [by apply quiet_no_token |].
    apply Forall_app. split; [by apply quiet_no_token | done].
Qed.

Lemma fanned_received t msg L outs new j :
  fanned (MWriteMsg t msg L) L 0 outs new -> (j < length outs)%nat ->
  received j new = [(t, msg, L)].
Proof.
  intros Hf Hj. unfold received. rewrite (fanned_journal _ _ _ _ _ Hf), seq_pick_write.
  destruct (decide _); [done | lia].
Qed.

Lemma writeToAppender_ok l t msg L w :
  0 <= L <= 4 -> Forall opened (logg.appenders l) ->
  exists outs' w' new,
    logg.writeToAppender l t msg L w = Ok (logg.set_appenders outs' l, w')
    /\ trace w' = trace w ++ new
    /\ length outs' = length (logg.appenders l) /\ Forall opened outs'
    /\ sends new = [] /\ Forall (fun e => is_token e = false) new
    /\ forall j, (j < length (logg.appenders l))%nat -> received j new = [(t, msg, L)].
Proof.
  intros HL Hop. unfold logg.writeToAppender.
  destruct (fanOut_fanned (logg.appenders l) 0 t msg L w HL Hop)
    as (outs' & w' & new & -> & Htr & Hf & Hn & Ho & _).
  exists outs', w', new. cbn [bindR fst snd].
  destruct (fanned_plain _ _ _ _ _ _ Hf) as [Hs Htok].
  split_and!; try done.
  - symmetry. by eapply Forall2_length.
  - intros j Hj. by eapply fanned_received.
Qed.

Lemma drain_ok q : forall l w,
  Forall (fun m => 0 <= logg.lm_level m <= 4) q ->
  Forall opened (logg.appenders l) -> logg.logMsgPool l = true ->
  exists l' w' new,
    logg.drain q l w = Ok (l', w')
    /\ same_but_queue l l'
    /\ logg.queue (logg.msgChan l')
       = match q with [] => logg.queue (logg.msgChan l) | _ => [] end
    /\ trace w' = trace w ++ new
    /\ sends new = [] /\ Forall (fun e => is_token e = false) new
    /\ forall j, (j < length (logg.appenders l))%nat -> received j new = map msg_of q.
Proof.
  induction q as [|m q IH]; intros l w Hlv Hop Hpool.
  { exists l, w, []. simpl. rewrite app_nil_r. unfold same_but_queue. by split_and!. }
  apply Forall_cons in Hlv as [Hm Hlv]. cbn [logg.drain].
  set (l0 := logg.set_msgChan (logg.with_queue q (logg.msgChan l)) l).
  destruct (writeToAppender_ok l0 (logg.lm_when m) (logg.lm_msg m) (logg.lm_level m) w Hm Hop)
    as (outs1 & w1 & new1 & -> & Htr1 & Hlen1 & Ho1 & Hs1 & Htok1 & Hr1).
  cbn [bindR fst snd]. unfold logg.poolPut.
  cbn [logg.logMsgPool logg.set_appenders]. subst l0. cbn [logg.set_msgChan logg.logMsgPool].
  rewrite Hpool. cbn [bindR].
  destruct (IH (logg.set_appenders outs1
                  (logg.set_msgChan (logg.with_queue q (logg.msgChan l)) l)) w1 Hlv Ho1 Hpool)
    as (l' & w' & new & -> & Hsame & Hq & Htr & Hs & Htok & Hr).
  exists l', w', (new1 ++ new). split; [done |].
  split.
  { unfold same_but_queue in *. cbn in Hsame. cbn in Hlen1.
    destruct Hsame as (? & ? & ? & ? & ? & ? & ? & ? & ? & ? & ?). split_and!; congruence. }
  split.
  { rewrite Hq. cbn. by destruct q. }
  split; [by rewrite Htr, Htr1, app_assoc |].
  split; [by rewrite sends_app, Hs1, Hs |].
  split; [by apply Forall_app |].
  intros j Hj. rewrite received_app, Hr1, Hr; [done | | done].
  cbn. cbn in Hlen1. lia.
Qed.

Lemma flushAll_calm outs : forall i w,
  exists new, trace (logg.flushAll i outs w) = trace w ++ new
              /\ Forall (fun e => calm e = true) new.
Proof.
  induction outs as [|a outs IH]; intros i w.
  { exists []. simpl. by rewrite app_nil_r. }
  cbn [logg.flushAll].
  set (w0 := called (CInvoke MFlush) (with_actor (Some i) w)).
  destruct (os_steps_quiet _ _ (Appender_Flush_steps (logg.appender a) w0)) as (l & Hl & Hq).
  destruct (IH (S i) (with_actor None (logg.Appender_Flush (logg.appender a) w0)))
    as (new & -> & Hnew).
  exists ((Some i, CInvoke MFlush) :: l ++ new). wsimpl. rewrite Hl. subst w0. wsimpl.
  split; [by rewrite <- !app_assoc |].
  constructor; [done |]. apply Forall_app. split; [by apply quiet_calm | done].
Qed.


Lemma visit_steps f p w : os_steps w (file.visit (file.deleteOldLogFn f) p w).
Proof.
  unfold file.visit, file.deleteOldLogFn.
  destruct (info_of <$> node p w) as [info|]; [| apply Print_steps].
  destruct (negb (IsDir info) && _); [| apply os_steps_refl].
  destruct (strings.HasPrefix _ _ && _); [apply Remove_steps | apply os_steps_refl].
Qed.

Lemma deleteOldLog_steps f w : os_steps w (file.deleteOldLog f w).
Proof.
  unfold file.deleteOldLog. destruct (MaxDays f <=? 0); [apply os_steps_refl |].
  unfold file.Walk.
  assert (Hfold : forall ps w0, os_steps w w0 ->
            os_steps w (foldl (fun w' p => file.visit (file.deleteOldLogFn f) p w') w0 ps)).
  { induction ps as [|p ps IH]; intros w0 H0; [done |]. simpl. apply IH.
    eapply os_steps_trans; [exact H0 | apply visit_steps]. }
  destruct (node _ w) as [nd|]; [| apply visit_steps].
  destruct (i_dir nd); [| apply visit_steps]. apply Hfold, visit_steps.
Qed.







Lemma flush_ok l w :
  Forall (fun m => 0 <= logg.lm_level m <= 4) (logg.queue (logg.msgChan l)) ->
  Forall opened (logg.appenders l) -> logg.logMsgPool l = true ->
  exists l' w' D F,
    logg.flush l w = Ok (l', w')
    /\ same_but_queue l l' /\ logg.queue (logg.msgChan l') = []
    /\ trace w' = trace w ++ D ++ F
    /\ sends D = [] /\ Forall (fun e => is_token e = false) D
    /\ (forall j, (j < length (logg.appenders l))%nat ->
          received j D = map msg_of (logg.queue (logg.msgChan l)))
    /\ Forall (fun e => calm e = true) F.
Proof.
  intros Hlv Hop Hpool. unfold logg.flush.
  destruct (drain_ok (logg.queue (logg.msgChan l)) l w Hlv Hop Hpool)
    as (l' & w' & D & -> & Hsame & Hq & Htr & Hs & Htok & Hr).
  cbn [bindR fst snd].
  destruct (flushAll_calm (logg.appenders l') 0 w') as (F & HF & Hcalm).
  exists l', (logg.flushAll 0 (logg.appenders l') w'), D, F.
  split; [done |]. split; [done |].
  split; [rewrite Hq; by destruct (logg.queue (logg.msgChan l)) |].
  split; [by rewrite HF, Htr, app_assoc |]. done.
Qed.











End AsyncRun.


(** ** Calls on a logger that was closed *)
Section AfterClose.
Import os obs.

(** X1. Once [Close] has returned on a synchronous logger, a call of a
    leveled method returns normally and does nothing at all: the list of
    appenders is nil, so the message reaches none, and neither the
    logger nor the world changes. *)
Theorem leveled_call_after_sync_Close
    (emit : logg.BaseLogger -> string -> World -> logg.Returns) (lv : Z)
    (log : logg.BaseLogger) (w : World) :
  (emit, lv) ∈ leveled -> synchronous log ->
  exists log2 w2,
    logg.Close log w = Ok (log2, w2, [])
    /\ forall text w', emit log2 text w' = Ok (log2, w', []).
Proof.
  intros Hin Hsync.
  destruct (Close_sync log w Hsync) as (log2 & HClose & Happ & Hasync & _).
  exists log2, (logg.destroyAll 0 (logg.appenders log) (logg.flushAll 0 (logg.appenders log) w)).
  split; [exact HClose |]. intros text w'.
  destruct (leveled_cases emit lv Hin) as (tag & -> & Htag & Hlv).
  unfold logg.logAt. destruct (logg.level log2 <? lv); [reflexivity |].
  unfold logg.writeMsg.
  destruct (withCaller_ok log2 (tag +:+ text) w') as [msg ->].
  { rewrite len_app. pose proof (len_nonneg text). lia. }
  cbn [bindR]. rewrite Hasync. unfold logg.writeToAppender. rewrite Happ. cbn.
  rewrite <- Happ. by rewrite set_appenders_same.
Qed.

(** X2. On an asynchronous logger whose channels are closed, as [Close]
    leaves them, every call that sends panics at its send: a leveled
    call that the threshold admits at the send of its message, [Flush]
    and [Close] at the send of their token. *)
Theorem calls_after_async_Close
    (emit : logg.BaseLogger -> string -> World -> logg.Returns) (lv : Z)
    (log : logg.BaseLogger) (text : string) (w : World) (nworkers : nat) :
  (emit, lv) ∈ leveled -> lv <= logg.level log ->
  logg.async log = true -> logg.logMsgPool log = true ->
  logg.closed (logg.msgChan log) = true -> logg.closed (logg.singalChan log) = true ->
  (exists m, emit log text w = Ok (log, w, [logg.ASendMsg m])
             /\ logg.perform (logg.ASendMsg m) nworkers log w = Some (Panic SendOnClosedChannel))
  /\ (exists rest, logg.Flush log w = Ok (log, w, logg.ASendSignal "flush" :: rest)
                   /\ logg.perform (logg.ASendSignal "flush") nworkers log w
                      = Some (Panic SendOnClosedChannel))
  /\ (exists rest, logg.Close log w = Ok (log, w, logg.ASendSignal "close" :: rest)
                   /\ logg.perform (logg.ASendSignal "close") nworkers log w
                      = Some (Panic SendOnClosedChannel)).
Proof.
  intros Hin Hle Hasync Hpool Hc1 Hc2. split; [| split].
  - destruct (leveled_cases emit lv Hin) as (tag & -> & Htag & Hlv).
    destruct (logAt_async lv tag log text w Htag Hasync Hpool)
      as [Hdrop | (msg & _ & _ & ->)].
    + unfold logg.logAt in Hdrop. destruct (Z.ltb_spec (logg.level log) lv); [lia |].
      unfold logg.logAt. destruct (Z.ltb_spec (logg.level log) lv); [lia |].
      unfold logg.writeMsg in *.
      destruct (logg.withCaller log (tag +:+ text) w); cbn [bindR] in *; [| discriminate Hdrop].
      rewrite Hasync, Hpool in Hdrop. discriminate Hdrop.
    + eexists. split; [reflexivity |]. cbn [logg.perform]. by rewrite Hc1.
  - unfold logg.Flush. rewrite Hasync. eexists. split; [reflexivity |].
    cbn [logg.perform]. by rewrite Hc2.
  - unfold logg.Close. rewrite Hasync. eexists. split; [reflexivity |].
    cbn [logg.perform]. by rewrite Hc2.
Qed.

Lemma leveled_call_after_sync_Close_witness :
  exists log2 w2,
    logg.Close sample.logger sample.disk = Ok (log2, w2, [])
    /\ logg.Info log2 "late" w2 = Ok (log2, w2, []).
Proof.
  destruct (leveled_call_after_sync_Close logg.Info 3 sample.logger
              sample.disk) as (log2 & w2 & H1 & H2).
  - unfold leveled. rewrite !elem_of_cons. right; right; right; left. reflexivity.
  - by vm_compute.
  - exists log2, w2. split; [exact H1 | apply H2].
Defined.

Lemma calls_after_async_Close_witness :
  logg.perform (logg.ASendSignal "flush") 0 sample.shut sample.disk
  = Some (Panic SendOnClosedChannel).
Proof.
  destruct (calls_after_async_Close logg.Info 3 sample.shut "late"
              sample.disk 0) as (_ & (rest & _ & H) & _).
  - unfold leveled. rewrite !elem_of_cons. right; right; right; left. reflexivity.
  - cbn. lia.
  - reflexivity.
  - reflexivity.
  - reflexivity.
  - reflexivity.
  - exact H.
Defined.
End AfterClose.

(** ** [Async] called twice *)
Section AsyncTwice.
Context `{rt : Runtime}.
Import os obs.

Lemma started_twice_step mv s :
  started_twice s ->
  match logg.move mv s with
  | Some (logg.Next s') => started_twice s'
  | Some (logg.Crash p) => False
  | None => True
  end.
Proof.
  destruct s as [[lv en dp [mc mq mcl] outs asy pool [sc sq scl] n] w scr pend nw reg].
  unfold started_twice, stage2_of. cbn. intros (-> & -> & -> & Hcap & H).
  unfold stages_twice in H.
  repeat (apply elem_of_cons in H as [H | H]); try (by apply elem_of_nil in H);
    injection H as -> -> -> -> -> ->;
    destruct mv; cbn; try done.
  all: try (destruct (goroutines w); cbn; [done |]).
  all: try (split_and!; try done; unfold stages_twice; set_solver).
  all: try (destruct sc as [|sc]; [lia |]; cbn).
  all: try (split_and!; try done; try lia; unfold stages_twice; set_solver).
Qed.

(** X3. [Async] is not idempotent.  Called twice, it starts two
    goroutines and leaves the WaitGroup at 2; the one token of [Flush]
    is taken by one of them, the counter stops at 1, and whatever the
    schedule the call of [Flush] never returns (and nothing panics).
    After a single [Async] the call returns, with the counter at 1. *)
Theorem Async_twice_blocks_Flush
    (reg : gmap string logg.createAppender) (log : logg.BaseLogger) (w : World) :
  unstarted log ->
  (forall sch,
     match logg.run sch (process reg log w [logg.OpAsync; logg.OpAsync; logg.OpFlush]) with
     | logg.Crash _ => False
     | logg.Next s' => ~ returned s'
     end)
  /\ exists s', logg.run flush_once (process reg log w [logg.OpAsync; logg.OpFlush])
                = logg.Next s'
                /\ returned s' /\ logg.wg (logg.log s') = 1.
Proof.
  intros ((Ha & Hq & Hc1 & Hc2) & Hwg & Hsq & Hcap). split.
  - intros sch.
    pose proof (run_invariant started_twice (fun _ => False) started_twice_step sch
                  (process reg log w [logg.OpAsync; logg.OpAsync; logg.OpFlush])) as Hrun.
    destruct (logg.run sch _) as [s'|p].
    + destruct Hrun as (_ & _ & _ & _ & Hst).
      * unfold started_twice, stage2_of, process. cbn. rewrite Ha, Hq, Hc1, Hc2, Hwg, Hsq.
        split_and!; try done. unfold stages_twice. set_solver.
      * unfold stage2_of, stages_twice in Hst. intros [Hs Hp].
        rewrite Hs, Hp in Hst.
        repeat (apply elem_of_cons in Hst as [Hst | Hst]); try (by apply elem_of_nil in Hst);
          discriminate Hst.
    + apply Hrun. unfold started_twice, stage2_of, process. cbn.
      rewrite Ha, Hq, Hc1, Hc2, Hwg, Hsq. split_and!; try done.
      unfold stages_twice. set_solver.
  - unfold flush_once, process.
    destruct log as [lv en dp [mc mq mcl] outs asy pool [sc sq scl] n].
    cbn in *. subst. destruct sc as [|sc]; [lia |].
    vm_compute. eexists. split; [reflexivity |]. split; [split; reflexivity | reflexivity].
Qed.

End AsyncTwice.

Lemma Async_twice_blocks_Flush_witness :
  exists s',
    @logg.run sample.runtime obs.flush_once
      (obs.process sample.registry sample.logger sample.disk [logg.OpAsync; logg.OpFlush])
    = logg.Next s'
    /\ obs.returned s' /\ logg.wg (logg.log s') = 1.
Proof.
  apply (proj2 (@Async_twice_blocks_Flush sample.runtime sample.registry sample.logger
                  sample.disk ltac:(unfold obs.unstarted, obs.synchronous; cbn; split_and!;
                                    try reflexivity; lia))).
Defined.

(** ** A call of [Flush] that goes through *)
Section FlushReturns.
Context `{rt : Runtime}.
Import os obs.

(** X4. [Flush] on an asynchronous logger between two calls, with
    whatever messages are still in the channel: on the schedule where
    the goroutine takes the token next, the call returns; the channel is
    empty then, each appender was handed exactly the messages that were
    in the channel, in their order, nothing was sent, and the logger is
    ready for the next call. *)
Theorem Flush_delivers_and_returns
    (reg : gmap string logg.createAppender) (log : logg.BaseLogger) (w : World)
    (rest : list logg.Op) :
  ready log -> Forall opened (logg.appenders log) ->
  Forall (fun m => 0 <= logg.lm_level m <= 4) (logg.queue (logg.msgChan log)) ->
  exists s' new,
    logg.run flush_through
      {| logg.log := log; logg.world := w; logg.script := logg.OpFlush :: rest;
         logg.pending := []; logg.workers := 1; logg.appenderMap := reg |}
    = logg.Next s'
    /\ logg.script s' = rest /\ logg.pending s' = [] /\ logg.workers s' = 1%nat
    /\ ready (logg.log s')
    /\ logg.queue (logg.msgChan (logg.log s')) = []
    /\ trace (logg.world s') = trace w ++ new
    /\ sends new = []
    /\ forall i, (i < length (logg.appenders log))%nat ->
         received i new = map msg_of (logg.queue (logg.msgChan log)).
Proof.
  intros (Ha & Hp & Hwg & Hc1 & Hsq & Hc2 & Hcap) Hop Hlv.
  unfold flush_through.
  cbn [logg.run logg.move logg.pending logg.script logg.enter logg.log logg.world
       logg.workers logg.appenderMap].
  unfold logg.Flush. rewrite Ha.
  cbn [logg.outcome logg.run logg.move logg.pending logg.script logg.log logg.world
       logg.workers logg.appenderMap logg.perform].
  rewrite Hc2, Hsq.
  destruct (Nat.ltb_spec (length (@nil string)) (logg.cap (logg.singalChan log)))
    as [_ | Hno]; [| simpl in Hno; lia].
  cbn [logg.run logg.move logg.pending logg.script logg.log logg.world
       logg.workers logg.appenderMap Nat.ltb Nat.leb app].
  unfold logg.caseSignal.
  cbn [logg.set_singalChan logg.singalChan logg.with_queue logg.queue logg.closed].
  set (l1 := logg.set_singalChan _ _).
  assert (Hq1 : logg.queue (logg.msgChan l1) = logg.queue (logg.msgChan log)) by done.
  destruct (flush_ok l1 w ltac:(by rewrite Hq1) Hop Hp)
    as (l' & w' & D & F & Hflush & Hsame & Hq' & Htr' & Hs & Htok & Hr & Hcalm).
  destruct Hsame as (E1 & E2 & E3 & E4 & E5 & E6 & E7 & E8 & E9 & E10 & E11).
  cbn in E4, E5, E6, E7, E8, E9, E10.
  unfold logg.onSignal. rewrite Hflush. cbn [bindR fst snd String.eqb Ascii.eqb Bool.eqb].
  unfold logg.wgAdd. rewrite E7, Hwg.
  change (1 + -1 <? 0) with false. change (1 + -1) with 0.
  cbn [bindR logg.run logg.move logg.pending logg.script logg.log logg.world
       logg.workers logg.appenderMap logg.perform logg.wg logg.set_wg].
  change (0 =? 0) with true.
  cbn [bindR logg.run logg.move logg.pending logg.script logg.log logg.world
       logg.workers logg.appenderMap logg.perform logg.wg logg.set_wg].
  unfold logg.wgAdd. cbn [logg.wg logg.set_wg].
  change (0 + 1 <? 0) with false. change (0 + 1) with 1.
  cbn [bindR logg.run logg.move logg.pending logg.script logg.log logg.world
       logg.workers logg.appenderMap].
  eexists _, (D ++ F). split; [reflexivity |].
  cbn. destruct (calm_silent F Hcalm) as [HsF HrF].
  split_and!; try done.
  - unfold ready. cbn. rewrite E4, E5, E6, E9. cbn. by split_and!.
  - by rewrite sends_app, Hs, HsF.
  - intros i Hi. rewrite received_app, HrF, app_nil_r. by apply Hr.
Qed.

End FlushReturns.

Lemma Flush_delivers_and_returns_witness :
  exists s' new,
    @logg.run sample.runtime obs.flush_through
      {| logg.log := sample.busy; logg.world := sample.disk;
         logg.script := [logg.OpFlush]; logg.pending := []; logg.workers := 1;
         logg.appenderMap := sample.registry |}
    = logg.Next s'
    /\ logg.queue (logg.msgChan (logg.log s')) = []
    /\ obs.received 1 new = [(sample.t0, "[I] up", 3)].
Proof.
  destruct (@Flush_delivers_and_returns sample.runtime sample.registry sample.busy
              sample.disk [])
    as (s' & new & H1 & _ & _ & _ & _ & Hq & _ & _ & Hr).
  - unfold obs.ready. cbn. split_and!; try reflexivity. lia.
  - constructor; [reflexivity | constructor; [by eexists | constructor]].
  - constructor; [cbn; lia | constructor].
  - exists s', new. split; [exact H1 |]. split; [exact Hq |].
    exact (Hr 1%nat ltac:(cbn; lia)).
Defined.

(** ** The console appender *)
Section ConsoleAppender.
Context `{rt : Runtime}.
Import os obs.

Lemma len_zero (s : string) : len s = 0 <-> s = "".
Proof. unfold len. destruct s; simpl; split; intros H; try done; lia. Qed.

(** X5. [Init] of a console appender fresh from its constructor: it
    writes to standard output afterwards, whatever the configuration;
    the empty configuration is not decoded and changes nothing, so the
    level stays at [LevelDebug]; on windows the appender is never
    colourful, whatever the configuration says. *)
Theorem console_Init_keeps_stdout (config : string) :
  let c := console.newConsoleAppender in
  let '(err, c') := console.Init config c in
  console.writer (console.lg c') = Stdout
  /\ (config = "" -> err = None /\ c' = c /\ console.Level c' = logg.LevelDebug)
  /\ (GOOS_windows = true -> console.Colorful c' = false).
Proof.
  unfold console.Init, console.newConsoleAppender.
  destruct (Z.eqb_spec (len config) 0) as [H0 | Hn0].
  - cbn. split; [done |]. split; [done |]. intros ->. done.
  - destruct (unmarshal_console config _) as [[lv col] err]. cbn.
    split; [done |]. split.
    + intros ->. by destruct Hn0.
    + intros ->. done.
Qed.

(** X6. [WriteMsg] of the console appender never returns an error.  It
    panics exactly when the message is within the level, the appender is
    colourful and the level is no index of [colors] (below 0 or above
    4).  Otherwise a message above the level leaves the world as it is,
    and one within the level is printed once on the appender's stream:
    the stamp, the message in the colour of its level, a newline. *)
Theorem console_WriteMsg_outcomes (c : console.consoleWriter) (when : time.Time)
    (msg : string) (L : Z) (w : World) :
  match console.WriteMsg c when msg L w with
  | Panic p => p = IndexOutOfRange /\ off_palette c L
  | Ok (err, w') =>
      err = None /\ ~ off_palette c L
      /\ (console.Level c < L -> w' = w)
      /\ (L <= console.Level c ->
          w' = Print (console.writer (console.lg c))
                     (time.Format when stampLayout +:+ painted c L msg +:+ nl) w)
  end.
Proof.
  unfold console.WriteMsg, off_palette, painted, console.println.
  destruct (Z.ltb_spec (console.Level c) L) as [Hgt | Hle].
  { split; [done |]. split; [lia |]. split; [done | lia]. }
  destruct (console.Colorful c) eqn:Hcol.
  2:{ split; [done |]. split; [by intros (_ & ? & _) |]. split; [lia | done]. }
  destruct (Z.ltb_spec L 0) as [Hneg | Hpos].
  { split; [done |]. split_and!; [done | done | lia]. }
  destruct (Z_le_gt_dec L 4) as [H4 | H4].
  - destruct (colors_in_range L ltac:(lia)) as [paint Hp].
    unfold console.brush in *. rewrite Hp.
    split; [done |]. split; [intros (_ & _ & ?); lia |]. split; [lia | done].
  - assert (Hnone : console.colors !! Z.to_nat L = None).
    { apply lookup_ge_None. simpl. lia. }
    unfold console.brush in *. rewrite Hnone. split; [done |]. split_and!; [done | done | lia].
Qed.
End ConsoleAppender.

Lemma console_Init_keeps_stdout_witness :
  (@console.Init sample.runtime "" (@console.newConsoleAppender sample.runtime)).1 = None
  /\ console.Level (@console.Init sample.runtime "" (@console.newConsoleAppender sample.runtime)).2
     = logg.LevelDebug.
Proof.
  pose proof (@console_Init_keeps_stdout sample.runtime "") as H. cbv zeta in H.
  destruct (@console.Init sample.runtime "" (@console.newConsoleAppender sample.runtime))
    as [err c'].
  destruct H as (_ & H & _). destruct (H eq_refl) as (H1 & _ & H3).
  split; [exact H1 | exact H3].
Defined.

Lemma console_WriteMsg_outcomes_witness :
  console.WriteMsg sample.console_errors sample.t0 "[D] x" 7 sample.disk
  = Ok (None, sample.disk).
Proof.
  pose proof (console_WriteMsg_outcomes sample.console_errors sample.t0 "[D] x" 7
                sample.disk) as H.
  destruct (console.WriteMsg sample.console_errors sample.t0 "[D] x" 7 sample.disk)
    as [[err w']|p].
  - destruct H as (-> & _ & Hw & _). rewrite Hw; [reflexivity | cbn; lia].
  - destruct H as (_ & Hoff & _). cbn in Hoff. lia.
Defined.

(** ** The table of constructors and a new logger *)
Section Registry.
Context `{rt : Runtime}.
Import os obs.

(** X7. [RegisterAppender] with a constructor and a name that is not in
    the table puts exactly that entry in; a second registration under
    the name panics, whatever the constructor, and so does a nil
    constructor under any name. *)
Theorem RegisterAppender_once (name : string) (mk : logg.createAppender)
    (second : option logg.createAppender) (m m' : gmap string logg.createAppender) :
  logg.RegisterAppender name (Some mk) m = Ok m' ->
  m !! name = None
  /\ m' !! name = Some mk
  /\ (forall n, n <> name -> m' !! n = m !! n)
  /\ logg.RegisterAppender name second m'
     = Panic (match second with Some _ => DuplicateAppender | None => NilAppender end)
  /\ forall n, logg.RegisterAppender n None m' = Panic NilAppender.
Proof.
  unfold logg.RegisterAppender. destruct (m !! name) eqn:Hm; [discriminate |].
  intros [= <-]. split; [done |]. split; [by rewrite lookup_insert_eq |].
  split; [intros n Hn; by rewrite lookup_insert_ne |].
  split; [| done]. destruct second; [by rewrite lookup_insert_eq | done].
Qed.

(** X8. Once the [init] functions of the package have run, the table has
    the two names [console] and [file] and no other; [SetAppender] under
    any other name returns the error that names it, and changes neither
    the logger nor the world. *)
Theorem SetAppender_unknown_name (log : logg.BaseLogger) (appenderName config : string)
    (w : World) :
  exists m,
    logg.initAppenderMap = Ok m
    /\ (forall n, is_Some (m !! n) <-> n = "console" \/ n = "file")
    /\ (appenderName <> "console" -> appenderName <> "file" ->
        logg.SetAppender m log appenderName config w
        = (Some ("logg:unknow appenderName " +:+ appenderName
                 +:+ " (forgotten RegisterAppender?)"), log, w)).
Proof.
  unfold logg.initAppenderMap. cbn [logg.RegisterAppender bindR].
  rewrite lookup_empty. cbn [bindR].
  rewrite lookup_insert_ne by done. rewrite lookup_empty.
  eexists. split; [reflexivity |]. split.
  - intros n. destruct (decide (n = "file")) as [-> | Hf].
    { rewrite lookup_insert_eq. split; [by right | by eexists]. }
    rewrite lookup_insert_ne by done.
    destruct (decide (n = "console")) as [-> | Hc].
    { rewrite lookup_insert_eq. split; [by left | by eexists]. }
    rewrite lookup_insert_ne by done. rewrite lookup_empty.
    split; [intros [x Hx]; discriminate Hx | intros [? | ?]; done].
  - intros Hc Hf. unfold logg.SetAppender.
    assert (Hneq : String.eqb appenderName "console" = false) by (by apply String.eqb_neq).
    rewrite Hneq. cbn [andb].
    rewrite lookup_insert_ne by done. rewrite lookup_insert_ne by done.
    by rewrite lookup_empty.
Qed.


(** X10. The setters reach the gate: after [SetLevel l] the threshold
    reads [l], and a leveled method of a level above [l] returns at once
    with no effect, whatever the mode of the logger. *)
Theorem SetLevel_gates
    (emit : logg.BaseLogger -> string -> World -> logg.Returns) (lv l : Z)
    (log : logg.BaseLogger) (text : string) (w : World) :
  (emit, lv) ∈ leveled -> l < lv ->
  logg.Level (logg.SetLevel log l) = l
  /\ emit (logg.SetLevel log l) text w = Ok (logg.SetLevel log l, w, [])
  /\ logg.appenders (logg.SetLevel log l) = logg.appenders log
  /\ logg.async (logg.SetLevel log l) = logg.async log.
Proof.
  intros Hin Hlt. destruct (leveled_cases emit lv Hin) as (tag & -> & _ & _).
  split; [done |]. split; [| done].
  unfold logg.logAt, logg.SetLevel. cbn [logg.level logg.set_level].
  destruct (Z.ltb_spec l lv); [done | lia].
Qed.
End Registry.

Lemma RegisterAppender_once_witness :
  logg.RegisterAppender "file" (Some logg.newFileAppender)
    (<["file" := logg.newFileAppender]>
       (<["console" := @logg.newConsoleAppender sample.runtime]> ∅))
  = Panic DuplicateAppender.
Proof.
  destruct (RegisterAppender_once "file" logg.newFileAppender (Some logg.newFileAppender)
              (<["console" := @logg.newConsoleAppender sample.runtime]> ∅)
              (<["file" := logg.newFileAppender]>
                 (<["console" := @logg.newConsoleAppender sample.runtime]> ∅)))
    as (_ & _ & _ & H & _).
  - unfold logg.RegisterAppender. rewrite lookup_insert_ne by done.
    by rewrite lookup_empty.
  - exact H.
Defined.

Lemma SetAppender_unknown_name_witness :
  exists m,
    @logg.initAppenderMap sample.runtime = Ok m
    /\ @logg.SetAppender sample.runtime m sample.logger "smtp" "{}" sample.disk
       = (Some "logg:unknow appenderName smtp (forgotten RegisterAppender?)",
          sample.logger, sample.disk).
Proof.
  destruct (@SetAppender_unknown_name sample.runtime sample.logger "smtp" "{}" sample.disk)
    as (m & H1 & _ & H3).
  exists m. split; [exact H1 |]. apply H3; discriminate.
Defined.


Lemma SetLevel_gates_witness :
  logg.Debug (logg.SetLevel sample.logger 3) "noise" sample.disk
  = Ok (logg.SetLevel sample.logger 3, sample.disk, []).
Proof.
  apply (SetLevel_gates logg.Debug 4 3 sample.logger "noise" sample.disk).
  - unfold obs.leveled. rewrite !elem_of_cons. right; right; right; right; left. reflexivity.
  - lia.
Defined.

(** ** [Init] of the file appender *)
Section FileInit.
Context `{rt : Runtime}.
Import os obs.

Lemma substring_zero (s : string) : forall i, String.substring i 0 s = "".
Proof. induction s as [|c s IH]; intros [|i]; simpl; auto. Qed.

Lemma substring_full (s : string) : String.substring 0 (String.length s) s = s.
Proof. induction s as [|c s IH]; simpl; [done | by rewrite IH]. Qed.

Lemma substring_split (s : string) : forall i,
  (i <= String.length s)%nat ->
  String.substring 0 i s +:+ String.substring i (String.length s - i) s = s.
Proof.
  induction s as [|c s IH]; intros [|i] Hi; simpl in *; try lia; try done.
  - by rewrite substring_full.
  - change (String c (String.substring 0 i s +:+ String.substring i (String.length s - i) s)
            = String c s).
    rewrite IH by lia. done.
Qed.

Lemma length_substring (s : string) : forall i n,
  (i + n <= String.length s)%nat -> String.length (String.substring i n s) = n.
Proof.
  induction s as [|c s IH]; intros [|i] [|n] Hn; simpl in *; try lia; try done.
  - by rewrite IH by lia.
  - rewrite IH; [done | simpl; lia].
  - rewrite IH; [done | simpl; lia].
Qed.

Lemma ext_scan_tail (path : string) (n : nat) :
  filepath.ext_scan path n = ""
  \/ exists i, (i < n)%nat /\ (i < String.length path)%nat
               /\ filepath.ext_scan path n = filepath.tail_from i path.
Proof.
  induction n as [|n IH]; [by left |]. simpl.
  destruct (String.get n path) as [c|] eqn:Hget; [| by left].
  destruct (filepath.IsPathSeparator c); [by left |].
  destruct (Ascii.eqb c "."%char).
  - right. exists n. split; [lia |]. split; [| done].
    destruct (Nat.lt_ge_cases n (String.length path)) as [? | Hge]; [done |].
    assert (String.get n path = None) as Hnone.
    { clear -Hge. revert n Hge. induction path as [|a p IHp]; intros [|n] Hge; simpl in *;
        try done; try lia. apply IHp. lia. }
    congruence.
  - destruct IH as [-> | (i & Hi & Hl & ->)]; [by left |]. right. exists i.
    split; [lia | done].
Qed.

Lemma TrimSuffix_Ext (path : string) :
  strings.TrimSuffix path (filepath.Ext path) +:+ filepath.Ext path = path.
Proof.
  unfold filepath.Ext.
  destruct (ext_scan_tail path (String.length path)) as [-> | (i & _ & Hi & ->)].
  - unfold strings.TrimSuffix, strings.HasSuffix. simpl.
    rewrite substring_zero. simpl. rewrite Nat.sub_0_r, substring_full.
    apply str_app_nil_r.
  - unfold strings.TrimSuffix, strings.HasSuffix, filepath.tail_from.
    rewrite length_substring by lia.
    replace (String.length path - (String.length path - i))%nat with i by lia.
    assert ((String.length path - i <=? String.length path)%nat = true) as ->
      by (apply Nat.leb_le; lia).
    rewrite String.eqb_refl. simpl. by apply substring_split; lia.
Qed.

(** X11. What [Init] makes of the decoded configuration: an error of the
    decoder is returned as it is and an empty file name is refused, both
    before any call of package os; otherwise [fileSuffix] is the
    extension of the path, or [.log] when it has none, [fileNameOnly] is
    the path without its extension, and the two parts make up the path
    again ([fileNameOnly] is the whole path when there is no
    extension, so that the archives of [app] are called [app_..log]). *)
Theorem file_Init_names (config : string) (f : fileLogWriter) (w : World) :
  let '(j, derr) := unmarshal_file config (file.exported f) in
  let '(err, f', w') := file.Init config f w in
  (forall e, derr = Some e -> err = Some e /\ w' = w)
  /\ (derr = None -> jFilename j = "" ->
      err = Some "json config must have filename" /\ w' = w)
  /\ (derr = None -> jFilename j <> "" ->
      Filename f' = jFilename j
      /\ fileNameOnly f' +:+ filepath.Ext (Filename f') = Filename f'
      /\ (filepath.Ext (Filename f') <> "" -> fileSuffix f' = filepath.Ext (Filename f'))
      /\ (filepath.Ext (Filename f') = "" ->
          fileSuffix f' = ".log" /\ fileNameOnly f' = Filename f')).
Proof.
  unfold file.Init.
  destruct (unmarshal_file config (file.exported f)) as [j [e|]].
  { split; [by intros e' [= <-] |]. split; intros H; discriminate H. }
  cbn [file.set_exported Filename].
  destruct (Z.eqb_spec (len (jFilename j)) 0) as [H0 | Hn0].
  { apply len_zero in H0. split; [intros e H; discriminate H |].
    split; [done |]. intros _ Hne. by destruct Hne. }
  set (f2 := file.set_names _ _ _).
  destruct (startLogging_steps f2 w) as [_ Hcfg].
  destruct (file.startLogging f2 w) as [[err f'] w']. simpl in Hcfg.
  destruct Hcfg as (HF & _ & _ & _ & _ & _ & Honly & Hsuf).
  subst f2. cbn in HF, Honly, Hsuf.
  split; [intros e H; discriminate H |].
  split; [intros _ H; rewrite H in Hn0; by destruct Hn0 |].
  intros _ _. rewrite HF, Honly, Hsuf.
  split; [done |]. split; [apply TrimSuffix_Ext |].
  destruct (String.eqb_spec (filepath.Ext (jFilename j)) "") as [He | Hne].
  - split; [done |]. intros _. split; [done |].
    pose proof (TrimSuffix_Ext (jFilename j)) as Hrt. rewrite He in Hrt |- *.
    by rewrite str_app_nil_r in Hrt.
  - split; [done |]. intros He. by destruct Hne.
Qed.

(** X12. [Init] on a system that refuses nothing, with a path that names
    a regular file: no error; the appender holds that file open; its
    byte counter starts at the size the file has, its day at today; no
    name and no content changes. *)
Theorem file_Init_resumes (config : string) (f : fileLogWriter) (w : World)
    (j : fileFields) (ino : nat) (nd : Inode) :
  unmarshal_file config (file.exported f) = (j, None) ->
  jFilename j <> "" -> obliging w -> fileWriter f = None ->
  names w !! jFilename j = Some ino -> inodes w !! ino = Some nd -> i_dir nd = false ->
  let '(err, f', w') := file.Init config f w in
  err = None
  /\ (exists h, fileWriter f' = Some h /\ live (Some h) w' = Some ino)
  /\ maxSizeCurSize f' = len (i_data nd)
  /\ dailyOpenDate f' = time.Day (now w)
  /\ names w' = names w /\ inodes w' = inodes w.
Proof.
  intros Hdec Hname Hob Hnil Hino Hnd Hdir. unfold file.Init. rewrite Hdec.
  cbn [file.set_exported Filename].
  destruct (Z.eqb_spec (len (jFilename j)) 0) as [H0 | _].
  { apply len_zero in H0. by destruct Hname. }
  unfold file.startLogging, file.createLogFile, OpenFile.
  cbn [file.set_names file.set_exported Filename fileWriter].
  rewrite Hob, Hino, Hnd, Hdir, Hnil. cbn [open_inode]. cbv zeta.
  unfold file.initFd, Stat. cbn [file.set_fileWriter fileWriter]. wsimpl.
  unfold live. wsimpl.
  rewrite lookup_app_r by done. rewrite Nat.sub_diag. cbn [lookup list_lookup].
  rewrite Hob, Hnd. cbn. wsimpl.
  split; [done |]. split.
  { eexists. split; [done |]. wsimpl. rewrite lookup_app_r by done.
    by rewrite Nat.sub_diag. }
  done.
Qed.
End FileInit.

Lemma file_Init_names_witness :
  fileNameOnly (@file.Init sample.runtime "logs/app.log" file.newFileAppender sample.world).1.2
  = "logs/app"
  /\ fileSuffix (@file.Init sample.runtime "logs/app.log" file.newFileAppender sample.world).1.2
     = ".log".
Proof.
  pose proof (@file_Init_names sample.runtime "logs/app.log" file.newFileAppender
                sample.world) as H.
  destruct (@unmarshal_file sample.runtime "logs/app.log"
              (file.exported file.newFileAppender)) as [j derr] eqn:E.
  vm_compute in E. injection E as <- <-.
  destruct (@file.Init sample.runtime "logs/app.log" file.newFileAppender sample.world)
    as [[err f'] w'].
  destruct H as (_ & _ & H). destruct (H eq_refl ltac:(discriminate)) as (HF & Hrt & Hs & _).
  cbn [fst snd]. rewrite HF in Hrt, Hs. cbn [jFilename] in Hrt, Hs.
  assert (Hext : filepath.Ext "logs/app.log" = ".log") by reflexivity.
  rewrite Hext in Hrt, Hs. split; [| apply Hs; discriminate].
  clear -Hrt. destruct (fileNameOnly f') as [|a s1]; [discriminate Hrt |].
  revert Hrt. generalize (String a s1). intros s.
  change "logs/app.log" with ("logs/app" +:+ ".log"). intros Hrt.
  revert Hrt. generalize "logs/app". intros t Hrt.
  assert (Hlen : String.length s = String.length t).
  { apply (f_equal String.length) in Hrt. rewrite !str_length_app in Hrt. lia. }
  revert t Hrt Hlen. induction s as [|c s IH]; intros [|d t] Hrt Hlen; try done.
  simpl in Hrt. injection Hrt as -> Hrt. f_equal. apply IH; [done | simpl in Hlen; lia].
Defined.

Lemma file_Init_resumes_witness :
  (@file.Init sample.runtime "app.log" file.newFileAppender sample.disk).1.1 = None
  /\ maxSizeCurSize (@file.Init sample.runtime "app.log" file.newFileAppender sample.disk).1.2
     = 31.
Proof.
  pose proof (@file_Init_resumes sample.runtime "app.log" file.newFileAppender sample.disk
                _ 1%nat _ eq_refl ltac:(discriminate) ltac:(intros c; reflexivity) eq_refl
                eq_refl eq_refl eq_refl) as H.
  destruct (@file.Init sample.runtime "app.log" file.newFileAppender sample.disk)
    as [[err f'] w'].
  destruct H as (H1 & _ & H2 & _). split; [exact H1 | exact H2].
Defined.

(** ** The caller's position in the message *)
Section CallerPosition.
Import os obs.

(** X13. What [writeMsg] makes of the text of a leveled call: with
    [enableFuncCallDepth] off, the tag and the text; with it on, the
    first three bytes of the tag, then the caller's position in
    brackets, then the blank of the tag and the text, as in
    [[I][main.go:42] text]; never a panic, the tags being four bytes
    long. *)
Theorem caller_position_in_message (op : logg.Op) (lv : Z) (tag text : string)
    (log : logg.BaseLogger) (w : World) :
  emit_parts op = Some (lv, tag, text) ->
  logg.withCaller log (tag +:+ text) w
  = Ok (if logg.enableFuncCallDepth log
        then String.substring 0 3 tag +:+ "[" +:+ position log w +:+ "] " +:+ text
        else tag +:+ text).
Proof.
  intros Hop. unfold logg.withCaller, position.
  destruct (logg.enableFuncCallDepth log); [| reflexivity].
  assert (Htail : forall a b c, filepath.tail_from 3
                    (String a (String b (String c (String " " text)))) = " " +:+ text).
  { intros a b c. unfold filepath.tail_from. simpl. by rewrite substring_full. }
  assert (Hlen : forall a b c,
            (len (String a (String b (String c (String " " text)))) <? 3) = false).
  { intros a b c. apply Z.ltb_ge. unfold len. simpl. lia. }
  assert (Htag : forall a b c,
            String a (String b (String c " ")) +:+ text
            = String a (String b (String c (String " " text)))) by reflexivity.
  assert (Hsplit : logg.splitFile "???" +:+ ":" +:+ strconv.FormatInt 0 = "???:0")
    by reflexivity.
  destruct op; simpl in Hop; try discriminate Hop; injection Hop as <- <- <-;
    (destruct (callers w (logg.loggerFuncCallDepth log)) as [[file line]|];
     rewrite Htag, Hlen, Htail; cbn [String.substring];
     rewrite <- ?Hsplit, ?str_app_assoc; reflexivity).
Qed.
End CallerPosition.

Lemma caller_position_in_message_witness :
  logg.withCaller sample.logger ("[I] " +:+ "up") sample.disk = Ok "[I][main.go:42] up".
Proof.
  rewrite (caller_position_in_message (logg.OpInfo "up") 3 "[I] " "up" sample.logger
             sample.disk eq_refl).
  reflexivity.
Defined.

(** ** A file appender that was destroyed, and a synchronous [Flush] *)
Section DestroyAndFlush.
Import os obs.

(** X14. [Destroy] closes the file and keeps the handle: a message within
    the level that comes afterwards, with no rotation due, is refused by
    the closed file; [WriteMsg] returns that error, the byte counter
    stays and no name or content changes. *)
Theorem WriteMsg_after_Destroy (f : fileLogWriter) (when : time.Time) (msg : string)
    (L : Z) (w : World) :
  holds f w -> L <= Level f ->
  Rotate f && file.needRotate f (len (fileLine when msg)) (time.Day when) = false ->
  let w1 := file.Destroy f w in
  let '(err, f', w') := file.WriteMsg f when msg L w1 in
  is_Some err /\ f' = f /\ names w' = names w /\ inodes w' = inodes w.
Proof.
  intros Hh HL Hrot w1. rewrite (WriteMsg_plain f when msg L w1 HL Hrot).
  subst w1. unfold file.Destroy.
  destruct (Close_facts (fileWriter f) w Hh) as (Hn & Hi & _ & _ & _ & _ & Hclosed).
  unfold writeStep, Write.
  destruct (fileWriter f) as [h|] eqn:Hf.
  - destruct (Hclosed h eq_refl) as [i Hc]. unfold live. wsimpl. rewrite Hc. wsimpl.
    split; [by eexists |]. done.
  - simpl. split; [by eexists |]. done.
Qed.

Lemma flushAll_disk outs : forall i w, same_disk w (logg.flushAll i outs w).
Proof.
  induction outs as [|a outs IH]; intros i w; [apply same_disk_refl |].
  cbn [logg.flushAll]. eapply same_disk_trans; [| apply IH].
  unfold same_disk. destruct (logg.appender a) as [c|f]; simpl.
  - wsimpl. done.
  - unfold file.Flush, Sync. destruct (fileWriter f); wsimpl; done.
Qed.

(** X15. [Flush] on a synchronous logger with nothing in its channel
    returns at once: it has called [Flush] once on every appender, in
    their order, and nothing else; no name, content or open file has
    changed, and the logger is as it was. *)
Theorem Flush_sync (log : logg.BaseLogger) (w : World) :
  synchronous log ->
  exists w',
    logg.Flush log w = Ok (log, w', [])
    /\ journal (trace w') = journal (trace w) ++ each (length (logg.appenders log)) MFlush
    /\ same_disk w w'.
Proof.
  intros (Ha & Hq & _ & _). unfold logg.Flush, logg.flush. rewrite Ha, Hq.
  cbn [logg.drain bindR fst snd].
  exists (logg.flushAll 0 (logg.appenders log) w). split; [done |].
  split; [apply flushAll_journal | apply flushAll_disk].
Qed.
End DestroyAndFlush.

Lemma WriteMsg_after_Destroy_witness :
  is_Some (file.WriteMsg sample.sized sample.t0 "[I] late" 3
             (file.Destroy sample.sized sample.disk)).1.1.
Proof.
  pose proof (WriteMsg_after_Destroy sample.sized sample.t0 "[I] late" 3 sample.disk) as H.
  cbv zeta in H.
  destruct (file.WriteMsg sample.sized sample.t0 "[I] late" 3
              (file.Destroy sample.sized sample.disk)) as [[err f'] w'].
  apply H.
  - intros h [= <-]. simpl. lia.
  - simpl. lia.
  - reflexivity.
Defined.

Lemma Flush_sync_witness :
  exists w', logg.Flush sample.logger sample.disk = Ok (sample.logger, w', [])
             /\ obs.journal (os.trace w') = [(0%nat, os.MFlush); (1%nat, os.MFlush)].
Proof.
  destruct (Flush_sync sample.logger sample.disk) as (w' & H1 & H2 & _).
  - by vm_compute.
  - exists w'. split; [exact H1 | exact H2].
Defined.

(** ** What the sweep leaves alone *)
Section SweepFrame.
Import os obs.

Lemma visit_only_removes f p w :
  let w' := file.visit (file.deleteOldLogFn f) p w in
  inodes w' = inodes w /\ files w' = files w
  /\ (names w' = names w
      \/ names w' = delete p (names w)
         /\ exists nd, node p w = Some nd /\ i_dir nd = false
                       /\ strings.HasPrefix (filepath.Base p) (fileNameOnly f) = true).
Proof.
  unfold file.visit, file.deleteOldLogFn.
  destruct (node p w) as [nd|] eqn:Hnode; simpl; [| by split_and!; [..| left]].
  destruct (negb (i_dir nd)) eqn:Hdir; simpl; [| by split_and!; [..| left]].
  destruct (_ <? _); simpl; [| by split_and!; [..| left]].
  destruct (strings.HasPrefix _ _) eqn:Hpre; simpl; [| by split_and!; [..| left]].
  destruct (strings.HasSuffix _ _); simpl; [| by split_and!; [..| left]].
  assert (Hnd : exists ino, names w !! p = Some ino).
  { unfold node in Hnode. destruct (names w !! p) as [ino|]; [by eexists | discriminate Hnode]. }
  destruct Hnd as [ino Hp].
  unfold Remove. rewrite Hp. destruct (refuses w _); wsimpl; [by split_and!; [..| left] |].
  split_and!; [done | done |]. right. split; [done |]. exists nd.
  split; [done |]. split; [| done]. by destruct (i_dir nd).
Qed.

Lemma sweep_only_removes f ps : forall w0 w,
  inodes w0 = inodes w ->
  (forall p, names w0 !! p = names w !! p
             \/ names w0 !! p = None
                /\ exists nd, node p w = Some nd /\ i_dir nd = false
                              /\ strings.HasPrefix (filepath.Base p) (fileNameOnly f) = true) ->
  let w' := foldl (fun w' p => file.visit (file.deleteOldLogFn f) p w') w0 ps in
  inodes w' = inodes w
  /\ forall p, names w' !! p = names w !! p
               \/ names w' !! p = None
                  /\ exists nd, node p w = Some nd /\ i_dir nd = false
                                /\ strings.HasPrefix (filepath.Base p) (fileNameOnly f) = true.
Proof.
  induction ps as [|q ps IH]; intros w0 w Hi Hn; [done |].
  cbn [foldl]. apply IH.
  - destruct (visit_only_removes f q w0) as (Hi' & _ & _). congruence.
  - intros p. destruct (visit_only_removes f q w0) as (_ & _ & [Hsame | (Hdel & nd & Hnd & Hdir & Hpre)]).
    + rewrite Hsame. apply Hn.
    + rewrite Hdel. destruct (decide (p = q)) as [-> | Hpq].
      * rewrite lookup_delete_eq. destruct (Hn q) as [Heq | [Hnone _]].
        -- right. split; [done |]. exists nd. split; [| done].
           unfold node in *. by rewrite <- Heq, <- Hi.
        -- unfold node in Hnd. rewrite Hnone in Hnd. discriminate Hnd.
      * rewrite lookup_delete_ne by done. apply Hn.
Qed.

Lemma sweep_removals f w :
  inodes (file.deleteOldLog f w) = inodes w
  /\ forall p, names (file.deleteOldLog f w) !! p = names w !! p
       \/ names (file.deleteOldLog f w) !! p = None
          /\ exists nd, node p w = Some nd /\ i_dir nd = false
               /\ strings.HasPrefix (filepath.Base p) (fileNameOnly f) = true.
Proof.
  unfold file.deleteOldLog. destruct (MaxDays f <=? 0); [split; [done | by left] |].
  unfold file.Walk.
  assert (H1 : forall p, names (file.visit (file.deleteOldLogFn f)
                                  (filepath.Dir (Filename f)) w) !! p = names w !! p
           \/ names (file.visit (file.deleteOldLogFn f)
                       (filepath.Dir (Filename f)) w) !! p = None
              /\ exists nd, node p w = Some nd /\ i_dir nd = false
                   /\ strings.HasPrefix (filepath.Base p) (fileNameOnly f) = true).
  { intros p.
    destruct (visit_only_removes f (filepath.Dir (Filename f)) w)
      as (_ & _ & [Hsame | (Hdel & nd & Hnd & Hdir & Hpre)]).
    - left. by rewrite Hsame.
    - rewrite Hdel. destruct (decide (p = filepath.Dir (Filename f))) as [-> | Hne].
      + right. rewrite lookup_delete_eq. split; [done |]. by exists nd.
      + left. by rewrite lookup_delete_ne. }
  destruct (visit_only_removes f (filepath.Dir (Filename f)) w) as (Hi & _ & _).
  destruct (node _ w) as [nd|]; [| done]. destruct (i_dir nd); [| done].
  exact (sweep_only_removes f _ _ w Hi H1).
Qed.

(** X16. Whatever the appender and the state of the system, the sweep
    only removes names: the inodes are as before, a name that is left
    names what it did, a name that is gone was that of a file, not of a
    directory, and all the sweep did was calls of package os. *)
Theorem sweep_only_removes_files (f : fileLogWriter) (w : World) :
  let w' := file.deleteOldLog f w in
  inodes w' = inodes w /\ os_steps w w'
  /\ forall p, names w' !! p = names w !! p
               \/ names w' !! p = None
                  /\ exists nd, node p w = Some nd /\ i_dir nd = false.
Proof.
  cbv zeta. destruct (sweep_removals f w) as [Hi Hall].
  split; [done |]. split; [apply deleteOldLog_steps |].
  intros p. destruct (Hall p) as [? | (? & nd & ? & ? & _)]; [by left | right].
  split; [done |]. by exists nd.
Qed.

Lemma has_sep_app a b : has_sep (a +:+ b) = has_sep a || has_sep b.
Proof.
  induction a as [|c a IH]; [done |]. simpl. rewrite IH. by rewrite orb_assoc.
Qed.

Lemma prefix_has_sep pre : forall s,
  String.prefix pre s = true -> has_sep pre = true -> has_sep s = true.
Proof.
  induction pre as [|c pre IH]; intros [|d s] Hp Hs; simpl in *; try done.
  destruct (ascii_dec c d) as [-> | Hne]; [| done].
  destruct (filepath.IsPathSeparator d); [done |]. simpl in *. by apply IH.
Qed.

Lemma substring_snoc (s : string) : forall j m c,
  String.get (j + m) s = Some c ->
  String.substring j (S m) s = String.substring j m s +:+ String c "".
Proof.
  induction s as [|a s IH]; intros j m c Hget; [by destruct (j + m)%nat |].
  destruct j as [|j].
  - destruct m as [|m]; simpl in Hget.
    + injection Hget as ->. simpl. by rewrite substring_zero.
    + cbn [String.substring]. rewrite (IH 0%nat m c) by done. reflexivity.
  - simpl in Hget. cbn [String.substring]. by apply IH.
Qed.

Lemma last_sep_le s n : (filepath.last_sep s n <= n)%nat.
Proof.
  induction n as [|n IH]; [done |]. simpl.
  destruct (String.get n s) as [c|]; [| lia].
  destruct (filepath.IsPathSeparator c); lia.
Qed.

Lemma get_none (s : string) : forall n, String.get n s = None -> (String.length s <= n)%nat.
Proof.
  induction s as [|a s IH]; intros [|n] Hget; simpl in *; try done; try lia.
  apply IH in Hget. lia.
Qed.

Lemma after_last_sep s n :
  (n <= String.length s)%nat ->
  has_sep (String.substring (filepath.last_sep s n) (n - filepath.last_sep s n) s) = false.
Proof.
  induction n as [|n IH]; intros Hn; [by rewrite substring_zero |].
  cbn [filepath.last_sep].
  destruct (String.get n s) as [c|] eqn:Hget; [| apply get_none in Hget; lia].
  destruct (filepath.IsPathSeparator c) eqn:Hc.
  - rewrite Nat.sub_diag. by rewrite substring_zero.
  - pose proof (last_sep_le s n) as Hle.
    replace (S n - filepath.last_sep s n)%nat with (S (n - filepath.last_sep s n)) by lia.
    rewrite (substring_snoc s _ _ c).
    + rewrite has_sep_app, IH by lia. simpl. by rewrite Hc.
    + by replace (filepath.last_sep s n + (n - filepath.last_sep s n))%nat with n by lia.
Qed.

Lemma Base_sep (path : string) : has_sep (filepath.Base path) = true -> filepath.Base path = "/".
Proof.
  unfold filepath.Base. destruct (String.eqb path ""); [done |].
  set (p := filepath.strip_seps path (String.length path)).
  destruct (String.eqb _ "") eqn:E; [done |].
  unfold filepath.tail_from. rewrite after_last_sep by done. done.
Qed.

Lemma no_prefix_with_sep (pre path : string) :
  has_sep pre = true -> pre <> "/" ->
  strings.HasPrefix (filepath.Base path) pre = false.
Proof.
  intros Hs Hne. unfold strings.HasPrefix.
  destruct (String.prefix pre (filepath.Base path)) eqn:Hp; [| done].
  pose proof (prefix_has_sep _ _ Hp Hs) as Hb. apply Base_sep in Hb.
  rewrite Hb in Hp. destruct pre as [|c [|d pre]]; simpl in *; try done.
  - destruct (ascii_dec c "/") as [-> | ?]; [by destruct Hne | done].
  - destruct (ascii_dec c "/"); done.
Qed.

(** X17. When [fileNameOnly] has a path separator in it, as it has for
    every configured path with a directory part, no base name begins
    with it: the sweep removes nothing, however old the archives in the
    directory are and whatever [MaxDays] is. *)
Theorem sweep_spares_all_in_a_directory (f : fileLogWriter) (w : World) :
  has_sep (fileNameOnly f) = true -> fileNameOnly f <> "/" ->
  names (file.deleteOldLog f w) = names w /\ inodes (file.deleteOldLog f w) = inodes w.
Proof.
  intros Hs Hne. destruct (sweep_removals f w) as [Hi Hall]. split; [| done].
  apply map_eq. intros p. destruct (Hall p) as [? | (_ & nd & _ & _ & Hpre)]; [done |].
  by rewrite (no_prefix_with_sep _ p Hs Hne) in Hpre.
Qed.
End SweepFrame.

Lemma sweep_spares_all_in_a_directory_witness :
  os.names (file.deleteOldLog sample.nested sample.logs) !! "logs/app_2024-02-26_001.log"
  = Some 3%nat.
Proof.
  rewrite (proj1 (sweep_spares_all_in_a_directory sample.nested sample.logs eq_refl
                    ltac:(discriminate))).
  reflexivity.
Defined.

(** ** A day rotation for a message of another day *)
Section DayRotation.
Import os obs.

Lemma doRotate_by_day f t w ino nd :
  obliging w -> names w !! Filename f = Some ino -> inodes w !! ino = Some nd ->
  holds f w -> MaxSize f <= 0 -> node (dayArchive f t) w = None ->
  rotated_to f w ino nd (dayArchive f t) (file.doRotate f t w).
Proof.
  intros Ho Hold Hnd Hh Hmax Hfree. unfold file.doRotate.
  rewrite (Lstat_found w (Filename f) nd (Ho _)) by (unfold node; by rewrite Hold).
  set (w1 := called (CLstat (Filename f)) w).
  destruct (pickName_free f t w1 (dayArchive f t)) as (w2 & -> & Hd & Hs).
  { intros name. apply Ho. }
  { by apply by_day. }
  destruct Hd as (Hn2 & Hi2 & Hf2 & Hg2).
  apply (rotated_to_from f w w2); [apply Hs | exact Hg2 |].
  apply swapFile_ok.
  - apply (os_steps_obliging w1 w2 Hs). intros c. apply Ho.
  - by rewrite Hn2.
  - by rewrite Hi2.
  - rewrite (same_disk_node w w2) by (by repeat split). exact Hfree.
  - intros h Hfh. rewrite Hf2. by apply Hh.
Qed.

(** X18. The day a file is opened on is the clock's, the day that asks for
    a rotation is the message's.  After a rotation by day for a message
    [t] of another day than the clock's, the new file again asks for a
    rotation at the next message of that day, and that rotation fails:
    the dated archive name is taken. *)
Theorem day_rotation_repeats (f : fileLogWriter) (t : time.Time) (w : World)
    (ino : nat) (nd : Inode) (size : Z) :
  obliging w -> names w !! Filename f = Some ino -> inodes w !! ino = Some nd ->
  holds f w -> MaxSize f <= 0 -> Daily f = true -> node (dayArchive f t) w = None ->
  time.Day t <> time.Day (now w) ->
  let '(err, f', w') := file.doRotate f t w in
  err = None
  /\ dailyOpenDate f' = time.Day (now w)
  /\ file.needRotate f' size (time.Day t) = true
  /\ exists e w1, file.doRotate f' t w' = (Some e, f', w1).
Proof.
  intros Ho Hold Hnd Hh Hmax Hdaily Hfree Hday.
  pose proof (doRotate_by_day f t w ino nd Ho Hold Hnd Hh Hmax Hfree) as Hrot.
  destruct (doRotate_steps f t w) as [Hs _].
  destruct (file.doRotate f t w) as [[err f'] w']. simpl in Hs.
  destruct Hrot as (-> & Harch & Hind & (h' & ino' & Hfw & Hlive & _ & Hname & Hfresh)
                    & Hcfg & _ & Hopen & _).
  destruct Hcfg as (HF & HM & HD & _ & _ & _ & Honly & Hsuf).
  split; [done |]. split; [done |]. split.
  { apply needRotate_due. right. split; [congruence |]. congruence. }
  destruct (doRotate_failure f' t w' (fresh w)) as (e & w1 & Hfail & _).
  - intros name. destruct Hs as (_ & _ & Hr & _). rewrite Hr. apply Ho.
  - unfold node. rewrite HF, Hname. simpl. exact Hfresh.
  - intros h Hh'. rewrite Hfw in Hh'. injection Hh' as <-.
    unfold live in Hlive. destruct (files w' !! h') as [[i c]|] eqn:Hl; [| discriminate Hlive].
    by eapply lookup_lt_Some.
  - left. right. split; [lia |]. unfold dayArchive in *. rewrite Honly, Hsuf.
    unfold node. rewrite Harch. simpl. rewrite Hind. by eexists.
  - by exists e, w1.
Qed.
End DayRotation.

Lemma day_rotation_repeats_witness :
  file.needRotate (file.doRotate sample.daily sample.eve sample.disk).1.2 0
    (time.Day sample.eve) = true.
Proof.
  pose proof (day_rotation_repeats sample.daily sample.eve sample.disk 1%nat _ 0
                ltac:(intros c; reflexivity) eq_refl eq_refl
                ltac:(intros h [= <-]; simpl; lia) ltac:(simpl; lia) eq_refl
                ltac:(by vm_compute) ltac:(by vm_compute)) as H.
  destruct (file.doRotate sample.daily sample.eve sample.disk) as [[err f'] w'].
  destruct H as (_ & _ & H & _). exact H.
Defined.

(** ** A line that is written *)
Section LineWritten.
Import os obs.

(** X19. A message within the level, with no rotation due, on an appender
    whose file is open and takes the write: the line (stamp, message,
    newline) is appended to that file and to no other, the file's
    modification time is now, the byte counter grows by the length of
    the line, no name changes, and no error is returned. *)
Theorem WriteMsg_appends_line (f : fileLogWriter) (when : time.Time) (msg : string)
    (L : Z) (w : World) (h ino : nat) (nd : Inode) :
  L <= Level f ->
  Rotate f && file.needRotate f (len (fileLine when msg)) (time.Day when) = false ->
  fileWriter f = Some h -> live (Some h) w = Some ino -> inodes w !! ino = Some nd ->
  refuses w (CWrite h (fileLine when msg)) = false ->
  - 2 ^ 63 <= maxSizeCurSize f + len (fileLine when msg) < 2 ^ 63 ->
  let '(err, f', w') := file.WriteMsg f when msg L w in
  err = None
  /\ inodes w' = <[ino := {| i_dir := i_dir nd; i_data := i_data nd +:+ fileLine when msg;
                             i_mtime := time.Unix (now w) |}]> (inodes w)
  /\ names w' = names w /\ files w' = files w
  /\ maxSizeCurSize f' = maxSizeCurSize f + len (fileLine when msg)
  /\ fileWriter f' = Some h /\ same_config f f'.
Proof.
  intros HL Hrot Hf Hlive Hnd Hr Hfit.
  rewrite (WriteMsg_plain f when msg L w HL Hrot). unfold writeStep. rewrite Hf.
  rewrite (Write_done h (fileLine when msg) w ino nd Hlive Hnd Hr).
  rewrite (wrap64_small _ Hfit). wsimpl. cbn.
  split_and!; try done; by repeat split.
Qed.
End LineWritten.

Lemma WriteMsg_appends_line_witness :
  maxSizeCurSize (file.WriteMsg sample.sized sample.t0 "[I] x" 3 sample.disk).1.2 = 56
  /\ (file.WriteMsg sample.sized sample.t0 "[I] x" 3 sample.disk).1.1 = None.
Proof.
  pose proof (WriteMsg_appends_line sample.sized sample.t0 "[I] x" 3 sample.disk 0 1 _
                ltac:(simpl; lia) eq_refl eq_refl eq_refl eq_refl eq_refl
                ltac:(by vm_compute)) as H.
  destruct (file.WriteMsg sample.sized sample.t0 "[I] x" 3 sample.disk) as [[err f'] w'].
  destruct H as (H1 & _ & _ & _ & H2 & _). split; [exact H2 | exact H1].
Defined.

(** ** [Close] and the files of the appenders *)
Section CloseFiles.
Import os obs.

Lemma Close_keeps_shut h0 w h : shut_handle h w -> shut_handle h (Close h0 w).2.
Proof.
  intros [ino Hh]. unfold Close, shut_handle. destruct h0 as [h0|]; simpl; [| by eexists].
  destruct (files w !! h0) as [[i c]|] eqn:H0; cbn [snd]; wsimpl; [| by eexists].
  destruct c; cbn [snd]; wsimpl; [by eexists |].
  destruct (decide (h = h0)) as [-> | Hne]; [congruence |].
  rewrite list_lookup_insert_ne by done. by eexists.
Qed.

Lemma Close_shuts h w : (h < length (files w))%nat -> shut_handle h (Close (Some h) w).2.
Proof.
  intros Hh. destruct (Close_facts (Some h) w) as (_ & _ & _ & _ & _ & _ & Hc).
  { by intros h0 [= <-]. }
  by apply Hc.
Qed.

Lemma Close_length h w : length (files (Close h w).2) = length (files w).
Proof.
  unfold Close. destruct h as [h|]; simpl; [| done].
  destruct (files w !! h) as [[i c]|]; cbn [snd]; wsimpl; [| done].
  destruct c; cbn [snd]; wsimpl; [done |]. by rewrite length_insert.
Qed.

Lemma destroyAll_shuts outs : forall i w,
  all_hold outs w ->
  length (files (logg.destroyAll i outs w)) = length (files w)
  /\ (forall h, shut_handle h w -> shut_handle h (logg.destroyAll i outs w))
  /\ forall a f h, a ∈ outs -> logg.appender a = logg.File f -> fileWriter f = Some h ->
       shut_handle h (logg.destroyAll i outs w).
Proof.
  induction outs as [|a outs IH]; intros i w Hall.
  { split; [done |]. split; [done |]. intros a f h Ha. by apply elem_of_nil in Ha. }
  cbn [logg.destroyAll].
  set (w0 := called (CInvoke MDestroy) (with_actor (Some i) w)).
  set (w1 := with_actor None (logg.Appender_Destroy (logg.appender a) w0)).
  assert (Hlen : length (files w1) = length (files w)).
  { subst w1. wsimpl. destruct (logg.appender a); simpl; [done |].
    unfold file.Destroy. by rewrite Close_length. }
  assert (Hkeep : forall h, shut_handle h w -> shut_handle h w1).
  { intros h Hh. subst w1. unfold shut_handle. wsimpl.
    destruct (logg.appender a); simpl; [done |]. by apply Close_keeps_shut. }
  assert (Hall1 : all_hold outs w1).
  { intros a' f' Ha' Hf' h Hh. rewrite Hlen. apply (Hall a' f'); [by right | done | done]. }
  destruct (IH (S i) w1 Hall1) as (Hl & Hk & Hc).
  split; [congruence |]. split; [intros h Hh; by apply Hk, Hkeep |].
  intros a' f h Ha' Hf Hh. apply elem_of_cons in Ha' as [-> | Ha']; [| by eapply Hc].
  apply Hk. subst w1. unfold shut_handle. wsimpl. rewrite Hf. simpl.
  unfold file.Destroy. rewrite Hh. apply Close_shuts.
  subst w0. wsimpl. apply (Hall a f); [by left | done | done].
Qed.

(** X20. [Close] on a synchronous logger leaves no file of an appender
    open: it returns, and every handle a file appender of the logger
    held is closed afterwards. *)
Theorem Close_closes_the_files (log : logg.BaseLogger) (w : World) :
  synchronous log -> all_hold (logg.appenders log) w ->
  exists log2 w2,
    logg.Close log w = Ok (log2, w2, [])
    /\ logg.appenders log2 = []
    /\ forall a f h, a ∈ logg.appenders log -> logg.appender a = logg.File f ->
         fileWriter f = Some h -> shut_handle h w2 /\ live (Some h) w2 = None.
Proof.
  intros Hsync Hall.
  destruct (Close_sync log w Hsync) as (log2 & HClose & Happ & _).
  eexists _, _. split; [exact HClose |]. split; [done |].
  intros a f h Ha Hf Hh.
  destruct (flushAll_disk (logg.appenders log) 0 w) as (_ & _ & Hfiles & _).
  destruct (destroyAll_shuts (logg.appenders log) 0
              (logg.flushAll 0 (logg.appenders log) w)) as (_ & _ & Hc).
  { intros a' f' Ha' Hf' h' Hh'. rewrite Hfiles. by apply (Hall a' f'). }
  pose proof (Hc a f h Ha Hf Hh) as Hshut. split; [done |].
  destruct Hshut as [i Hi]. unfold live. by rewrite Hi.
Qed.
End CloseFiles.

Lemma Close_closes_the_files_witness :
  exists log2 w2,
    logg.Close sample.logger sample.disk = Ok (log2, w2, [])
    /\ os.live (Some 0%nat) w2 = None.
Proof.
  destruct (Close_closes_the_files sample.logger sample.disk) as (log2 & w2 & H1 & _ & H3).
  - by vm_compute.
  - intros a f Ha Hf h Hh. unfold sample.logger in Ha. cbn in Ha.
    apply elem_of_cons in Ha as [-> | Ha]; [discriminate Hf |].
    apply list_elem_of_singleton in Ha as ->. injection Hf as <-.
    injection Hh as <-. simpl. lia.
  - exists log2, w2. split; [exact H1 |].
    apply (H3 {| logg.appender := logg.File sample.sized; logg.name := "file" |}
              sample.sized 0%nat); [| reflexivity | reflexivity].
    unfold sample.logger. cbn. right. left.
Defined.

(** ** Appenders that are attached stay usable *)
Section Attached.
Context `{rt : Runtime}.
Import os obs.

Lemma startLogging_opened f w :
  (file.startLogging f w).1.1 = None -> is_Some (fileWriter (file.startLogging f w).1.2).
Proof.
  unfold file.startLogging, file.createLogFile.
  destruct (OpenFile (Filename f) w) as [[file|e] w1]; [| done].
  unfold file.initFd. cbn [fileWriter file.set_fileWriter].
  destruct (Stat _ _) as [[fi|e] w2]; simpl; [eauto | done].
Qed.

Lemma console_Init_writer config c :
  console.writer (console.lg (console.Init config c).2) = console.writer (console.lg c).
Proof.
  unfold console.Init. destruct (len config =? 0); [done |].
  by destruct (unmarshal_console config _) as [[lv col] err].
Qed.

Lemma file_Init_opened config f w :
  (file.Init config f w).1.1 = None -> is_Some (fileWriter (file.Init config f w).1.2).
Proof.
  unfold file.Init. destruct (unmarshal_file _ _) as [j [e|]]; [done |].
  destruct (len _ =? 0); [done |]. apply startLogging_opened.
Qed.

(** X21. A logger put together through the package's interface satisfies
    what the properties above assume of it: with the table of the
    [init] functions, [SetAppender] on a logger that [Async] was not
    called on, all of whose appenders are open, gives such a logger
    again, whether it fails or not: an appender it attaches has passed
    [Init], so a console appender writes to standard output and a file
    appender holds a file. *)
Theorem SetAppender_keeps_opened (log : logg.BaseLogger) (appenderName config : string)
    (w : World) (m : gmap string logg.createAppender) :
  logg.initAppenderMap = Ok m -> unstarted log -> Forall opened (logg.appenders log) ->
  let '(err, log', w') := logg.SetAppender m log appenderName config w in
  unstarted log' /\ Forall opened (logg.appenders log')
  /\ logg.level log' = logg.level log
  /\ (err = None -> exists a, logg.appenders log' = logg.appenders log ++ [a]
                              /\ logg.name a = appenderName).
Proof.
  intros Hm Hun Hop.
  unfold logg.SetAppender.
  destruct (String.eqb appenderName "console" && _); [by split_and! |].
  destruct (m !! appenderName) as [mk|] eqn:Hmk; [| by split_and!].
  assert (Hmk' : mk tt = logg.Console console.newConsoleAppender
                 \/ mk tt = logg.File file.newFileAppender).
  { revert Hm Hmk. unfold logg.initAppenderMap. cbn [logg.RegisterAppender bindR].
    rewrite lookup_empty. cbn [bindR]. rewrite lookup_insert_ne by done.
    rewrite lookup_empty. intros [= <-].
    destruct (decide (appenderName = "file")) as [-> | Hf].
    { rewrite lookup_insert_eq. intros [= <-]. by right. }
    rewrite lookup_insert_ne by done.
    destruct (decide (appenderName = "console")) as [-> | Hc].
    { rewrite lookup_insert_eq. intros [= <-]. by left. }
    rewrite lookup_insert_ne by done. by rewrite lookup_empty. }
  set (w0 := called _ _).
  destruct Hmk' as [-> | ->]; cbn [logg.Appender_Init].
  - pose proof (console_Init_writer config console.newConsoleAppender) as Hout.
    destruct (console.Init config console.newConsoleAppender) as [err c'].
    simpl in Hout. destruct err as [e|]; [by split_and! |].
    cbn. split; [exact Hun |]. split.
    + apply Forall_app. split; [done |]. by constructor.
    + split; [done |]. intros _. by eexists.
  - pose proof (file_Init_opened config file.newFileAppender w0) as Hf.
    destruct (file.Init config file.newFileAppender w0) as [[err f'] w1].
    destruct err as [e|]; [by split_and! |].
    cbn. split; [exact Hun |]. split.
    + apply Forall_app. split; [done |]. constructor; [| done]. by apply Hf.
    + split; [done |]. intros _. by eexists.
Qed.
End Attached.

Lemma SetAppender_keeps_opened_witness :
  Forall obs.opened
    (logg.appenders (@logg.SetAppender sample.runtime sample.registry sample.logger "file"
                       "other.log" sample.disk).1.2).
Proof.
  pose proof (@SetAppender_keeps_opened sample.runtime sample.logger "file" "other.log"
                sample.disk sample.registry) as H.
  destruct (@logg.SetAppender sample.runtime sample.registry sample.logger "file"
              "other.log" sample.disk) as [[err log'] w'].
  apply H.
  - reflexivity.
  - unfold obs.unstarted, obs.synchronous. cbn. split_and!; try reflexivity. lia.
  - constructor; [reflexivity | constructor; [by eexists | constructor]].
Defined.

(** ** The byte counter and the size of the file *)
Section Counter.
Import os obs.

Lemma first_free (taken : nat -> bool) (n : nat) :
  (forall k, (1 <= k <= n)%nat -> taken k = true)
  \/ exists k, (1 <= k <= n)%nat /\ taken k = false
               /\ forall j, (1 <= j < k)%nat -> taken j = true.
Proof.
  induction n as [|n IH]; [left; intros k Hk; lia |].
  destruct IH as [Hall | (k & Hk & Hfree & Hbelow)].
  - destruct (taken (S n)) eqn:Hn.
    + left. intros k Hk. destruct (decide (k = S n)) as [-> | Hne]; [done |].
      apply Hall. lia.
    + right. exists (S n). split; [lia |]. split; [done |]. intros j Hj. apply Hall. lia.
  - right. exists k. split; [lia |]. done.
Qed.

Lemma archive_or_none f t w :
  (exists fName, archive_name f t w fName) \/ no_archive_name f t w.
Proof.
  destruct (Z_lt_le_dec 0 (MaxSize f)) as [Hpos | Hle].
  - destruct (first_free (fun k => bool_decide (is_Some (node (sizeArchive f t k) w))) 999)
      as [Hall | (k & Hk & Hfree & Hbelow)].
    + right. left. split; [done |]. intros k Hk. specialize (Hall k Hk).
      by apply bool_decide_eq_true in Hall.
    + left. exists (sizeArchive f t k). apply by_size; [done | done | |].
      * intros j Hj. specialize (Hbelow j Hj). by apply bool_decide_eq_true in Hbelow.
      * apply bool_decide_eq_false in Hfree. destruct (node _ w); [| done].
        destruct Hfree. by eexists.
  - destruct (node (dayArchive f t) w) as [nd|] eqn:Hnd.
    + right. right. split; [done |]. by eexists.
    + left. exists (dayArchive f t). by apply by_day.
Qed.

Lemma doRotate_archives f t w ino nd fName :
  obliging w -> names w !! Filename f = Some ino -> inodes w !! ino = Some nd ->
  holds f w -> archive_name f t w fName ->
  rotated_to f w ino nd fName (file.doRotate f t w).
Proof.
  intros Ho Hold Hnd Hh Ha. unfold file.doRotate.
  rewrite (Lstat_found w (Filename f) nd (Ho _)) by (unfold node; by rewrite Hold).
  set (w1 := called (CLstat (Filename f)) w).
  destruct (pickName_free f t w1 fName) as (w2 & -> & Hd & Hs).
  { intros name. apply Ho. }
  { apply (archive_name_same_disk f t w); [by repeat split | exact Ha]. }
  destruct Hd as (Hn2 & Hi2 & Hf2 & Hg2).
  apply (rotated_to_from f w w2); [apply Hs | exact Hg2 |].
  apply swapFile_ok.
  - apply (os_steps_obliging w1 w2 Hs). intros c. apply Ho.
  - by rewrite Hn2.
  - by rewrite Hi2.
  - destruct Ha as [n ? ? ? Hfree | ? Hfree];
      (rewrite (same_disk_node w w2) by (by repeat split)); exact Hfree.
  - intros h Hfh. rewrite Hf2. by apply Hh.
Qed.

Lemma tracks_same_disk f w w' :
  tracks f w -> files w' = files w -> inodes w' = inodes w -> tracks f w'.
Proof.
  intros (h & ino & nd & Hf & Hl & Hnd & Hc) Hfiles Hin. exists h, ino, nd.
  unfold live in *. rewrite Hfiles, Hin. done.
Qed.

Lemma tracks_holds f w : tracks f w -> holds f w.
Proof.
  intros (h & ino & nd & Hf & Hl & _) h' Hh'. rewrite Hf in Hh'. injection Hh' as <-.
  unfold live in Hl. destruct (files w !! h) as [[i c]|] eqn:E; [| discriminate Hl].
  by eapply lookup_lt_Some.
Qed.

Lemma writeStep_tracks f line w :
  tracks f w -> obliging w -> maxSizeCurSize f + len line < 2 ^ 63 ->
  (writeStep f line w).1.1 = None /\ tracks (writeStep f line w).1.2 (writeStep f line w).2.
Proof.
  intros (h & ino & nd & Hf & Hl & Hnd & Hc) Ho Hfit. unfold writeStep. rewrite Hf.
  rewrite (Write_done h line w ino nd Hl Hnd (Ho _)). cbn [fst snd].
  split; [done |].
  exists h, ino, {| i_dir := i_dir nd; i_data := i_data nd +:+ line;
                    i_mtime := time.Unix (now w) |}. cbn. wsimpl.
  split; [done |]. split; [exact Hl |]. split.
  { apply list_lookup_insert_eq. by eapply lookup_lt_Some. }
  cbn. rewrite wrap64_small, Hc, len_app; [done |].
  pose proof (len_nonneg (i_data nd)). pose proof (len_nonneg line). lia.
Qed.

Lemma doRotate_tracks f t w :
  obliging w -> tracks f w ->
  tracks (reportRotate (file.doRotate f t w)).1 (reportRotate (file.doRotate f t w)).2
  /\ obliging (reportRotate (file.doRotate f t w)).2
  /\ maxSizeCurSize (reportRotate (file.doRotate f t w)).1 <= maxSizeCurSize f.
Proof.
  intros Ho Ht.
  assert (Hob : obliging (reportRotate (file.doRotate f t w)).2).
  { eapply os_steps_obliging; [apply reportRotate_steps | done]. }
  split; [| split; [done |]].
  - destruct (node (Filename f) w) as [nd0|] eqn:Hnode.
    + destruct (archive_or_none f t w) as [[fName Ha] | Hnone].
      * assert (exists ino0, names w !! Filename f = Some ino0 /\ inodes w !! ino0 = Some nd0)
          as (ino0 & Hn0 & Hi0).
        { unfold node in Hnode. destruct (names w !! Filename f) as [i|]; [| discriminate].
          by exists i. }
        pose proof (doRotate_archives f t w ino0 nd0 fName Ho Hn0 Hi0 (tracks_holds f w Ht) Ha)
          as Hrot.
        destruct (file.doRotate f t w) as [[err f1] w1].
        destruct Hrot as (-> & _ & _ & (h' & ino' & Hfw & Hlive & _ & _ & Hfresh) & _ & Hc0 & _).
        simpl. exists h', ino', (fresh w). by rewrite Hc0.
      * unfold file.doRotate.
        rewrite (Lstat_found w (Filename f) nd0 (Ho _) Hnode).
        destruct (pickName_none f t (called (CLstat (Filename f)) w)) as (fName & w2 & -> & Hd & _).
        { intros name. apply Ho. }
        { destruct Hnone as [[Hp Hall] | [Hle Hday]]; [left | right]; (split; [done |]); done. }
        simpl. destruct Hd as (_ & Hi2 & Hf2 & _).
        apply (tracks_same_disk f w); [done | |]; wsimpl; by rewrite ?Hi2, ?Hf2.
    + unfold file.doRotate. destruct (Lstat_missing w (Filename f) (Ho _) Hnode) as [e ->].
      simpl. by apply (tracks_same_disk f w).
  - destruct (reportRotate_steps f t w) as [_ Hcfg].
    destruct (node (Filename f) w) as [nd0|] eqn:Hnode.
    + destruct (archive_or_none f t w) as [[fName Ha] | Hnone].
      * assert (exists ino0, names w !! Filename f = Some ino0 /\ inodes w !! ino0 = Some nd0)
          as (ino0 & Hn0 & Hi0).
        { unfold node in Hnode. destruct (names w !! Filename f) as [i|]; [| discriminate].
          by exists i. }
        pose proof (doRotate_archives f t w ino0 nd0 fName Ho Hn0 Hi0 (tracks_holds f w Ht) Ha)
          as Hrot.
        destruct (file.doRotate f t w) as [[err f1] w1].
        destruct Hrot as (-> & _ & _ & _ & _ & Hc0 & _). simpl. rewrite Hc0.
        destruct Ht as (_ & _ & nd & _ & _ & _ & ->). apply len_nonneg.
      * unfold file.doRotate.
        rewrite (Lstat_found w (Filename f) nd0 (Ho _) Hnode).
        destruct (pickName_none f t (called (CLstat (Filename f)) w)) as (fName & w2 & -> & _).
        { intros name. apply Ho. }
        { done. }
        simpl. lia.
    + unfold file.doRotate. destruct (Lstat_missing w (Filename f) (Ho _) Hnode) as [e ->].
      simpl. lia.
Qed.

(** X22. The byte counter follows the file.  On a system that refuses
    nothing, if the counter of a file appender is the size of the file
    it holds open (as [Init] leaves it), it is so again after
    [WriteMsg], and [WriteMsg] returns no error: whether the message was
    above the level, was appended, was appended after a rotation (the
    counter starts again with the new file) or after a rotation that
    failed. *)
Theorem counter_tracks_file_size (f : fileLogWriter) (when : time.Time) (msg : string)
    (L : Z) (w : World) :
  obliging w -> tracks f w ->
  maxSizeCurSize f + len (fileLine when msg) < 2 ^ 63 ->
  let '(err, f', w') := file.WriteMsg f when msg L w in
  err = None /\ tracks f' w'.
Proof.
  intros Ho Ht Hfit.
  destruct (Z.ltb_spec (Level f) L) as [Hgt | Hle].
  { unfold file.WriteMsg. destruct (Z.ltb_spec (Level f) L); [done | lia]. }
  destruct (Rotate f && file.needRotate f (len (fileLine when msg)) (time.Day when)) eqn:Hrot.
  - apply andb_true_iff in Hrot as [Hr Hn].
    rewrite (WriteMsg_rotating f when msg L w Hle Hr Hn).
    destruct (doRotate_tracks f when w Ho Ht) as (Ht1 & Ho1 & Hc1).
    destruct (writeStep_tracks _ (fileLine when msg) _ Ht1 Ho1 ltac:(lia)) as [He Ht2].
    destruct (writeStep _ _ _) as [[err f'] w']. done.
  - rewrite (WriteMsg_plain f when msg L w Hle Hrot).
    destruct (writeStep_tracks f (fileLine when msg) w Ht Ho Hfit) as [He Ht2].
    destruct (writeStep _ _ _) as [[err f'] w']. done.
Qed.
End Counter.

Lemma counter_tracks_file_size_witness :
  obs.tracks (file.WriteMsg sample.sized sample.t0 "[I] x" 3 sample.disk).1.2
             (file.WriteMsg sample.sized sample.t0 "[I] x" 3 sample.disk).2.
Proof.
  pose proof (counter_tracks_file_size sample.sized sample.t0 "[I] x" 3 sample.disk
                ltac:(intros c; reflexivity)
                ltac:(exists 0%nat, 1%nat; eexists; split_and!; reflexivity)
                ltac:(by vm_compute)) as H.
  destruct (file.WriteMsg sample.sized sample.t0 "[I] x" 3 sample.disk) as [[err f'] w'].
  apply H.
Defined.

(** ** An appender whose write fails *)
Section WriteFails.
Import os obs.

Lemma Write_on_closed h line w :
  live h w = None ->
  exists e l, Write h line w = (Fail e, (Write h line w).2)
              /\ trace (Write h line w).2 = trace w ++ map (pair (actor w)) l
              /\ Forall (fun c => quiet c = true) l.
Proof.
  intros Hl. unfold Write. destruct h as [h|].
  - rewrite Hl. eexists _, [CWrite h line]. split; [reflexivity |]. wsimpl.
    split; [reflexivity | by repeat constructor].
  - eexists _, []. split; [reflexivity |]. simpl. by rewrite app_nil_r.
Qed.

(** X23. The logger goes on when an appender fails.  On a synchronous
    logger whose first appender is a file appender with its file closed
    and no rotation, a leveled call that both levels admit returns
    normally; the logger has printed on standard error that it was
    unable to write to the appender of that name, with the error, and
    has called every appender, those after the failing one too. *)
Theorem write_error_is_reported
    (emit : logg.BaseLogger -> string -> World -> logg.Returns) (lv : Z)
    (log : logg.BaseLogger) (text : string) (w : World)
    (f : fileLogWriter) (name : string) (rest : list logg.nameAppender) :
  (emit, lv) ∈ leveled -> lv <= logg.level log -> logg.async log = false ->
  logg.appenders log = {| logg.appender := logg.File f; logg.name := name |} :: rest ->
  Forall opened rest ->
  lv <= Level f -> Rotate f = false -> live (fileWriter f) w = None ->
  exists log' w' e new msg,
    emit log text w = Ok (log', w', [])
    /\ trace w' = trace w ++ new
    /\ (None, CStd Stderr (writeReport name e)) ∈ new
    /\ journal new = each (S (length rest)) (MWriteMsg (now w) msg lv).
Proof.
  intros Hin Hle Hsync Happ Hop HL Hrot Hlive.
  destruct (leveled_cases emit lv Hin) as (tag & -> & Htag & Hlv).
  unfold logg.logAt. destruct (Z.ltb_spec (logg.level log) lv) as [? | _]; [lia |].
  unfold logg.writeMsg.
  destruct (withCaller_ok log (tag +:+ text) w) as [msg ->].
  { rewrite len_app. pose proof (len_nonneg text). lia. }
  cbn [bindR]. rewrite Hsync. unfold logg.writeToAppender. rewrite Happ.
  cbn [logg.fanOut logg.appender logg.name logg.Appender_WriteMsg].
  set (m := MWriteMsg (now w) msg lv).
  set (w0 := called (CInvoke m) (with_actor (Some 0%nat) w)).
  rewrite (WriteMsg_plain f (now w) msg lv w0 HL) by (by rewrite Hrot).
  unfold writeStep.
  destruct (Write_on_closed (fileWriter f) (fileLine (now w) msg) w0) as (e & l & HW & Htr1 & Hq).
  { subst w0. unfold live in *. wsimpl. exact Hlive. }
  rewrite HW. set (w1 := (Write (fileWriter f) (fileLine (now w) msg) w0).2) in *.
  cbn [bindR fst snd].
  set (w3 := Print Stderr _ (with_actor None w1)).
  destruct (fanOut_fanned rest 1 (now w) msg lv w3 Hlv Hop)
    as (outs' & w' & new' & -> & Htr' & Hf & Hn & _).
  cbn [bindR fst snd].
  eexists _, w', e, _, msg. split; [reflexivity |].
  assert (Htr3 : trace w3 = trace w ++ (Some 0%nat, CInvoke m) :: map (pair (Some 0%nat)) l
                            ++ [(None, CStd Stderr (writeReport name e))]).
  { subst w3. unfold Print, called. wsimpl. rewrite Htr1. subst w0. wsimpl.
    rewrite <- !app_assoc. reflexivity. }
  split.
  { rewrite Htr', Htr3, <- app_assoc. reflexivity. }
  split.
  { apply elem_of_app. left. apply elem_of_cons. right. apply elem_of_app. right.
    by apply list_elem_of_singleton. }
  rewrite journal_app.
  change ((Some 0%nat, CInvoke m) :: map (pair (Some 0%nat)) l
          ++ [(None, CStd Stderr (writeReport name e))])
    with ([(Some 0%nat, CInvoke m)] ++ map (pair (Some 0%nat)) l
          ++ [(None, CStd Stderr (writeReport name e))]).
  rewrite !journal_app, (journal_quiet _ _ Hq), (fanned_journal _ _ _ _ _ Hf).
  reflexivity.
Qed.
End WriteFails.

Lemma write_error_is_reported_witness :
  exists log' w' e new msg,
    logg.Error sample.orphaned "lost" sample.disk = Ok (log', w', [])
    /\ os.trace w' = os.trace sample.disk ++ new
    /\ (None, os.CStd os.Stderr (obs.writeReport "file" e)) ∈ new
    /\ obs.journal new = obs.each 2 (os.MWriteMsg (os.now sample.disk) msg 1).
Proof.
  apply (write_error_is_reported logg.Error 1 sample.orphaned "lost" sample.disk
           sample.dead "file"
           [{| logg.appender := logg.Console sample.console_errors; logg.name := "console" |}]).
  - unfold obs.leveled. rewrite !elem_of_cons. right; left. reflexivity.
  - cbn. lia.
  - reflexivity.
  - reflexivity.
  - constructor; [reflexivity | constructor].
  - cbn. lia.
  - reflexivity.
  - reflexivity.
Defined.

(** ** [Close] that goes through, and when a message is stamped *)
Section AsyncThrough.
Context `{rt : Runtime}.
Import os obs.

Lemma drain_journal q : forall l w,
  Forall (fun m => 0 <= logg.lm_level m <= 4) q ->
  Forall opened (logg.appenders l) -> logg.logMsgPool l = true ->
  exists l' w',
    logg.drain q l w = Ok (l', w')
    /\ same_but_queue l l'
    /\ logg.queue (logg.msgChan l')
       = match q with [] => logg.queue (logg.msgChan l) | _ => [] end
    /\ journal (trace w')
       = journal (trace w) ++ handed (length (logg.appenders l)) (map msg_of q).
Proof.
  induction q as [|m q IH]; intros l w Hlv Hop Hpool.
  { exists l, w. simpl. rewrite app_nil_r. unfold same_but_queue. by split_and!. }
  apply Forall_cons in Hlv as [Hm Hlv]. cbn [logg.drain].
  set (l0 := logg.set_msgChan (logg.with_queue q (logg.msgChan l)) l).
  unfold logg.writeToAppender.
  destruct (fanOut_fanned (logg.appenders l0) 0 (logg.lm_when m) (logg.lm_msg m)
              (logg.lm_level m) w Hm Hop)
    as (outs1 & w1 & new1 & -> & Htr1 & Hf1 & Hn1 & Ho1 & _).
  cbn [bindR fst snd]. unfold logg.poolPut.
  cbn [logg.logMsgPool logg.set_appenders]. subst l0. cbn [logg.set_msgChan logg.logMsgPool].
  rewrite Hpool. cbn [bindR].
  destruct (IH (logg.set_appenders outs1
                  (logg.set_msgChan (logg.with_queue q (logg.msgChan l)) l)) w1 Hlv Ho1 Hpool)
    as (l' & w' & -> & Hsame & Hq & Hj).
  assert (Hlen1 : length outs1 = length (logg.appenders l)).
  { symmetry. by eapply Forall2_length. }
  exists l', w'. split; [done |].
  split.
  { unfold same_but_queue in *. cbn in Hsame.
    destruct Hsame as (? & ? & ? & ? & ? & ? & ? & ? & ? & ? & ?). split_and!; congruence. }
  split.
  { rewrite Hq. cbn. by destruct q. }
  rewrite Hj, Htr1, journal_app, (fanned_journal _ _ _ _ _ Hf1). cbn [logg.appenders
    logg.set_appenders logg.set_msgChan map]. rewrite Hlen1, <- app_assoc.
  reflexivity.
Qed.

(** X24. [Close] on an asynchronous logger between two calls, with
    whatever messages are still in the channel: on the schedule where
    the goroutine takes the token next, the call returns; each appender
    was first handed the messages that were in the channel, in their
    order, then flushed, then destroyed, once each; the list of
    appenders is nil, the goroutine has ended and both channels are
    closed. *)
Theorem Close_delivers_and_returns
    (reg : gmap string logg.createAppender) (log : logg.BaseLogger) (w : World) :
  ready log -> Forall opened (logg.appenders log) ->
  Forall (fun m => 0 <= logg.lm_level m <= 4) (logg.queue (logg.msgChan log)) ->
  let k := length (logg.appenders log) in
  exists s',
    logg.run close_through
      {| logg.log := log; logg.world := w; logg.script := [logg.OpClose];
         logg.pending := []; logg.workers := 1; logg.appenderMap := reg |}
    = logg.Next s'
    /\ returned s' /\ logg.workers s' = 0%nat
    /\ logg.appenders (logg.log s') = []
    /\ logg.closed (logg.msgChan (logg.log s')) = true
    /\ logg.closed (logg.singalChan (logg.log s')) = true
    /\ journal (trace (logg.world s'))
       = journal (trace w) ++ handed k (map msg_of (logg.queue (logg.msgChan log)))
         ++ each k MFlush ++ each k MDestroy.
Proof.
  intros (Ha & Hp & Hwg & Hc1 & Hsq & Hc2 & Hcap) Hop Hlv k.
  unfold close_through.
  cbn [logg.run logg.move logg.pending logg.script logg.enter logg.log logg.world
       logg.workers logg.appenderMap].
  unfold logg.Close. rewrite Ha.
  cbn [logg.outcome logg.run logg.move logg.pending logg.script logg.log logg.world
       logg.workers logg.appenderMap logg.perform].
  rewrite Hc2, Hsq.
  destruct (Nat.ltb_spec (length (@nil string)) (logg.cap (logg.singalChan log)))
    as [_ | Hno]; [| simpl in Hno; lia].
  cbn [logg.run logg.move logg.pending logg.script logg.log logg.world
       logg.workers logg.appenderMap Nat.ltb Nat.leb app].
  unfold logg.caseSignal.
  cbn [logg.set_singalChan logg.singalChan logg.with_queue logg.queue logg.closed].
  set (l1 := logg.set_singalChan _ _).
  assert (Hq1 : logg.queue (logg.msgChan l1) = logg.queue (logg.msgChan log)) by done.
  unfold logg.onSignal, logg.flush.
  destruct (drain_journal (logg.queue (logg.msgChan l1)) l1 w ltac:(by rewrite Hq1) Hop Hp)
    as (l' & w' & Hdrain & Hsame & Hq' & Hj).
  rewrite Hdrain.
  destruct Hsame as (E1 & E2 & E3 & E4 & E5 & E6 & E7 & E8 & E9 & E10 & E11).
  cbn in E4, E5, E6, E7, E8, E9, E10.
  cbn [bindR fst snd String.eqb Ascii.eqb Bool.eqb].
  unfold logg.wgAdd. cbn [logg.wg logg.set_appenders]. rewrite E7, Hwg.
  change (1 + -1 <? 0) with false. change (1 + -1) with 0.
  cbn [bindR logg.run logg.move logg.pending logg.script logg.log logg.world
       logg.workers logg.appenderMap logg.perform logg.wg logg.set_wg Init.Nat.pred].
  change (0 =? 0) with true.
  cbn [bindR logg.run logg.move logg.pending logg.script logg.log logg.world
       logg.workers logg.appenderMap logg.perform logg.wg logg.set_wg].
  unfold logg.closeChans, logg.close.
  cbn [logg.msgChan logg.singalChan logg.set_wg logg.set_appenders logg.set_msgChan].
  rewrite E9, E6. cbn [logg.closed logg.set_singalChan logg.with_queue logg.singalChan].
  rewrite Hc1, Hc2.
  cbn [bindR logg.run logg.move logg.pending logg.script logg.log logg.world
       logg.workers logg.appenderMap].
  eexists. split; [reflexivity |]. cbn.
  split_and!; try done.
  rewrite (proj1 (destroyAll_journal _ 0 _)), (proj1 (flushAll_journal _ 0 _)), Hj.
  rewrite E10. cbn. rewrite <- !app_assoc. reflexivity.
Qed.

Lemma logAt_async_admitted lv tag log text w :
  3 <= len tag -> logg.async log = true -> logg.logMsgPool log = true ->
  lv <= logg.level log ->
  exists msg,
    logg.withCaller log (tag +:+ text) w = Ok msg
    /\ logg.logAt lv tag log text w
       = Ok (log, w, [logg.ASendMsg {| logg.lm_level := lv; logg.lm_msg := msg;
                                       logg.lm_when := now w |}]).
Proof.
  intros Htag Ha Hp Hle. unfold logg.logAt.
  destruct (Z.ltb_spec (logg.level log) lv); [lia |]. unfold logg.writeMsg.
  destruct (withCaller_ok log (tag +:+ text) w) as [msg Hmsg].
  { rewrite len_app. pose proof (len_nonneg text). lia. }
  rewrite Hmsg. cbn [bindR]. rewrite Ha, Hp. by exists msg.
Qed.

(** X25. In asynchronous mode a message is stamped when the call is
    made, not when it is written: the call puts the message with the
    time of the call into the channel and returns, and when the
    goroutine takes it later, at the time [t], each appender is handed
    the message with the time of the call. *)
Theorem stamped_at_the_call
    (reg : gmap string logg.createAppender) (log : logg.BaseLogger) (w : World)
    (op : logg.Op) (lv : Z) (tag text : string) (t : time.Time) :
  emit_parts op = Some (lv, tag, text) -> lv <= logg.level log ->
  ready log -> logg.queue (logg.msgChan log) = [] ->
  (0 < logg.cap (logg.msgChan log))%nat -> Forall opened (logg.appenders log) ->
  exists s' msg,
    logg.run (sent_then_written t)
      {| logg.log := log; logg.world := w; logg.script := [op];
         logg.pending := []; logg.workers := 1; logg.appenderMap := reg |}
    = logg.Next s'
    /\ returned s' /\ now (logg.world s') = t
    /\ logg.withCaller log (tag +:+ text) w = Ok msg
    /\ sends (trace (logg.world s')) = sends (trace w) ++ [(now w, msg, lv)]
    /\ journal (trace (logg.world s'))
       = journal (trace w) ++ each (length (logg.appenders log)) (MWriteMsg (now w) msg lv).
Proof.
  intros Hparts Hle (Ha & Hp & Hwg & Hc1 & Hsq & Hc2 & Hcap) Hq Hroom Hop.
  unfold sent_then_written.
  cbn [logg.run logg.move logg.pending logg.script logg.log logg.world
       logg.workers logg.appenderMap].
  destruct (emit_enter op lv tag text []
              {| logg.log := log; logg.world := w; logg.script := [op];
                 logg.pending := []; logg.workers := 1; logg.appenderMap := reg |} Hparts)
    as (-> & Hlv & Htag).
  cbn [logg.log logg.world logg.workers].
  destruct (logAt_async_admitted lv tag log text w Htag Ha Hp Hle) as (msg & Hmsg & ->).
  cbn [logg.outcome logg.run logg.move logg.pending logg.script logg.log logg.world
       logg.workers logg.appenderMap logg.perform].
  rewrite Hc1, Hq.
  destruct (Nat.ltb_spec (length (@nil logg.logMsg)) (logg.cap (logg.msgChan log)))
    as [_ | Hno]; [| simpl in Hno; lia].
  cbn [logg.run logg.move logg.pending logg.script logg.log logg.world
       logg.workers logg.appenderMap Nat.ltb Nat.leb app].
  unfold logg.caseMsg.
  cbn [logg.set_msgChan logg.msgChan logg.with_queue logg.queue logg.lm_when
       logg.lm_msg logg.lm_level].
  unfold logg.writeToAppender.
  cbn [logg.set_msgChan logg.appenders].
  destruct (fanOut_fanned (logg.appenders log) 0 (now w) msg lv
              (with_now t (logg.sent {| logg.lm_level := lv; logg.lm_msg := msg;
                                        logg.lm_when := now w |} w)) Hlv Hop)
    as (outs1 & w1 & new1 & -> & Htr1 & Hf1 & _ & _ & Hk & _).
  cbn [bindR fst snd]. unfold logg.poolPut. cbn [logg.logMsgPool logg.set_appenders
    logg.set_msgChan]. rewrite Hp.
  cbn [bindR logg.run].
  exists {| logg.log := logg.set_appenders outs1
              (logg.set_msgChan (logg.with_queue [] (logg.msgChan log)) log);
            logg.world := w1; logg.script := []; logg.pending := []; logg.workers := 1;
            logg.appenderMap := reg |}, msg.
  split; [reflexivity |]. cbn [logg.world].
  destruct (fanned_plain _ _ _ _ _ _ Hf1) as [Hs1 _].
  revert Htr1 Hk. unfold logg.sent, called, kept. wsimpl.
  cbn [logg.lm_when logg.lm_msg logg.lm_level]. intros Htr1 (Hnow & _).
  split; [done |]. split; [done |]. split; [done |].
  rewrite Htr1. split.
  - rewrite !sends_app, Hs1, app_nil_r. destruct (actor w); reflexivity.
  - rewrite !journal_app, (fanned_journal _ _ _ _ _ Hf1).
    assert (Hj0 : journal [(actor w, CSend (now w) msg lv)] = []) by (by destruct (actor w)).
    rewrite Hj0, app_nil_r. reflexivity.
Qed.

(** X26. A full channel makes the caller wait and loses nothing: while
    the message channel holds as many messages as it has room for, the
    send of a leveled call does not go through; once the goroutine has
    taken the first message of the channel, it does, and the new
    message is the last of the channel. *)
Theorem full_channel_blocks (log : logg.BaseLogger) (w : World) (m first : logg.logMsg)
    (others : list logg.logMsg) (nworkers : nat) :
  logg.closed (logg.msgChan log) = false ->
  logg.queue (logg.msgChan log) = first :: others ->
  logg.cap (logg.msgChan log) = S (length others) ->
  logg.logMsgPool log = true -> Forall opened (logg.appenders log) ->
  0 <= logg.lm_level first <= 4 ->
  logg.perform (logg.ASendMsg m) nworkers log w = None
  /\ exists log1 w1,
       logg.caseMsg log w = Some (Ok (log1, w1))
       /\ exists log2,
            logg.perform (logg.ASendMsg m) nworkers log1 w1 = Some (Ok (log2, logg.sent m w1))
            /\ logg.queue (logg.msgChan log2) = others ++ [m].
Proof.
  intros Hc Hq Hcap Hp Hop Hlv. split.
  - cbn [logg.perform]. rewrite Hc, Hq, Hcap. cbn [length].
    rewrite Nat.ltb_irrefl. reflexivity.
  - unfold logg.caseMsg. rewrite Hq.
    set (l0 := logg.set_msgChan (logg.with_queue others (logg.msgChan log)) log).
    destruct (writeToAppender_ok l0 (logg.lm_when first) (logg.lm_msg first)
                (logg.lm_level first) w Hlv Hop)
      as (outs1 & w1 & new1 & -> & _).
    cbn [bindR fst snd]. unfold logg.poolPut. subst l0.
    cbn [logg.logMsgPool logg.set_appenders logg.set_msgChan]. rewrite Hp. cbn [bindR].
    eexists _, w1. split; [reflexivity |].
    cbn [logg.perform logg.msgChan logg.set_appenders logg.set_msgChan logg.closed
         logg.with_queue logg.queue logg.cap].
    rewrite Hc, Hcap.
    destruct (Nat.ltb_spec (length others) (S (length others))) as [_ | ?]; [| lia].
    eexists. split; [reflexivity |]. reflexivity.
Qed.
End AsyncThrough.

Lemma Close_delivers_and_returns_witness :
  exists s',
    @logg.run sample.runtime obs.close_through
      {| logg.log := sample.busy; logg.world := sample.disk;
         logg.script := [logg.OpClose]; logg.pending := []; logg.workers := 1;
         logg.appenderMap := sample.registry |}
    = logg.Next s'
    /\ obs.returned s'
    /\ obs.journal (os.trace (logg.world s'))
       = obs.each 2 (os.MWriteMsg sample.t0 "[I] up" 3)
         ++ obs.each 2 os.MFlush ++ obs.each 2 os.MDestroy.
Proof.
  destruct (@Close_delivers_and_returns sample.runtime sample.registry sample.busy
              sample.disk) as (s' & H1 & H2 & _ & _ & _ & _ & H3).
  - unfold obs.ready. cbn. split_and!; try reflexivity. lia.
  - constructor; [reflexivity | constructor; [by eexists | constructor]].
  - constructor; [cbn; lia | constructor].
  - exists s'. split; [exact H1 |]. split; [exact H2 | exact H3].
Defined.

Lemma stamped_at_the_call_witness :
  exists s' msg,
    @logg.run sample.runtime (obs.sent_then_written sample.eve)
      {| logg.log := sample.worker; logg.world := sample.disk;
         logg.script := [logg.OpInfo "up"]; logg.pending := []; logg.workers := 1;
         logg.appenderMap := sample.registry |}
    = logg.Next s'
    /\ os.now (logg.world s') = sample.eve
    /\ obs.journal (os.trace (logg.world s'))
       = obs.each 2 (os.MWriteMsg sample.t0 msg 3).
Proof.
  destruct (@stamped_at_the_call sample.runtime sample.registry sample.worker sample.disk
              (logg.OpInfo "up") 3 "[I] " "up" sample.eve)
    as (s' & msg & H1 & _ & H2 & _ & _ & H3).
  - reflexivity.
  - cbn. lia.
  - unfold obs.ready. cbn. split_and!; try reflexivity. lia.
  - reflexivity.
  - cbn. lia.
  - constructor; [reflexivity | constructor; [by eexists | constructor]].
  - exists s', msg. split; [exact H1 |]. split; [exact H2 | exact H3].
Defined.

Lemma full_channel_blocks_witness :
  logg.perform (logg.ASendMsg {| logg.lm_level := 3; logg.lm_msg := "[I] more";
                                 logg.lm_when := sample.t0 |}) 1 sample.crammed sample.disk
  = None.
Proof.
  apply (full_channel_blocks sample.crammed sample.disk _
           {| logg.lm_level := 3; logg.lm_msg := "[I] up"; logg.lm_when := sample.t0 |} [] 1).
  - reflexivity.
  - reflexivity.
  - reflexivity.
  - reflexivity.
  - constructor; [reflexivity | constructor; [by eexists | constructor]].
  - cbn. lia.
Defined.

(** ** [Init] of the file appender: a new file, a path that cannot be opened *)
Section FileInitPaths.
Context {rt : Runtime}.
Import os obs.


(** X28. When the file cannot be opened, because the system refuses it
    or because the path names a directory, [Init] returns an error and
    the appender holds what it held before; no name, no content and no
    open file changes. *)
Theorem file_Init_open_fails (config : string) (f : fileLogWriter) (w : World)
    (j : fileFields) :
  unmarshal_file config (file.exported f) = (j, None) ->
  jFilename j <> "" ->
  refuses w (COpenFile (jFilename j)) = true
  \/ (exists ino nd, names w !! jFilename j = Some ino /\ inodes w !! ino = Some nd
                     /\ i_dir nd = true) ->
  let '(err, f', w') := file.Init config f w in
  err <> None
  /\ fileWriter f' = fileWriter f
  /\ names w' = names w /\ inodes w' = inodes w /\ files w' = files w.
Proof.
  intros Hdec Hname Hwhy. unfold file.Init. rewrite Hdec.
  cbn [file.set_exported Filename].
  destruct (Z.eqb_spec (len (jFilename j)) 0) as [H0 | _].
  { apply len_zero in H0. by destruct Hname. }
  unfold file.startLogging, file.createLogFile, OpenFile.
  cbn [file.set_names file.set_exported Filename fileWriter].
  destruct (refuses w (COpenFile (jFilename j))) eqn:Hr.
  { wsimpl. by split_and!. }
  destruct Hwhy as [Hno | (ino & nd & -> & -> & ->)]; [discriminate Hno |].
  wsimpl. by split_and!.
Qed.
End FileInitPaths.


Lemma file_Init_open_fails_witness :
  (@file.Init sample.runtime "." file.newFileAppender sample.world).1.1 <> None
  /\ fileWriter (@file.Init sample.runtime "." file.newFileAppender sample.world).1.2 = None.
Proof.
  pose proof (@file_Init_open_fails sample.runtime "." file.newFileAppender sample.world
                _ eq_refl ltac:(discriminate)
                (or_intror (ex_intro _ 0%nat (ex_intro _ _ (conj eq_refl (conj eq_refl eq_refl))))))
    as H.
  destruct (@file.Init sample.runtime "." file.newFileAppender sample.world)
    as [[err f'] w'].
  destruct H as (H1 & H2 & _). split; [exact H1 | exact H2].
Defined.
